(** * PolGen-RVC: a shallow embedding of the synthesizer and of the model
      installation helpers, with the checked properties of their
      specification.

    Source files embedded here:
    - [src/infer_pack/models.py]      (the conditional VAE + flow + NSF vocoder)
    - [src/modules/download_hubert.py] (replacement of the HuBERT checkpoint)
    - [rvc/modules/model_management.py] (installation of voice models)

    Conventions of the embedding.
    - Tensor entries are real numbers ([R]): arithmetic is the exact
      arithmetic that the floating-point code approximates; a cast between
      floating-point formats is the abstract rounding [cast].
    - A Python [float] that the code turns into an index ([rate]) is a
      binary64 number with the rounding of IEEE 754 ([SpecFloat]).
    - A tensor of rank 3 is a list of lists of lists, indexed in the order
      of the PyTorch shape ([x[b][c][t]]).
    - A Python exception is a value of [exn]; a call that can raise returns
      a [result].  Values whose shape the code inspects dynamically (the
      tuples that are unpacked into several names) are [pyobj] values.
    - The random-number generator of the runtime is an explicit state.
    - The file system is a finite map from the places that exist to what
      they hold.  A path that the program builds from a name it is given
      is kept as written and resolved against the tree at each call, as
      the operating system does ([Os.resolve_path]). *)

From Stdlib Require Import Reals Lra Lia List ZArith QArith Qround Ascii String Permutation.
From Stdlib Require Import SpecFloat.
From stdpp Require Import gmap strings pretty.
Import ListNotations.

Set Warnings "-register-all".

Local Open Scope R_scope.

(* ===================================================================== *)
(** * Part I.  Definitions                                                *)
(* ===================================================================== *)

(** ** Python runtime: exceptions, results, dynamic values *)

Inductive exn : Type :=
| ValueError (msg : string)
| TypeError (msg : string)
| AttributeError (attr : string)
| IndexError
| NameError (name : string)
| KeyError (key : string)
| OverflowError (msg : string)
| RuntimeError (msg : string)
| OSError (msg : string)
| BadZipFile (msg : string)
| GrError (msg : string).

Inductive result (A : Type) : Type :=
| Ok (a : A)
| Raise (e : exn).
Arguments Ok {A} a.
Arguments Raise {A} e.

#[global] Instance result_ret : MRet result := fun _ a => Ok a.
#[global] Instance result_bind : MBind result := fun _ _ f r =>
  match r with
  | Ok a => f a
  | Raise e => Raise e
  end.

Definition is_ok {A} (r : result A) : bool :=
  match r with Ok _ => true | Raise _ => false end.

(** ** Tensors *)

Abbreviation Tensor1 := (list R) (only parsing).
Abbreviation Tensor2 := (list (list R)) (only parsing).
Abbreviation Tensor3 := (list (list (list R))) (only parsing).

(** The floating-point formats the code tells apart ([tensor.dtype]). *)
Inductive dtype : Type := float16 | bfloat16 | float32 | float64.

#[global] Instance dtype_eq_dec : EqDecision dtype.
Proof. solve_decision. Defined.

(** [torch.promote_types(torch.float32, d)]: the format of an operation that
    mixes a tensor of the default format with one of format [d]. *)
Definition promote_float32 (d : dtype) : dtype :=
  match d with
  | float64 => float64
  | _ => float32
  end.

(** A dynamic Python value: a tensor, [None], or a tuple of values. *)
Inductive pyobj : Type :=
| PyTensor (x : Tensor3)
| PyNone
| PyTuple (items : list pyobj).

(** [a, b, c = t] for a tuple [t] with the given items: Python raises
    [ValueError] unless [t] has exactly three items. *)
Definition not_enough_values (got : nat) : string :=
  String.append "not enough values to unpack (expected 3, got "
    (String.append (pretty got) ")").

Definition unpack3 (items : list pyobj) : result (pyobj * pyobj * pyobj) :=
  match items with
  | [a; b; c] => Ok (a, b, c)
  | _ :: _ :: _ :: _ :: _ =>
      Raise (ValueError "too many values to unpack (expected 3)")
  | _ =>
      Raise (ValueError (not_enough_values (length items)))
  end.

(** Use of a dynamic value where a tensor is required. *)
Definition as_tensor (o : pyobj) : result Tensor3 :=
  match o with
  | PyTensor x => Ok x
  | _ => Raise (TypeError "expected a Tensor")
  end.

(** *** Shapes and indexing *)

Definition size0 {A} (x : list A) : nat := length x.
Definition size1 {A} (x : list (list A)) : nat :=
  match x with [] => 0%nat | xb :: _ => length xb end.
Definition size2 {A} (x : list (list (list A))) : nat :=
  match x with
  | [] => 0%nat
  | xb :: _ => match xb with [] => 0%nat | xc :: _ => length xc end
  end.

(** [x[b][c][t]], with 0 outside the tensor. *)
Definition at3 (x : Tensor3) (b c t : nat) : R :=
  nth t (nth c (nth b x []) []) 0.
Definition at2 (x : Tensor2) (b t : nat) : R := nth t (nth b x []) 0.

(** [x] is a full tensor of shape [B, C, T]. *)
Definition has_shape3 {A} (x : list (list (list A))) (B C T : nat) : Prop :=
  length x = B /\
  Forall (fun xb => length xb = C /\ Forall (fun xc => length xc = T) xb) x.

Definition has_shape2 {A} (x : list (list A)) (B T : nat) : Prop :=
  length x = B /\ Forall (fun xb => length xb = T) x.

(** *** Elementwise operations and broadcasting *)

(** One dimension of PyTorch broadcasting: a dimension of size 1 is
    repeated along the other operand.  (Two sizes that differ and are both
    other than 1 make PyTorch raise; the model pairs the entries up to the
    shorter one.) *)
Definition bcast {A B C} (f : A -> B -> C) (xs : list A) (ys : list B) : list C :=
  match xs, ys with
  | [x], _ => map (f x) ys
  | _, [y] => map (fun x => f x y) xs
  | _, _ => zip_with f xs ys
  end.

Definition map3 (f : R -> R) (x : Tensor3) : Tensor3 := map (map (map f)) x.

Definition tadd3 : Tensor3 -> Tensor3 -> Tensor3 := bcast (bcast (bcast Rplus)).
Definition tmul3 : Tensor3 -> Tensor3 -> Tensor3 := bcast (bcast (bcast Rmult)).

(** Tensor-with-number operations. *)
Definition tadd_scalar (x : Tensor3) (c : R) : Tensor3 := map3 (fun v => v + c) x.
Definition tmul_scalar (x : Tensor3) (c : R) : Tensor3 := map3 (fun v => v * c) x.
Definition tdiv_scalar (x : Tensor3) (c : R) : Tensor3 := map3 (fun v => v / c) x.
Definition rsub_scalar (c : R) (x : Tensor3) : Tensor3 := map3 (fun v => c - v) x.

(** [x % 1] on tensors ([torch.remainder]: the result has the sign of the
    divisor, so it is the fractional part). *)
Definition tmod1 (x : Tensor3) : Tensor3 := map3 frac_part x.

(** [F.leaky_relu(x, slope)] = max(0, x) + slope * min(0, x). *)
Definition leaky_relu_scalar (slope v : R) : R := Rmax 0 v + slope * Rmin 0 v.
Definition leaky_relu (slope : R) (x : Tensor3) : Tensor3 :=
  map3 (leaky_relu_scalar slope) x.

(** *** Transposition *)

Fixpoint transpose {A} (m : list (list A)) : list (list A) :=
  match m with
  | [] => []
  | r :: rs =>
      match rs with
      | [] => map (fun v => [v]) r
      | _ :: _ => zip_with cons r (transpose rs)
      end
  end.

(** [x.transpose(1, 2)] on a tensor of rank 3. *)
Definition transpose12 {A} (x : list (list (list A))) : list (list (list A)) :=
  map transpose x.

(** [x.unsqueeze(-1)] on a tensor of rank 2, and [unsqueeze(x, 1)]. *)
Definition unsqueeze_last {A} (x : list (list A)) : list (list (list A)) :=
  map (map (fun v => [v])) x.
Definition unsqueeze1 {A} (x : list (list A)) : list (list (list A)) :=
  map (fun xb => [xb]) x.

(** *** Python slicing *)

(** [l[start:]] with Python's treatment of a negative or too large start. *)
Definition slice_from {A} (start : Z) (l : list A) : list A :=
  let n := Z.of_nat (length l) in
  let s := if (start <? 0)%Z then Z.max 0 (start + n) else Z.min start n in
  skipn (Z.to_nat s) l.

(** [x[:, :, start:]] and [x[:, start:]]. *)
Definition slice_dim2 {A} (start : Z) (x : list (list (list A))) :=
  map (map (slice_from start)) x.
Definition slice_dim1 {A} (start : Z) (x : list (list A)) :=
  map (slice_from start) x.

(** [torch.split(x, n, dim=1)]: consecutive chunks of [n] channels. *)
Definition split_dim1 (n : nat) (x : Tensor3) : result (list Tensor3) :=
  match n with
  | O => if Nat.eqb (size1 x) 0 then Ok []
         else Raise (RuntimeError "split_size can only be 0 if dimension size is 0")
  | S _ =>
      let k := Nat.div (size1 x + n - 1) n in
      Ok (map (fun i => map (fun xb => firstn n (skipn (i * n) xb)) x) (seq 0 k))
  end.

(** ** The runtime the code is linked against *)

(** The tensor runtime: the global random-number generator ([torch.rand]
    draws uniformly from [0, 1), [torch.randn] from the standard normal
    distribution; one call of [rand_next] / [randn_next] is one draw) and
    the rounding of a value into a floating-point format ([tensor.to]). *)
Class TorchRuntime : Type := {
  Gen : Type;
  rand_next : Gen -> R * Gen;
  randn_next : Gen -> R * Gen;
  cast : dtype -> R -> R
}.

(** The names [models.py] imports from the rest of [infer_pack], which is
    not part of the embedded sources: the valid-length mask of
    [commons.sequence_mask(lengths, max_len)] and the constant
    [modules.LRELU_SLOPE]. *)
Class InferPack : Type := {
  sequence_mask : list Z -> nat -> Tensor2;
  LRELU_SLOPE : R
}.

Section Runtime.
Context `{TorchRuntime}.

(** State-passing traversal: one generator action per entry, in row-major
    order. *)
Fixpoint mapS {A B} (f : A -> Gen -> B * Gen) (l : list A) (g : Gen) : list B * Gen :=
  match l with
  | [] => ([], g)
  | a :: l' =>
      let '(b, g1) := f a g in
      let '(bs, g2) := mapS f l' g1 in
      (b :: bs, g2)
  end.

(** [torch.randn_like(x)]. *)
Definition randn_like (x : Tensor3) (g : Gen) : Tensor3 * Gen :=
  mapS (mapS (mapS (fun _ => randn_next))) x g.

(** [torch.rand(B, D)]. *)
Definition rand2 (B D : nat) (g : Gen) : Tensor2 * Gen :=
  mapS (fun _ => mapS (fun _ => rand_next) (seq 0 D)) (seq 0 B) g.

(** [x.to(d)]. *)
Definition tensor_to (d : dtype) (x : Tensor3) : Tensor3 := map3 (cast d) x.

End Runtime.

(** ** Resampling along the last dimension ([F.interpolate]) *)

(** [mode="nearest"] with an integer scale factor: every entry is repeated
    [upp] times (output index [i] reads input index [i / upp]). *)
Definition interpolate_nearest (upp : nat) (row : Tensor1) : Tensor1 :=
  flat_map (fun v => repeat v upp) row.

(** [mode="linear", align_corners=True]: the output has [T * upp] entries;
    entry [i] sits at input coordinate [i * (T - 1) / (T * upp - 1)] and is
    the linear blend of its two neighbours. *)
Definition interpolate_linear (upp : nat) (row : Tensor1) : Tensor1 :=
  let T := length row in
  let L := (T * upp)%nat in
  map (fun i =>
         let num := (i * (T - 1))%nat in
         let den := (L - 1)%nat in
         let i0 := Nat.div num den in
         let i1 := if Nat.ltb i0 (T - 1) then S i0 else i0 in
         let lam := INR (Nat.modulo num den) / INR den in
         (1 - lam) * nth i0 row 0 + lam * nth i1 row 0)
      (seq 0 L).

(** [F.interpolate(x.transpose(2, 1), scale_factor=upp, mode=...).transpose(2, 1)]
    for [x] of shape [B, T, D]. *)
Definition interpolate_time (f : Tensor1 -> Tensor1) (x : Tensor3) : Tensor3 :=
  transpose12 (map (map f) (transpose12 x)).

(** [torch.cumsum(x, 1)] for [x] of shape [B, T, D]: running sums of the
    rows of every batch entry. *)
Fixpoint cumsum_rows (acc : option Tensor1) (rows : Tensor2) : Tensor2 :=
  match rows with
  | [] => []
  | r :: rs =>
      let s := match acc with
               | None => r
               | Some a => zip_with Rplus a r
               end in
      s :: cumsum_rows (Some s) rs
  end.
Definition cumsum_dim1 (x : Tensor3) : Tensor3 := map (cumsum_rows None) x.

(** ** [class SineGen] *)

Record SineGen : Type := {
  sg_sine_amp : R;
  sg_noise_std : R;
  sg_harmonic_num : nat;
  sg_dim : nat;
  sg_sampling_rate : R;
  sg_voiced_threshold : R
}.

(** [SineGen.__init__] ([flag_for_pulse] is not stored). *)
Definition SineGen_init (samp_rate : R) (harmonic_num : nat)
    (sine_amp noise_std voiced_threshold : R) : SineGen :=
  {| sg_sine_amp := sine_amp;
     sg_noise_std := noise_std;
     sg_harmonic_num := harmonic_num;
     sg_dim := harmonic_num + 1;
     sg_sampling_rate := samp_rate;
     sg_voiced_threshold := voiced_threshold |}.

(** [SineGen._f02uv]: 1 on voiced frames ([f0 > voiced_threshold]), 0 on
    the others.  (The cast on the "privateuseone" device keeps 0 and 1.) *)
Definition SineGen_f02uv (self : SineGen) (f0 : Tensor3) : Tensor3 :=
  map3 (fun v => 1 * (if Rlt_dec (sg_voiced_threshold self) v then 1 else 0)) f0.

(** [buf[:, :, j] = col] where [col] has shape [B, T]. *)
Definition set_column (j : nat) (col : Tensor2) (buf : Tensor3) : Tensor3 :=
  zip_with (zip_with (fun v row => <[j := v]> row)) col buf.
(** [buf[:, :, j]]. *)
Definition get_column (j : nat) (buf : Tensor3) : Tensor2 :=
  map (map (fun row => nth j row 0)) buf.

(** Lines 137-141: the frequency of every harmonic, shape [B, T, dim]. *)
Definition SineGen_f0_buf (self : SineGen) (f0 : Tensor3) : Tensor3 :=
  let zeros := map (map (fun _ => repeat 0 (sg_dim self))) f0 in
  let buf0 := set_column 0 (get_column 0 f0) zeros in
  fold_left
    (fun buf idx =>
       set_column (idx + 1)
         (map (map (fun v => v * INR (idx + 2))) (get_column 0 buf)) buf)
    (seq 0 (sg_harmonic_num self)) buf0.

(** [rand_ini[:, 0] = 0]. *)
Definition zero_first_column (rand_ini : Tensor2) : Tensor2 :=
  map (fun row => <[0%nat := 0]> row) rand_ini.

(** [rad_values[:, 0, :] += rand_ini]: frame 0 of every batch entry takes
    the row of [rand_ini] of that entry; where there is no frame 0 the
    index is out of range ([IndexError]). *)
Definition add_to_first_frame (rad_values : Tensor3) (rand_ini : Tensor2)
  : result Tensor3 :=
  mapM (fun '(rows, ini) =>
          match rows with
          | [] => Raise IndexError
          | r0 :: rest => Ok (bcast Rplus r0 ini :: rest)
          end) (zip rad_values rand_ini).

(** Lines 142-145: the per-frame phase increments with the initial phases
    added to the first frame; [rand_ini] is the matrix drawn by
    [torch.rand]. *)
Definition SineGen_rad_values (self : SineGen) (f0 : Tensor3) (rand_ini : Tensor2)
  : result Tensor3 :=
  let f0_buf := SineGen_f0_buf self f0 in
  let rad_values := tmod1 (tdiv_scalar f0_buf (sg_sampling_rate self)) in
  add_to_first_frame rad_values (zero_first_column rand_ini).

(** [(t[:, 1:, :] - t[:, :-1, :]) < 0]. *)
Definition falls (t : Tensor3) : list (list (list bool)) :=
  map (fun rows =>
         zip_with (zip_with (fun a b => if Rlt_dec (a - b) 0 then true else false))
           (tail rows) (removelast rows)) t.

(** [s = torch.zeros_like(like); s[:, 1:, :] = idx * -1.0]. *)
Definition shift_of_falls (like : Tensor3) (idx : list (list (list bool))) : Tensor3 :=
  zip_with (fun rows idx_b =>
              match rows with
              | [] => []
              | r0 :: _ =>
                  map (fun _ => 0) r0
                  :: map (map (fun b : bool => (if b then 1 else 0) * -1)) idx_b
              end) like idx.

(** Lines 146-152: the upsampled phase increments and the wrap-around
    correction. *)
Definition SineGen_rad_upsampled (rad_values : Tensor3) (upp : nat) : Tensor3 :=
  tmod1 (interpolate_time (interpolate_nearest upp) rad_values).

Definition SineGen_tmp_over_one (rad_values : Tensor3) (upp : nat) : Tensor3 :=
  let tmp_over_one := tmul_scalar (cumsum_dim1 rad_values) (INR upp) in
  let tmp_over_one := interpolate_time (interpolate_linear upp) tmp_over_one in
  tmod1 tmp_over_one.

Definition SineGen_cumsum_shift (rad_values : Tensor3) (upp : nat) : Tensor3 :=
  shift_of_falls (SineGen_rad_upsampled rad_values upp)
    (falls (SineGen_tmp_over_one rad_values upp)).

(** Line 153: the harmonic sines. *)
Definition SineGen_sines (self : SineGen) (rad_values : Tensor3) (upp : nat) : Tensor3 :=
  let rad_up := SineGen_rad_upsampled rad_values upp in
  let cumsum_shift := SineGen_cumsum_shift rad_values upp in
  tmul_scalar
    (map3 sin (tmul_scalar (tmul_scalar (cumsum_dim1 (tadd3 rad_up cumsum_shift)) 2) PI))
    (sg_sine_amp self).

(** Lines 154-155: the voiced flag at the output rate. *)
Definition SineGen_uv (self : SineGen) (f0 : Tensor3) (upp : nat) : Tensor3 :=
  interpolate_time (interpolate_nearest upp) (SineGen_f02uv self f0).

Section SineGenForward.
Context `{TorchRuntime}.

(** [SineGen.forward(f0, upp)]; the result is the tuple
    [(sine_waves, uv, noise)].  When line 145 raises, [torch.rand] has
    drawn and [torch.randn_like] has not. *)
Definition SineGen_forward (self : SineGen) (f0 : Tensor2) (upp : nat) (g : Gen)
  : result (list pyobj) * Gen :=
  let f0 := transpose12 (unsqueeze1 f0) in
  let '(rand_ini, g1) := rand2 (size0 f0) (sg_dim self) g in
  match SineGen_rad_values self f0 rand_ini with
  | Raise e => (Raise e, g1)
  | Ok rad_values =>
      let sine_waves := SineGen_sines self rad_values upp in
      let uv := SineGen_uv self f0 upp in
      let noise_amp :=
        tadd3 (tmul_scalar uv (sg_noise_std self))
              (tdiv_scalar (tmul_scalar (rsub_scalar 1 uv) (sg_sine_amp self)) 3) in
      let '(n, g2) := randn_like sine_waves g1 in
      let noise := tmul3 noise_amp n in
      let sine_waves := tadd3 (tmul3 sine_waves uv) noise in
      (Ok [PyTensor sine_waves; PyTensor uv; PyTensor noise], g2)
  end.

End SineGenForward.

(** ** Python sequences and numbers *)

(** [l[i]] for a non-negative index. *)
Definition py_index {A} (l : list A) (i : nat) : result A :=
  match l !! i with
  | Some v => Ok v
  | None => Raise IndexError
  end.

(** A Python number: an [int] or a [float].  A [float] is a binary64
    number (53 bits of precision, exponents below 1024). *)
Inductive number : Type :=
| Int (n : Z)
| Float (x : spec_float).

(** The conversion of an [int] operand to [float]: the nearest binary64
    number, ties to even; an [int] beyond the range of binary64 raises. *)
Definition float_of_int (n : Z) : result spec_float :=
  match binary_normalize 53 1024 n 0 false with
  | S754_infinity _ => Raise (OverflowError "int too large to convert to float")
  | x => Ok x
  end.

(** [n * y] for an [int] [n]: exact for an [int] [y], the rounded product
    of binary64 for a [float] [y]. *)
Definition int_mul (n : Z) (y : number) : result number :=
  match y with
  | Int m => Ok (Int (n * m))
  | Float y => x ← float_of_int n; Ok (Float (SFmul 53 1024 x y))
  end.

(** [int(x)]: truncation towards zero. *)
Definition py_int (x : number) : result Z :=
  match x with
  | Int n => Ok n
  | Float (S754_zero _) => Ok 0%Z
  | Float (S754_finite s m e) =>
      let a := match e with
               | Zneg p => Z.shiftr (Zpos m) (Zpos p)
               | _ => Z.shiftl (Zpos m) e
               end in
      Ok (if s then (- a)%Z else a)
  | Float (S754_infinity _) =>
      Raise (OverflowError "cannot convert float infinity to integer")
  | Float S754_nan => Raise (ValueError "cannot convert float NaN to integer")
  end.

(** Truth value of an optional number ([if rate:]): [None], 0, 0.0 and
    -0.0 are false. *)
Definition py_truthy (rate : option number) : bool :=
  match rate with
  | None => false
  | Some (Int n) => negb (n =? 0)%Z
  | Some (Float (S754_zero _)) => false
  | Some (Float _) => true
  end.

(** A tensor of rank 2 together with its floating-point format. *)
Record FloatTensor2 : Type := {
  ft_dtype : dtype;
  ft_data : Tensor2
}.

(** ** [class TextEncoder] *)

Record TextEncoder : Type := {
  te_out_channels : nat;
  te_hidden_channels : nat;
  te_emb_phone : Tensor3 -> Tensor3;
  (** the attribute [emb_pitch] exists only when the encoder was built
      with [f0=True] *)
  te_emb_pitch : option (list (list Z) -> Tensor3);
  te_encoder : Tensor3 -> Tensor3 -> Tensor3;
  te_proj : Tensor3 -> Tensor3
}.

(** [TextEncoder.__init__]; the freshly built layers are arguments. *)
Definition TextEncoder_init (out_channels hidden_channels : nat)
    (emb_phone : Tensor3 -> Tensor3) (emb_pitch : list (list Z) -> Tensor3)
    (encoder : Tensor3 -> Tensor3 -> Tensor3) (proj : Tensor3 -> Tensor3)
    (f0 : bool) : TextEncoder :=
  {| te_out_channels := out_channels;
     te_hidden_channels := hidden_channels;
     te_emb_phone := emb_phone;
     te_emb_pitch := if f0 then Some emb_pitch else None;
     te_encoder := encoder;
     te_proj := proj |}.

Section TextEncoderForward.
Context `{InferPack}.

(** Line 30: the sum of the phone embedding and the pitch term. *)
Definition TextEncoder_embed (self : TextEncoder) (phone : Tensor3)
    (pitch : option (list (list Z))) : result Tensor3 :=
  match pitch with
  | Some p =>
      match te_emb_pitch self with
      | Some emb_pitch => Ok (tadd3 (te_emb_phone self phone) (emb_pitch p))
      | None => Raise (AttributeError "emb_pitch")
      end
  | None => Ok (tadd_scalar (te_emb_phone self phone) 0)
  end.

(** Lines 31-35: from the embedded input to the masked statistics. *)
Definition TextEncoder_encode (self : TextEncoder) (x : Tensor3)
    (lengths : list Z) : Tensor3 * Tensor3 :=
  let x := tmul_scalar x (sqrt (INR (te_hidden_channels self))) in
  let x := transpose12 (leaky_relu (1 / 10) x) in
  let x_mask := unsqueeze1 (sequence_mask lengths (size2 x)) in
  let x := te_encoder self (tmul3 x x_mask) x_mask in
  let stats := tmul3 (te_proj self x) x_mask in
  (stats, x_mask).

(** [TextEncoder.forward(phone, pitch, lengths)].  Line 36 returns the
    pair of [torch.split(...)] (itself a tuple) and [x_mask]: a tuple with
    TWO items. *)
Definition TextEncoder_forward (self : TextEncoder) (phone : Tensor3)
    (pitch : option (list (list Z))) (lengths : list Z) : result (list pyobj) :=
  x ← TextEncoder_embed self phone pitch;
  let '(stats, x_mask) := TextEncoder_encode self x lengths in
  chunks ← split_dim1 (te_out_channels self) stats;
  Ok [PyTuple (map PyTensor chunks); PyTensor x_mask].

End TextEncoderForward.

(** ** [class ResidualCouplingBlock] *)

Section ResidualCouplingBlock.
Context {Flow X : Type}.
(** [flow(x, x_mask, g=g, reverse=reverse)] for a step of the block; the
    step classes live in [infer_pack.modules]. *)
Variable flow_call : Flow -> X -> Tensor3 -> option Tensor3 -> bool -> X.

(** [ResidualCouplingBlock.__init__]: [[layer, flip] * n_flows]. *)
Definition ResidualCouplingBlock_init (layer flip : Flow) (n_flows : nat) : list Flow :=
  concat (repeat [layer; flip] n_flows).

(** [ResidualCouplingBlock.forward]. *)
Definition ResidualCouplingBlock_forward (flows : list Flow) (x : X)
    (x_mask : Tensor3) (g : option Tensor3) (reverse : bool) : X :=
  let flows := if reverse then rev flows else flows in
  fold_left (fun x flow => flow_call flow x x_mask g reverse) flows x.

End ResidualCouplingBlock.

(** A step of the flow as the synthesizer uses it. *)
Record FlowModule : Type := {
  flow_name : string;
  flow_apply : Tensor3 -> Tensor3 -> option Tensor3 -> bool -> Tensor3
}.

(** The same loop with every step replaced by a recorder: the sequence of
    calls [(step, reverse)] that [forward] makes. *)
Definition ResidualCouplingBlock_calls {Flow} (flows : list Flow) (reverse : bool)
  : list (Flow * bool) :=
  ResidualCouplingBlock_forward
    (fun flow log _ _ rev_flag => log ++ [(flow, rev_flag)])
    flows [] [] None reverse.

(** ** [class PosteriorEncoder] (used by the training pass only) *)

Record PosteriorEncoder : Type := {
  pe_out_channels : nat;
  pe_pre : Tensor3 -> Tensor3;
  pe_enc : Tensor3 -> Tensor3 -> option Tensor3 -> Tensor3;
  pe_proj : Tensor3 -> Tensor3
}.

(** ** [class Generator] *)

Record Generator : Type := {
  gn_num_kernels : nat;
  gn_num_upsamples : nat;
  gn_conv_pre : Tensor3 -> Tensor3;
  gn_ups : list (Tensor3 -> Tensor3);
  gn_resblocks : list (Tensor3 -> Tensor3);
  gn_conv_post : Tensor3 -> Tensor3;
  (** the attribute [cond] exists only when [gin_channels != 0] *)
  gn_cond : option (Tensor3 -> Tensor3)
}.

(** [if g is not None: x += self.cond(g)]. *)
Definition add_cond (cond : option (Tensor3 -> Tensor3)) (x : Tensor3)
    (g : option Tensor3) : result Tensor3 :=
  match g with
  | None => Ok x
  | Some g =>
      match cond with
      | Some c => Ok (tadd3 x (c g))
      | None => Raise (AttributeError "cond")
      end
  end.

(** The inner loop over [j in range(num_kernels)]: [x_source] starts as
    [None]; the first block output replaces it, the later ones are added. *)
Definition resblocks_loop (resblocks : list (Tensor3 -> Tensor3))
    (num_kernels i : nat) (x : Tensor3) : result (option Tensor3) :=
  fold_left
    (fun acc j =>
       x_source ← acc;
       rb ← py_index resblocks (i * num_kernels + j);
       Ok (Some (match x_source with
                 | None => rb x
                 | Some s => tadd3 s (rb x)
                 end)))
    (seq 0 num_kernels) (Ok None).

(** [x = x_source / self.num_kernels]; [None / int] is a [TypeError]. *)
Definition average_blocks (x_source : option Tensor3) (num_kernels : nat) : result Tensor3 :=
  match x_source with
  | None => Raise (TypeError "unsupported operand type(s) for /: 'NoneType' and 'int'")
  | Some s => Ok (tdiv_scalar s (INR num_kernels))
  end.

Section GeneratorForward.
Context `{InferPack}.

(** One pass of the loop over [i in range(num_upsamples)]. *)
Definition Generator_stage (self : Generator) (i : nat) (x : Tensor3) : result Tensor3 :=
  let x := leaky_relu LRELU_SLOPE x in
  up ← py_index (gn_ups self) i;
  let x := up x in
  x_source ← resblocks_loop (gn_resblocks self) (gn_num_kernels self) i x;
  average_blocks x_source (gn_num_kernels self).

(** Lines 99-108: everything before the output nonlinearities. *)
Definition Generator_body (self : Generator) (x : Tensor3) (g : option Tensor3)
  : result Tensor3 :=
  x ← add_cond (gn_cond self) (gn_conv_pre self x) g;
  fold_left (fun acc i => x ← acc; Generator_stage self i x)
    (seq 0 (gn_num_upsamples self)) (Ok x).

(** [Generator.forward(x, g)]; [F.leaky_relu(x)] has the default slope
    0.01. *)
Definition Generator_forward (self : Generator) (x : Tensor3) (g : option Tensor3)
  : result Tensor3 :=
  x ← Generator_body self x g;
  let x := leaky_relu (1 / 100) x in
  Ok (map3 tanh (gn_conv_post self x)).

End GeneratorForward.

(** ** [class SourceModuleHnNSF] *)

Record SourceModuleHnNSF : Type := {
  sm_sine_amp : R;
  sm_noise_std : R;
  sm_is_half : bool;
  sm_l_sin_gen : SineGen;
  sm_l_linear : Tensor3 -> Tensor3;
  (** [self.l_linear.weight.dtype] *)
  sm_l_linear_weight_dtype : dtype;
  (** the attribute [ddtype]; [None] while the object has no such
      attribute ([hasattr(self, "ddtype")] is false) *)
  sm_ddtype : option dtype
}.

Definition set_ddtype (self : SourceModuleHnNSF) (d : option dtype) : SourceModuleHnNSF :=
  {| sm_sine_amp := sm_sine_amp self;
     sm_noise_std := sm_noise_std self;
     sm_is_half := sm_is_half self;
     sm_l_sin_gen := sm_l_sin_gen self;
     sm_l_linear := sm_l_linear self;
     sm_l_linear_weight_dtype := sm_l_linear_weight_dtype self;
     sm_ddtype := d |}.

(** The format [self.ddtype] holds once line 174 has run. *)
Definition effective_ddtype (self : SourceModuleHnNSF) : dtype :=
  match sm_ddtype self with
  | Some d => d
  | None => sm_l_linear_weight_dtype self
  end.

Section SourceModuleForward.
Context `{TorchRuntime}.

(** [SourceModuleHnNSF.forward(x, upp)]: the result tuple, the module
    after the call and the generator after the call. *)
Definition SourceModuleHnNSF_forward (self : SourceModuleHnNSF) (x : FloatTensor2)
    (upp : nat) (g : Gen) : result (list pyobj) * SourceModuleHnNSF * Gen :=
  let self := match sm_ddtype self with
              | None => set_ddtype self (Some (sm_l_linear_weight_dtype self))
              | Some _ => self
              end in
  let '(ret, g) := SineGen_forward (sm_l_sin_gen self) (ft_data x) upp g in
  let out :=
    ret ← ret;
    '(sine_wavs, uv, _) ← unpack3 ret;
    sine_wavs ← as_tensor sine_wavs;
    let sine_dtype := promote_float32 (ft_dtype x) in
    let sine_wavs :=
      if decide (sine_dtype = effective_ddtype self) then sine_wavs
      else tensor_to (effective_ddtype self) sine_wavs in
    let sine_merge := map3 tanh (sm_l_linear self sine_wavs) in
    Ok [PyTensor sine_merge; PyNone; PyNone] in
  (out, self, g).

End SourceModuleForward.

(** ** [class GeneratorNSF] *)

Record GeneratorNSF : Type := {
  nsf_num_kernels : nat;
  nsf_num_upsamples : nat;
  nsf_m_source : SourceModuleHnNSF;
  nsf_noise_convs : list (Tensor3 -> Tensor3);
  nsf_conv_pre : Tensor3 -> Tensor3;
  nsf_ups : list (Tensor3 -> Tensor3);
  nsf_resblocks : list (Tensor3 -> Tensor3);
  nsf_conv_post : Tensor3 -> Tensor3;
  nsf_cond : option (Tensor3 -> Tensor3);
  nsf_upp : nat
}.

Definition set_m_source (self : GeneratorNSF) (m : SourceModuleHnNSF) : GeneratorNSF :=
  {| nsf_num_kernels := nsf_num_kernels self;
     nsf_num_upsamples := nsf_num_upsamples self;
     nsf_m_source := m;
     nsf_noise_convs := nsf_noise_convs self;
     nsf_conv_pre := nsf_conv_pre self;
     nsf_ups := nsf_ups self;
     nsf_resblocks := nsf_resblocks self;
     nsf_conv_post := nsf_conv_post self;
     nsf_cond := nsf_cond self;
     nsf_upp := nsf_upp self |}.

Section GeneratorNSFForward.
Context `{TorchRuntime} `{InferPack}.

(** One pass of the loop over [i in range(num_upsamples)]. *)
Definition GeneratorNSF_stage (self : GeneratorNSF) (har_source : Tensor3)
    (i : nat) (x : Tensor3) : result Tensor3 :=
  let x := leaky_relu LRELU_SLOPE x in
  up ← py_index (nsf_ups self) i;
  let x := up x in
  noise_conv ← py_index (nsf_noise_convs self) i;
  let x := tadd3 x (noise_conv har_source) in
  x_source ← resblocks_loop (nsf_resblocks self) (nsf_num_kernels self) i x;
  average_blocks x_source (nsf_num_kernels self).

(** Lines 211-222, given the result of [self.m_source(f0, self.upp)]. *)
Definition GeneratorNSF_body (self : GeneratorNSF) (source : result (list pyobj))
    (x : Tensor3) (g : option Tensor3) : result Tensor3 :=
  ret ← source;
  '(har_source, noi_source, uv) ← unpack3 ret;
  har_source ← as_tensor har_source;
  let har_source := transpose12 har_source in
  x ← add_cond (nsf_cond self) (nsf_conv_pre self x) g;
  fold_left (fun acc i => x ← acc; GeneratorNSF_stage self har_source i x)
    (seq 0 (nsf_num_upsamples self)) (Ok x).

(** [GeneratorNSF.forward(x, f0, g)]: the waveform, the module after the
    call and the generator after the call. *)
Definition GeneratorNSF_forward (self : GeneratorNSF) (x : Tensor3) (f0 : FloatTensor2)
    (g : option Tensor3) (gen : Gen) : result Tensor3 * GeneratorNSF * Gen :=
  let '(source, m_source, gen) :=
    SourceModuleHnNSF_forward (nsf_m_source self) f0 (nsf_upp self) gen in
  let self := set_m_source self m_source in
  let out :=
    x ← GeneratorNSF_body self source x g;
    let x := leaky_relu (1 / 100) x in
    Ok (map3 tanh (nsf_conv_post self x)) in
  (out, self, gen).

End GeneratorNSFForward.

(** ** [class SynthesizerTrnMsNSFsid] *)

Record SynthesizerTrnMsNSFsid : Type := {
  spec_channels : nat;
  segment_size : nat;
  gin_channels : nat;
  spk_embed_dim : nat;
  enc_p : TextEncoder;
  dec : GeneratorNSF;
  enc_q : PosteriorEncoder;
  flow : list FlowModule;
  emb_g : list Z -> Tensor2
}.

Definition set_dec (self : SynthesizerTrnMsNSFsid) (d : GeneratorNSF) : SynthesizerTrnMsNSFsid :=
  {| spec_channels := spec_channels self;
     segment_size := segment_size self;
     gin_channels := gin_channels self;
     spk_embed_dim := spk_embed_dim self;
     enc_p := enc_p self;
     dec := d;
     enc_q := enc_q self;
     flow := flow self;
     emb_g := emb_g self |}.

(** The noise scale of line 273. *)
Definition noise_scale : R := 66666 / 100000.

(** Line 273: [(m_p + exp(logs_p) * noise * 0.66666) * x_mask]. *)
Definition sample_prior (m_p logs_p noise x_mask : Tensor3) : Tensor3 :=
  tmul3 (tadd3 m_p (tmul_scalar (tmul3 (map3 exp logs_p) noise) noise_scale)) x_mask.

(** Line 275: [head = int(z_p.shape[2] * rate)] for a latent of [T]
    frames. *)
Definition truncate_head (T : nat) (rate : number) : result Z :=
  product ← int_mul (Z.of_nat T) rate;
  py_int product.

(** Lines 274-276: the truncation to the last [head] frames. *)
Definition truncate_rate (rate : option number) (z_p x_mask : Tensor3)
    (nsff0 : FloatTensor2) : result (Tensor3 * Tensor3 * FloatTensor2) :=
  match rate with
  | Some r =>
      if py_truthy rate then
        head ← truncate_head (size2 z_p) r;
        Ok (slice_dim2 (- head) z_p,
            slice_dim2 (- head) x_mask,
            {| ft_dtype := ft_dtype nsff0;
               ft_data := slice_dim1 (- head) (ft_data nsff0) |})
      else Ok (z_p, x_mask, nsff0)
  | None => Ok (z_p, x_mask, nsff0)
  end.

Section SynthesizerInfer.
Context `{TorchRuntime} `{InferPack}.

(** Lines 273-278 of [infer], for the three values that line 272 binds. *)
Definition infer_sample_decode (self : SynthesizerTrnMsNSFsid) (g : Tensor3)
    (m_p logs_p x_mask : Tensor3) (nsff0 : FloatTensor2) (rate : option number)
    (gen : Gen)
  : result (list pyobj) * SynthesizerTrnMsNSFsid * Gen :=
  let '(noise, gen) := randn_like m_p gen in
  let z_p := sample_prior m_p logs_p noise x_mask in
  match truncate_rate rate z_p x_mask nsff0 with
  | Raise e => (Raise e, self, gen)
  | Ok (z_p, x_mask, nsff0) =>
      let z := ResidualCouplingBlock_forward
                 (fun fl x x_mask g reverse => flow_apply fl x x_mask g reverse)
                 (flow self) z_p x_mask (Some g) true in
      let '(o, dec', gen) :=
        GeneratorNSF_forward (dec self) (tmul3 z x_mask) nsff0 (Some g) gen in
      let self := set_dec self dec' in
      (o ← o;
       Ok [PyTensor o; PyTensor x_mask;
           PyTuple [PyTensor z; PyTensor z_p; PyTensor m_p; PyTensor logs_p]],
       self, gen)
  end.

(** [SynthesizerTrnMsNSFsid.infer(phone, phone_lengths, pitch, nsff0, sid, rate)].
    Line 272 unpacks the return value of the text encoder into the three
    names [m_p, logs_p, x_mask]. *)
Definition infer (self : SynthesizerTrnMsNSFsid) (phone : Tensor3)
    (phone_lengths : list Z) (pitch : option (list (list Z)))
    (nsff0 : FloatTensor2) (sid : list Z) (rate : option number) (gen : Gen)
  : result (list pyobj) * SynthesizerTrnMsNSFsid * Gen :=
  let g := unsqueeze_last (emb_g self sid) in
  let unpacked :=
    ret ← TextEncoder_forward (enc_p self) phone pitch phone_lengths;
    '(m_p, logs_p, x_mask) ← unpack3 ret;
    m_p ← as_tensor m_p;
    logs_p ← as_tensor logs_p;
    x_mask ← as_tensor x_mask;
    Ok (m_p, logs_p, x_mask) in
  match unpacked with
  | Raise e => (Raise e, self, gen)
  | Ok (m_p, logs_p, x_mask) =>
      infer_sample_decode self g m_p logs_p x_mask nsff0 rate gen
  end.

End SynthesizerInfer.

(** ** [class SynthesizerTrnMsNSFsid_nono] and the class table *)

Section NonoInit.
Context {Args SampleRate Obj : Type}.
(** [SynthesizerTrnMsNSFsid.__init__(self, <18 arguments>, sr, is_half, f0)]. *)
Variable SynthesizerTrnMsNSFsid_init : Args -> SampleRate -> bool -> bool -> result Obj.

(** [SynthesizerTrnMsNSFsid_nono.__init__]: the call
    [super().__init__(<the same 18 arguments>, sr, f0=False)], which leaves
    [is_half] at its default [False]. *)
Definition SynthesizerTrnMsNSFsid_nono_init (args : Args) (sr : SampleRate) : result Obj :=
  SynthesizerTrnMsNSFsid_init args sr false false.

End NonoInit.






(** ** The file system and the network as the helpers see them *)

Module Fs.

(** A path is the list of its components below the root of the tree; a
    file or directory name is one component. *)
Abbreviation path := (list string) (only parsing).

Inductive node : Type :=
| File (data : string)
| Dir.

#[global] Instance node_eq_dec : EqDecision node.
Proof. solve_decision. Defined.

(** The tree: every path that exists, with what it holds.  The root (the
    empty path) always exists. *)
Abbreviation tree := (gmap (list string) node) (only parsing).

Definition exists_ (fs : tree) (p : path) : bool :=
  match p with
  | [] => true
  | _ => bool_decide (is_Some (fs !! p))
  end.

Definition isdir (fs : tree) (p : path) : bool :=
  match p with
  | [] => true
  | _ => bool_decide (fs !! p = Some Dir)
  end.

(** [os.path.dirname] and [os.path.basename]. *)
Definition dirname (p : path) : path := removelast p.
Definition basename (p : path) : string := List.last p EmptyString.

(** [p] lies in the directory [d] (or is [d] itself). *)
Definition under (d p : path) : Prop := d `prefix_of` p.

(** [open(p, 'wb')], writing [data], closing. *)
Definition write_file (p : path) (data : string) (fs : tree) : result tree :=
  if isdir fs p then Raise (OSError "IsADirectoryError")
  else if isdir fs (dirname p) then Ok (<[p := File data]> fs)
  else Raise (OSError "FileNotFoundError").

(** [open(p, 'rb').read()]. *)
Definition read_file (p : path) (fs : tree) : result string :=
  match fs !! p with
  | Some (File data) => Ok data
  | Some Dir => Raise (OSError "IsADirectoryError")
  | None => Raise (OSError "FileNotFoundError")
  end.

(** [os.remove(p)]. *)
Definition remove (p : path) (fs : tree) : result tree :=
  match fs !! p with
  | Some (File _) => Ok (delete p fs)
  | Some Dir => Raise (OSError "IsADirectoryError")
  | None => Raise (OSError "FileNotFoundError")
  end.

(** [os.rename(src, dst)] for a regular file [src]. *)
Definition rename_file (src dst : path) (fs : tree) : result tree :=
  match fs !! src with
  | Some (File data) =>
      if isdir fs dst then Raise (OSError "IsADirectoryError")
      else if isdir fs (dirname dst) then Ok (<[dst := File data]> (delete src fs))
      else Raise (OSError "FileNotFoundError")
  | Some Dir => Raise (OSError "rename of a directory")
  | None => Raise (OSError "FileNotFoundError")
  end.

(** [os.mkdir(p)]. *)
Definition mkdir (p : path) (fs : tree) : result tree :=
  if exists_ fs p then Raise (OSError "FileExistsError")
  else if isdir fs (dirname p) then Ok (<[p := Dir]> fs)
  else Raise (OSError "FileNotFoundError").

(** [shutil.rmtree(d)]. *)
Definition rmtree (d : path) (fs : tree) : tree :=
  filter (fun kv => ¬ under d kv.1) fs.

(** The regular files below [d], with their sizes ([os.walk] together with
    [os.stat(...).st_size]).  The order in which the operating system
    lists a directory is not specified; the model lists in the order of
    the map. *)
Definition walk_files (d : path) (fs : tree) : list (path * nat) :=
  if isdir fs d then
    omap (fun kv : path * node =>
            match kv.2 with
            | File data =>
                if bool_decide (under d kv.1) then Some (kv.1, String.length data) else None
            | Dir => None
            end)
         (map_to_list fs)
  else [].

(** The sub-directories directly inside [d] ([os.listdir] filtered by
    [os.path.isdir]). *)
Definition subdirs (d : path) (fs : tree) : list path :=
  omap (fun kv : path * node =>
          match kv.2 with
          | Dir => if bool_decide (dirname kv.1 = d /\ kv.1 <> []) then Some kv.1 else None
          | File _ => None
          end)
       (map_to_list fs).

(** Python [str] helpers. *)
Definition contains (needle hay : string) : bool :=
  match String.index 0 needle hay with Some _ => true | None => false end.

Definition endswith (s suffix : string) : bool :=
  let n := String.length s in
  let m := String.length suffix in
  Nat.leb m n && String.eqb (String.substring (n - m) m s) suffix.

(** [s.split(sep)] for a non-empty separator. *)
Fixpoint split_fuel (fuel : nat) (sep s : string) : list string :=
  match fuel with
  | O => [s]
  | S fuel' =>
      match String.index 0 sep s with
      | None => [s]
      | Some i =>
          String.substring 0 i s
          :: split_fuel fuel' sep
               (String.substring (i + String.length sep)
                  (String.length s - (i + String.length sep)) s)
      end
  end.
Definition split (s sep : string) : list string :=
  split_fuel (String.length s) sep s.

End Fs.

(** [str(e)] for an exception. *)
Definition exn_str (e : exn) : string :=
  match e with
  | ValueError m | TypeError m | OverflowError m | RuntimeError m | OSError m
  | BadZipFile m | GrError m => m
  | AttributeError a => a
  | NameError n => n
  | KeyError k => k
  | IndexError => "list index out of range"
  end.

(** ** [src/modules/download_hubert.py] *)

Module DownloadHubert.
Import Fs.

(** The paths of this module are constants below [now_dir]
    ([os.getcwd()]), which is the root of the tree here. *)
Definition rvc_models_dir : path := ["rvc_models"].
Definition hubert_base_path : path := rvc_models_dir ++ ["hubert_base.pt"].
Definition tmp_model_path : path := rvc_models_dir ++ ["tmp_model.pt"].

Definition base_url : string :=
  "https://huggingface.co/Politrees/all_RVC-pretrained_and_other/resolve/main/HuBERTs/".

Definition models : gmap string string :=
  list_to_map
    [ ("Стандарт", "hubert_base.pt");
      ("Улучшенный стандарт", "contentvec_base.pt");
      ("Корейский базовый", "korean_hubert_base.pt");
      ("Китайский базовый", "chinese_hubert_base.pt");
      ("Китайский большой", "chinese_hubert_large.pt");
      ("Японский базовый", "japanese_hubert_base.pt");
      ("Японский большой", "japanese_hubert_large.pt") ].

(** What the network does with one request: [urlopen] raises, or the
    response delivers [received] and then either ends (the download is
    complete) or raises. *)
Inductive response : Type :=
| OpenFails (e : exn)
| Body (received : string) (failure : option exn).

(** Lines 29-32, once the download is complete. *)
Definition install_downloaded (fs : tree) : result tree :=
  fs ← (if exists_ fs hubert_base_path then remove hubert_base_path fs else Ok fs);
  rename_file tmp_model_path hubert_base_path fs.

(** [download_and_replace_model(model_desc)]: the returned message or the
    exception, and the file system afterwards. *)
Definition download_and_replace_model (urlopen : string -> response)
    (model_desc : string) (fs : tree) : result string * tree :=
  match models !! model_desc with
  | None => (Raise (KeyError model_desc), fs)
  | Some model_name =>
      let model_url := String.append base_url model_name in
      match urlopen model_url with
      | OpenFails e => (Raise e, fs)
      | Body received failure =>
          match write_file tmp_model_path received fs with
          | Raise e => (Raise e, fs)
          | Ok fs1 =>
              match failure with
              | Some e => (Raise e, fs1)
              | None =>
                  match install_downloaded fs1 with
                  | Raise e => (Raise e, fs1)
                  | Ok fs2 =>
                      (Ok (String.append "Модель "
                             (String.append model_desc " успешно установлена.")),
                       fs2)
                  end
              end
          end
      end
  end.

End DownloadHubert.

(** ** Paths as they are written: [os.path] and [os] *)

Module Os.
Import Fs.

(** A path as the program writes it is the list of the pieces of its
    string between the separators, from the root: [["a"; ".."; "b"]] is
    [/a/../b].  Such a path may hold empty pieces, [.] and [..]; the place
    it leads to depends on the tree. *)

(** The pieces of a string. *)
Fixpoint components_from (cur s : string) : list string :=
  match s with
  | EmptyString => [cur]
  | String c s' =>
      if Ascii.eqb c "/"%char then cur :: components_from EmptyString s'
      else components_from (String.append cur (String c EmptyString)) s'
  end.

Definition components (s : string) : list string := components_from EmptyString s.

Definition path_str (p : list string) : string :=
  String.append "/" (String.concat "/" p).

Definition isabs (s : string) : bool :=
  match s with
  | String c _ => Ascii.eqb c "/"%char
  | EmptyString => false
  end.

(** [os.path.join(a, b)], for a directory [a] written without a trailing
    separator: an absolute [b] replaces [a]. *)
Definition path_join (a : list string) (b : string) : list string :=
  if isabs b then tl (components b) else a ++ components b.

(** [os.path.basename]. *)
Definition path_basename (p : list string) : string := List.last p EmptyString.

(** Trailing separators removed ([rstrip(sep)]); a string of separators
    only is the root. *)
Fixpoint rstrip_sep (p : list string) : list string :=
  match p with
  | [] => []
  | c :: p' =>
      match rstrip_sep p' with
      | [] => if String.eqb c EmptyString then [] else [c]
      | r => c :: r
      end
  end.

(** [os.path.split]: head and tail. *)
Definition path_split (p : list string) : list string * string :=
  (rstrip_sep (removelast p), List.last p EmptyString).

Definition special (c : string) : bool :=
  String.eqb c EmptyString || String.eqb c "." || String.eqb c "..".

Fixpoint no_sep (s : string) : bool :=
  match s with
  | EmptyString => true
  | String c s' => negb (Ascii.eqb c "/"%char) && no_sep s'
  end.

(** A name that is one piece, and neither empty nor [.] nor [..]. *)
Definition plain_name (s : string) : bool := negb (special s) && no_sep s.

(** [os.path.normpath] of an absolute path: a simplification of the text,
    made without looking at the tree. *)
Definition normpath (p : list string) : list string :=
  fold_left
    (fun acc c =>
       if String.eqb c EmptyString || String.eqb c "." then acc
       else if String.eqb c ".." then removelast acc
       else acc ++ [c])
    p [].

(** The place a path leads to, as the operating system finds it: piece by
    piece from the root, each piece looked up in the directory reached so
    far, which has to exist; [..] leads to the parent of that directory
    (the root is its own parent) and [.] to the directory itself.  An
    empty piece (a doubled or trailing separator) is passed over.  The
    last piece need not exist.  There are no symbolic links in the
    model. *)
Fixpoint resolve_from (fs : tree) (cur : path) (raw : list string) : option path :=
  match raw with
  | [] => Some cur
  | c :: rest =>
      if String.eqb c EmptyString then resolve_from fs cur rest
      else if isdir fs cur then
        if String.eqb c ".." then resolve_from fs (dirname cur) rest
        else if String.eqb c "." then resolve_from fs cur rest
        else resolve_from fs (cur ++ [c]) rest
      else None
  end.

Definition resolve_path (fs : tree) (raw : list string) : option path :=
  resolve_from fs [] raw.

(** [os.path.exists] and [os.path.isdir]. *)
Definition path_exists (fs : tree) (raw : list string) : bool :=
  match resolve_path fs raw with
  | Some p => exists_ fs p
  | None => false
  end.

Definition path_isdir (fs : tree) (raw : list string) : bool :=
  match resolve_path fs raw with
  | Some p => isdir fs p
  | None => false
  end.

(** A call of the operating system on a path as written. *)
Definition at_path {A} (raw : list string) (call : path -> tree -> result A)
    (fs : tree) : result A :=
  match resolve_path fs raw with
  | Some p => call p fs
  | None => Raise (OSError "FileNotFoundError")
  end.

Definition is_FileExistsError (e : exn) : bool :=
  match e with
  | OSError m => String.eqb m "FileExistsError"
  | _ => false
  end.

(** [os.makedirs(name, exist_ok=exist_ok)], as the standard library writes
    it: the head of the path is made first when it does not exist (a
    [FileExistsError] from that is passed over), then [mkdir(name)], whose
    failure is passed over when [exist_ok] holds and [name] is a
    directory.  What was made before an exception stays made. *)

(** [head, tail = path.split(name)], once more when the tail is empty. *)
Definition makedirs_split (name : list string) : list string * string :=
  let ht := path_split name in
  if String.eqb ht.2 EmptyString then path_split ht.1 else ht.

(** [try: mkdir(name)  except OSError: if not exist_ok or not
    path.isdir(name): raise]. *)
Definition mkdir_exist_ok (exist_ok : bool) (name : list string) (fs : tree)
    : result unit * tree :=
  match at_path name mkdir fs with
  | Ok fs' => (Ok tt, fs')
  | Raise e => if exist_ok && path_isdir fs name then (Ok tt, fs) else (Raise e, fs)
  end.

(** The head of an absolute path is never the empty string, and it is
    shorter than [name], so [length name] nested calls suffice. *)
Fixpoint makedirs_fuel (fuel : nat) (exist_ok : bool) (name : list string)
    (fs : tree) : result unit * tree :=
  let head := (makedirs_split name).1 in
  let tail := (makedirs_split name).2 in
  if negb (String.eqb tail EmptyString) && negb (path_exists fs head) then
    match fuel with
    | O => (Raise (RuntimeError "maximum recursion depth exceeded"), fs)
    | S fuel' =>
        let made := makedirs_fuel fuel' exist_ok head fs in
        let passed := match made.1 with
                      | Ok _ => true
                      | Raise e => is_FileExistsError e
                      end in
        if passed then
          if String.eqb tail "." then (Ok tt, made.2)
          else mkdir_exist_ok exist_ok name made.2
        else made
    end
  else mkdir_exist_ok exist_ok name fs.

Definition makedirs (exist_ok : bool) (name : list string) (fs : tree) : result unit * tree :=
  makedirs_fuel (length name) exist_ok name fs.

(** [os.path.samefile(a, b)], [False] when a [stat] fails. *)
Definition samefile (fs : tree) (a b : list string) : bool :=
  match resolve_path fs a, resolve_path fs b with
  | Some p, Some q => bool_decide (p = q) && exists_ fs p
  | _, _ => false
  end.

(** [os.walk(top)] with the sizes of the files: nothing when [top] cannot
    be listed.  The files found are named by their places in the tree. *)
Definition walk (top : list string) (fs : tree) : list (path * nat) :=
  match resolve_path fs top with
  | Some d => walk_files d fs
  | None => []
  end.

(** The entries of [os.listdir(d)] that are directories, named by their
    places in the tree. *)
Definition listdir_dirs (d : list string) (fs : tree) : result (list path) :=
  at_path d (fun p fs => if isdir fs p then Ok (subdirs p fs)
                         else Raise (OSError "NotADirectoryError")) fs.

End Os.

(** ** [rvc/modules/model_management.py] *)

Module ModelManagement.
Import Fs Os.

(** A call of the progress callback of the user interface. *)
Inductive event : Type :=
| Progress (fraction : Q) (desc : string).

(** What the helpers act on: the file system and the user interface. *)
Record world : Type := {
  w_fs : tree;
  w_log : list event
}.

(** A computation that may raise and that acts on the world; what it did
    before raising stays done. *)
Definition M (A : Type) : Type := world -> result A * world.

#[global] Instance M_ret : MRet M := fun _ a w => (Ok a, w).
#[global] Instance M_bind : MBind M := fun _ _ f c w =>
  match c w with
  | (Ok a, w') => f a w'
  | (Raise e, w') => (Raise e, w')
  end.

Definition raise {A} (e : exn) : M A := fun w => (Raise e, w).

Definition lift_result {A} (r : result A) : M A := fun w => (r, w).

(** A file-system call: on an exception nothing has changed. *)
Definition lift_fs (f : tree -> result tree) : M unit := fun w =>
  match f (w_fs w) with
  | Ok fs' => (Ok tt, {| w_fs := fs'; w_log := w_log w |})
  | Raise e => (Raise e, w)
  end.

(** A file-system routine that may have changed the tree before it
    raises. *)
Definition lift_st (f : tree -> result unit * tree) : M unit := fun w =>
  ((f (w_fs w)).1, {| w_fs := (f (w_fs w)).2; w_log := w_log w |}).

Definition get_fs : M tree := fun w => (Ok (w_fs w), w).

Definition progress (fraction : Q) (desc : string) : M unit := fun w =>
  (Ok tt, {| w_fs := w_fs w; w_log := w_log w ++ [Progress fraction desc] |}).

(** [try: body  except Exception as e: raise gr.Error(str(e))]. *)
Definition reraise_as_gr_error {A} (body : M A) : M A := fun w =>
  match body w with
  | (Raise e, w') => (Raise (GrError (exn_str e)), w')
  | r => r
  end.

(** [for x in l: body(x)]. *)
Fixpoint for_each {A} (l : list A) (body : A -> M unit) : M unit :=
  match l with
  | [] => mret tt
  | x :: l' => body x ≫= fun _ => for_each l' body
  end.

(** What a download delivers: the bytes that end up in the target file, or
    an exception. *)
Inductive fetched : Type :=
| Fetched (data : string)
| FetchFailed (e : exn).

(** The answer to [requests.get]: [response.status_code],
    [response.content] and [response.json().get('href')], which raises
    when the body is no JSON. *)
Record response : Type := {
  status_code : nat;
  content : string;
  json_href : result (option string)
}.

(** The environment: the working directory at import ([os.getcwd()]), the
    download libraries, and the reader of zip archives (the members of an
    archive, each with its name and its content, or [None] for a file that
    is no archive). *)
Class Services : Type := {
  getcwd : list string;
  gdown_download : string -> fetched;
  urlretrieve : string -> fetched;
  requests_get : string -> result response;
  mega_download_url : string -> fetched;
  zip_members : string -> option (list (string * string))
}.

Section Operations.
Context `{Services}.

Definition rvc_models_dir : list string := getcwd ++ ["models"; "rvc_models"].

(** [open(target, 'wb')], writing [data], closing. *)
Definition open_write (target : list string) (data : string) : M unit :=
  lift_fs (at_path target (fun p => write_file p data)).

Definition save (f : fetched) (target : list string) : M unit :=
  match f with
  | Fetched data => open_write target data
  | FetchFailed e => raise e
  end.

(** [ZipFile._extract_member(member, path, pwd)]: the name of the member
    loses its empty, [.] and [..] pieces, the target is normalised as a
    text, its directory is made when it does not exist, and the member
    (a directory when its name ends with the separator) is written. *)
Definition extract_member (path : list string) (member : string * string) : M unit :=
  let arcname := List.filter (fun x => negb (special x)) (components member.1) in
  let targetpath := normpath (path ++ arcname) in
  let upperdirs := dirname targetpath in
  fs ← get_fs;
  (if path_exists fs upperdirs then mret tt else lift_st (makedirs false upperdirs)) ≫= fun _ =>
  if endswith member.1 "/" then
    fs ← get_fs;
    if path_isdir fs targetpath then mret tt else lift_fs (at_path targetpath mkdir)
  else open_write targetpath member.2.

Definition pick_files (files : list (path * nat)) : option path * option path :=
  fold_left
    (fun (acc : option path * option path) (f : path * nat) =>
       let name := basename f.1 in
       let index_filepath :=
         if endswith name ".index" && Nat.ltb (1024 * 100) f.2
         then Some f.1 else acc.1 in
       let model_filepath :=
         if endswith name ".pth" && Nat.ltb (1024 * 1024 * 40) f.2
         then Some f.1 else acc.2 in
       (index_filepath, model_filepath))
    files (None, None).

(** [extract_zip(extraction_folder, zip_name)]. *)
Definition extract_zip (extraction_folder zip_name : list string) : M unit :=
  lift_st (makedirs true extraction_folder) ≫= fun _ =>
  fs ← get_fs;
  data ← lift_result (at_path zip_name read_file fs);
  members ← match zip_members data with
            | Some ms => mret ms
            | None => raise (BadZipFile "File is not a zip file")
            end;
  for_each members (extract_member extraction_folder) ≫= fun _ =>
  lift_fs (at_path zip_name remove) ≫= fun _ =>
  fs ← get_fs;
  let '(index_filepath, model_filepath) := pick_files (walk extraction_folder fs) in
  match model_filepath with
  | None =>
      raise (GrError
               (String.append
                  "Не найден файл модели .pth в распакованном zip-файле. Пожалуйста, проверьте "
                  (String.append (path_str extraction_folder) ".")))
  | Some model_filepath =>
      lift_fs (at_path (extraction_folder ++ [basename model_filepath])
                 (rename_file model_filepath)) ≫= fun _ =>
      match index_filepath with
      | Some index_filepath =>
          lift_fs (at_path (extraction_folder ++ [basename index_filepath])
                     (rename_file index_filepath))
      | None => mret tt
      end ≫= fun _ =>
      fs ← get_fs;
      dirs ← lift_result (listdir_dirs extraction_folder fs);
      for_each dirs (fun d => lift_fs (fun fs => Ok (rmtree d fs)))
  end.

(** [download_file(url, zip_name, progress)]. *)
Definition download_file (url : string) (zip_name : list string) : M unit :=
  if contains "drive.google.com" url then
    progress 0.5 "[~] Загрузка модели с Google Drive..." ≫= fun _ =>
    file_id ← lift_result
      (if contains "file/d/" url
       then s ← py_index (split url "file/d/") 1; py_index (split s "/") 0
       else s ← py_index (split url "id=") 1; py_index (split s "&") 0);
    save (gdown_download file_id) zip_name
  else if contains "huggingface.co" url then
    progress 0.5 "[~] Загрузка модели с HuggingFace..." ≫= fun _ =>
    save (urlretrieve url) zip_name
  else if contains "pixeldrain.com" url then
    progress 0.5 "[~] Загрузка модели с Pixeldrain..." ≫= fun _ =>
    file_id ← lift_result (py_index (split url "pixeldrain.com/u/") 1);
    response ← lift_result
      (requests_get (String.append "https://pixeldrain.com/api/file/" file_id));
    open_write zip_name (content response)
  else if contains "mega.nz" url then
    progress 0.5 "[~] Загрузка модели с Mega..." ≫= fun _ =>
    save (mega_download_url url) zip_name
  else if contains "yadi.sk" url || contains "disk.yandex.ru" url then
    progress 0.5 "[~] Загрузка модели с Яндекс Диска..." ≫= fun _ =>
    response ← lift_result
      (requests_get
         (String.append
            "https://cloud-api.yandex.net/v1/disk/public/resources/download?public_key="
            url));
    if Nat.eqb (status_code response) 200 then
      download_link ← lift_result (json_href response);
      match download_link with
      | Some download_link => save (urlretrieve download_link) zip_name
      | None => raise (TypeError "expected string or bytes-like object, got 'NoneType'")
      end
    else raise (GrError
                  (String.append
                     "Ошибка при получении ссылки на скачивание с Яндекс Диск: "
                     (pretty (status_code response))))
  else mret tt.

Definition already_exists (dir_name : string) : string :=
  String.append "Директория голосовой модели "
    (String.append dir_name
       " уже существует! Выберите другое имя для вашей голосовой модели.").

Definition loaded (dir_name : string) : string :=
  String.append "[+] Модель " (String.append dir_name " успешно загружена!").

(** [download_from_url(url, dir_name, progress)]. *)
Definition download_from_url (url dir_name : string) : M string :=
  reraise_as_gr_error
    (progress 0 (String.append "[~] Загрузка голосовой модели с именем "
                   (String.append dir_name "...")) ≫= fun _ =>
     let zip_name := path_join rvc_models_dir (String.append dir_name ".zip") in
     let extraction_folder := path_join rvc_models_dir dir_name in
     fs ← get_fs;
     if path_exists fs extraction_folder then raise (GrError (already_exists dir_name))
     else
       download_file url zip_name ≫= fun _ =>
       progress 0.8 "[~] Распаковка zip-файла..." ≫= fun _ =>
       extract_zip extraction_folder zip_name ≫= fun _ =>
       mret (loaded dir_name)).

(** [upload_zip_model(zip_path, dir_name, progress)]; the uploaded archive
    is given by its path ([zip_path.name]), [None] when no file was
    uploaded. *)
Definition upload_zip_model (zip_path : option (list string)) (dir_name : string) : M string :=
  reraise_as_gr_error
    (let extraction_folder := path_join rvc_models_dir dir_name in
     fs ← get_fs;
     if path_exists fs extraction_folder then raise (GrError (already_exists dir_name))
     else
       zip_name ← match zip_path with
                  | Some name => mret name
                  | None => raise (AttributeError "name")
                  end;
       progress 0.8 "[~] Распаковка zip-файла..." ≫= fun _ =>
       extract_zip extraction_folder zip_name ≫= fun _ =>
       mret (loaded dir_name)).

(** [shutil.copyfile(src, dst)]. *)
Definition copyfile (src dst : list string) : M unit :=
  fs ← get_fs;
  if samefile fs src dst then raise (OSError "SameFileError")
  else
    data ← lift_result (at_path src read_file fs);
    open_write dst data.

(** [upload_separate_files(pth_file, index_file, dir_name, progress)]; an
    uploaded file is given by its path ([pth_file.name]), [None] when no
    file was uploaded. *)
Definition upload_separate_files (pth_file index_file : option (list string))
    (dir_name : string) : M string :=
  reraise_as_gr_error
    (let extraction_folder := path_join rvc_models_dir dir_name in
     fs ← get_fs;
     if path_exists fs extraction_folder then raise (GrError (already_exists dir_name))
     else
       lift_st (makedirs true extraction_folder) ≫= fun _ =>
       match pth_file with
       | Some pth => copyfile pth (extraction_folder ++ [path_basename pth])
       | None => mret tt
       end ≫= fun _ =>
       match index_file with
       | Some index => copyfile index (extraction_folder ++ [path_basename index])
       | None => mret tt
       end ≫= fun _ =>
       mret (loaded dir_name)).

End Operations.

(** *** Notions used in the statements *)

(** [p] is the folder, lies inside it, or is one of the directories on the
    way to it. *)
Definition on_the_way (folder p : path) : Prop :=
  under folder p \/ p `prefix_of` folder.

(** The path [raw] can lead to the place [p]. *)
Definition leads_to (raw : list string) (p : path) : Prop :=
  exists fs, resolve_path fs raw = Some p.

(** From [fs] to [fs'], every place outside [F] holds what it held, except
    possibly the places in [Z], and those only if they were no
    directories. *)
Definition kept_outside (F Z : path -> Prop) (fs fs' : tree) : Prop :=
  forall p, ~ F p -> fs' !! p = fs !! p \/ (Z p /\ fs !! p <> Some Dir).

(** The computation [c] changes the file system only in that way. *)
Definition keeps {A} (F Z : path -> Prop) (c : M A) : Prop :=
  forall w, kept_outside F Z (w_fs w) (w_fs (c w).2).

(** Every entry of the tree lies in a directory of the tree. *)
Definition well_formed (fs : tree) : bool :=
  forallb (fun kv : path * node => isdir fs (dirname kv.1)) (map_to_list fs).

(** The pieces are names: none is empty, [.] or [..]. *)
Definition plain_path (p : list string) : bool :=
  forallb (fun c => negb (special c)) p.

End ModelManagement.

(** ** Concrete instances, to run the definitions on explicit inputs *)

Module Example.

(** A generator that counts its draws. *)
Definition runtime : TorchRuntime :=
  {| Gen := nat;
     rand_next := fun n => (INR n / INR (n + 2), S n);
     randn_next := fun n => (INR n, S n);
     cast := fun _ v => v |}.

(** The mask of [commons.sequence_mask] as the specification describes it
    (frame [t] of entry [b] is valid when [t < lengths[b]]). *)
Definition pack : InferPack :=
  {| sequence_mask := fun lengths max_len =>
       map (fun l => map (fun t => if (Z.of_nat t <? l)%Z then 1 else 0) (seq 0 max_len))
           lengths;
     LRELU_SLOPE := 1 / 10 |}.

(** A text encoder with one hidden channel: the embedding is the identity,
    the attention stack has no layer, the projection repeats its channel
    (so that the statistics have [2 * out_channels] channels). *)
Definition text_encoder (f0 : bool) : TextEncoder :=
  TextEncoder_init 1 1
    (fun phone => phone)
    (fun pitch => map (map (fun p => [IZR p])) pitch)
    (fun x x_mask => tmul3 x x_mask)
    (fun x => map (fun xb => xb ++ xb) x)
    f0.

Definition sine_gen : SineGen := SineGen_init 40000 0 (1 / 10) (3 / 1000) 0.

Definition source (ddtype : option dtype) : SourceModuleHnNSF :=
  {| sm_sine_amp := 1 / 10;
     sm_noise_std := 3 / 1000;
     sm_is_half := false;
     sm_l_sin_gen := sine_gen;
     sm_l_linear := fun x => x;
     sm_l_linear_weight_dtype := float32;
     sm_ddtype := ddtype |}.

(** A vocoder with one upsampling stage of factor 1 and two residual
    blocks. *)
Definition generator_nsf (ddtype : option dtype) : GeneratorNSF :=
  {| nsf_num_kernels := 2;
     nsf_num_upsamples := 1;
     nsf_m_source := source ddtype;
     nsf_noise_convs := [fun har => har];
     nsf_conv_pre := fun x => x;
     nsf_ups := [fun x => x];
     nsf_resblocks := [fun x => x; fun x => tmul_scalar x 3];
     nsf_conv_post := fun x => x;
     nsf_cond := Some (fun g => g);
     nsf_upp := 1 |}.

Definition generator : Generator :=
  {| gn_num_kernels := 2;
     gn_num_upsamples := 1;
     gn_conv_pre := fun x => x;
     gn_ups := [fun x => x];
     gn_resblocks := [fun x => x; fun x => tmul_scalar x 3];
     gn_conv_post := fun x => x;
     gn_cond := None |}.

Definition coupling : FlowModule :=
  {| flow_name := "ResidualCouplingLayer";
     flow_apply := fun x x_mask g reverse =>
       if reverse then tmul3 (tadd_scalar x (-1)) x_mask
       else tmul3 (tadd_scalar x 1) x_mask |}.
Definition flip : FlowModule :=
  {| flow_name := "Flip";
     flow_apply := fun x x_mask g reverse => map (@rev _) x |}.

Definition posterior : PosteriorEncoder :=
  {| pe_out_channels := 1;
     pe_pre := fun x => x;
     pe_enc := fun x x_mask g => x;
     pe_proj := fun x => map (fun xb => xb ++ xb) x |}.

Definition synthesizer (f0 : bool) (ddtype : option dtype) : SynthesizerTrnMsNSFsid :=
  {| spec_channels := 1;
     segment_size := 1;
     gin_channels := 1;
     spk_embed_dim := 1;
     enc_p := text_encoder f0;
     dec := generator_nsf ddtype;
     enc_q := posterior;
     flow := ResidualCouplingBlock_init coupling flip 4;
     emb_g := fun sid => map (fun _ => [0]) sid |}.

(** One utterance of three frames. *)
Definition phone : Tensor3 := [[[1]; [2]; [3]]].
Definition phone_lengths : list Z := [3%Z].
Definition nsff0 : FloatTensor2 :=
  {| ft_dtype := float32; ft_data := [[220; 0; 220]] |}.
Definition sid : list Z := [0%Z].

(** The rates 0.25 (that is [2^52 * 2^-54]) and 0.29 (the binary64 number
    nearest to 29/100, [5224175567749775 * 2^-54]) and the rate -0.5. *)
Definition rate_025 : number := Float (S754_finite false 4503599627370496%positive (-54)%Z).
Definition rate_029 : number := Float (S754_finite false 5224175567749775%positive (-54)%Z).
Definition rate_minus_half : number :=
  Float (S754_finite true 4503599627370496%positive (-53)%Z).

End Example.

(** An installation with one voice model, [victim], and an uploaded
    checkpoint; every download delivers an archive with one small file. *)
Module ExampleModels.
Import Fs Os ModelManagement.

Definition services : Services := {|
  getcwd := ["app"];
  gdown_download := fun _ => Fetched "archive";
  urlretrieve := fun _ => Fetched "archive";
  requests_get := fun _ => Raise (OSError "ConnectionError");
  mega_download_url := fun _ => Fetched "archive";
  zip_members := fun _ => Some [("model.pth", "weights")]
|}.

Definition models_dir : list string := ["app"; "models"; "rvc_models"].

Definition victim_model : list string := models_dir ++ ["victim"; "model.pth"].

Definition uploaded : list string := ["tmp"; "gradio"; "model.pth"].

Definition installed : gmap (list string) node :=
  list_to_map
    [ (["app"], Dir);
      (["app"; "models"], Dir);
      (models_dir, Dir);
      (models_dir ++ ["victim"], Dir);
      (victim_model, File "old weights");
      (["tmp"], Dir);
      (["tmp"; "gradio"], Dir);
      (uploaded, File "new weights") ].

Definition world0 : world := {| w_fs := installed; w_log := [] |}.

End ExampleModels.

(** ** Notions used in the statements *)

(** The list, matrix and tensor with given entries. *)
Definition tab1 {A} (n : nat) (F : nat -> A) : list A := map F (seq 0 n).
Definition tab2 {A} (B T : nat) (F : nat -> nat -> A) : list (list A) :=
  tab1 B (fun b => tab1 T (F b)).
Definition tab3 {A} (B C T : nat) (F : nat -> nat -> nat -> A) : list (list (list A)) :=
  tab1 B (fun b => tab2 C T (F b)).

(** With phase increments [Rad b t h] for [T] frames: the entries of
    [tmp_over_one] and of [cumsum_shift] at output sample [l]. *)
Definition tmp_entry (upp T : nat) (Rad : nat -> nat -> nat -> R) (b l h : nat) : R :=
  frac_part
    (nth l (interpolate_linear upp
              (tab1 T (fun t => sum_f_R0 (fun k => Rad b k h) t * INR upp))) 0).

Definition shift_entry (upp T : nat) (Rad : nat -> nat -> nat -> R) (b l h : nat) : R :=
  if Nat.eqb l 0 then 0
  else (if Rlt_dec (tmp_entry upp T Rad b l h - tmp_entry upp T Rad b (l - 1) h) 0
        then 1 else 0) * -1.

Section Draws.
Context `{TorchRuntime}.

(** The generator after [k] draws, and the value of draw number [k]
    (counted from 0). *)
Fixpoint advance (next : Gen -> R * Gen) (k : nat) (g : Gen) : Gen :=
  match k with
  | O => g
  | S k' => advance next k' (next g).2
  end.
Definition nth_draw (next : Gen -> R * Gen) (k : nat) (g : Gen) : R :=
  (next (advance next k g)).1.

End Draws.

Section StatementNotions.
Context `{TorchRuntime} `{InferPack}.

(** The exception [infer] ends with. *)
Definition infer_exception (self : SynthesizerTrnMsNSFsid) (phone : Tensor3)
    (phone_lengths : list Z) (pitch : option (list (list Z))) : exn :=
  match TextEncoder_forward (enc_p self) phone pitch phone_lengths with
  | Ok _ => ValueError "not enough values to unpack (expected 3, got 2)"
  | Raise e => e
  end.

End StatementNotions.

(** Every entry of [y] lies in [-1, 1]. *)
Definition in_unit_range (y : Tensor3) : Prop :=
  Forall (Forall (Forall (fun v => -1 <= v <= 1))) y.

(** The residual blocks of upsampling stage [i]. *)
Definition stage_blocks (resblocks : list (Tensor3 -> Tensor3)) (num_kernels i : nat)
  : list (Tensor3 -> Tensor3) :=
  firstn num_kernels (skipn (i * num_kernels) resblocks).

(** The sum of the outputs of the given blocks on [x]; there is no sum of
    no block. *)
Definition blocks_sum (blocks : list (Tensor3 -> Tensor3)) (x : Tensor3) : option Tensor3 :=
  match blocks with
  | [] => None
  | rb :: rest => Some (fold_left (fun s rb' => tadd3 s (rb' x)) rest (rb x))
  end.

(** The attributes of a generator fit together as its constructor makes
    them: one upsampling layer per stage, [num_kernels] residual blocks
    per stage, and at least one kernel when there is a stage. *)
Definition Generator_fits (self : Generator) : Prop :=
  (gn_num_upsamples self <= length (gn_ups self))%nat
  /\ (gn_num_upsamples self * gn_num_kernels self <= length (gn_resblocks self))%nat
  /\ (gn_num_upsamples self = 0 \/ 1 <= gn_num_kernels self)%nat.


(** ** More of [rvc/modules/model_management.py]: the list of models *)

Module ModelFolders.
Import Fs Os ModelManagement.

(** [os.listdir(d)]: the names of the entries of the directory [d]. *)
Definition listdir (d : list string) (fs : tree) : result (list string) :=
  at_path d
    (fun p fs =>
       if isdir fs p then
         Ok (omap (fun kv : path * node =>
                     if bool_decide (dirname kv.1 = p /\ kv.1 <> [])
                     then Some (basename kv.1) else None)
                  (map_to_list fs))
       else Raise (OSError "NotADirectoryError"))
    fs.

(** [get_folders(models_dir)]. *)
Definition get_folders (models_dir : list string) (fs : tree) : result (list string) :=
  items ← listdir models_dir fs;
  Ok (filter (fun item => path_isdir fs (models_dir ++ [item]) = true) items).

(** [gr.update(choices=...)]. *)
Inductive gr_update : Type :=
| GrUpdate (choices : list string).

(** [update_models_list()]. *)
Definition update_models_list `{Services} (fs : tree) : result gr_update :=
  models_folders ← get_folders rvc_models_dir fs;
  Ok (GrUpdate models_folders).

(** *** Notions used in the statements *)

(** From [fs] to [fs'] every directory stays a directory. *)
Definition dirs_kept (fs fs' : tree) : Prop :=
  forall p, fs !! p = Some Dir -> fs' !! p = Some Dir.

(** The computation [c] takes a tree to a tree related by [R], whatever
    its outcome. *)
Definition preserves {A : Type} (R : tree -> tree -> Prop) (c : M A) : Prop :=
  forall w, R (w_fs w) (w_fs (c w).2).

(** The file of [files] that [pick_files] takes for a suffix and a size
    bound: the last one whose name ends with the suffix and whose size
    exceeds the bound. *)
Definition qualifies (suffix : string) (bound : nat) (f : path * nat) : bool :=
  endswith (basename f.1) suffix && Nat.ltb bound f.2.

Definition last_qualifying (suffix : string) (bound : nat) (files : list (path * nat))
  : option path :=
  match List.filter (qualifies suffix bound) files with
  | [] => None
  | f :: rest => Some (List.last rest f).1
  end.

(** The message of [extract_zip] for an archive without a model file. *)
Definition model_not_found (extraction_folder : list string) : string :=
  String.append
    "Не найден файл модели .pth в распакованном zip-файле. Пожалуйста, проверьте "
    (String.append (path_str extraction_folder) ".").

(** The name a member of an archive is extracted under. *)
Definition arcname (member_name : string) : list string :=
  List.filter (fun x => negb (special x)) (components member_name).

(** The URL names none of the services that [download_file] knows. *)
Definition unsupported_url (url : string) : bool :=
  negb (contains "drive.google.com" url || contains "huggingface.co" url
        || contains "pixeldrain.com" url || contains "mega.nz" url
        || contains "yadi.sk" url || contains "disk.yandex.ru" url).

(** The URL names Google Drive without a file id, or Pixeldrain without
    the [/u/] of a file. *)
Definition malformed_link (url : string) : bool :=
  if contains "drive.google.com" url
  then negb (contains "file/d/" url) && negb (contains "id=" url)
  else negb (contains "huggingface.co" url) && contains "pixeldrain.com" url
       && negb (contains "pixeldrain.com/u/" url).

(** The URL is handled by the Yandex Disk branch of [download_file]: it
    names none of the services that are tried before. *)
Definition yandex_link (url : string) : bool :=
  negb (contains "drive.google.com" url) && negb (contains "huggingface.co" url)
  && negb (contains "pixeldrain.com" url) && negb (contains "mega.nz" url)
  && (contains "yadi.sk" url || contains "disk.yandex.ru" url).

(** The request that the Yandex Disk branch makes for a public link. *)
Definition yandex_api_url (url : string) : string :=
  String.append
    "https://cloud-api.yandex.net/v1/disk/public/resources/download?public_key=" url.

(** From [fs] to [fs'] every entry holds what it held. *)
Definition entries_kept (fs fs' : tree) : Prop :=
  forall p n, fs !! p = Some n -> fs' !! p = Some n.

Definition is_GrError (e : exn) : bool :=
  match e with
  | GrError _ => true
  | _ => false
  end.

(** The computation [c] keeps every directory and raises no [gr.Error]. *)
Definition tame {A : Type} (c : M A) : Prop :=
  forall w, dirs_kept (w_fs w) (w_fs (c w).2)
            /\ forall e, (c w).1 = Raise e -> is_GrError e = false.

End ModelFolders.

(** An installation as in [ExampleModels], with an uploaded archive. *)
Module ExampleUploads.
Import Fs Os ModelManagement.

Definition archive : list string := ["tmp"; "gradio"; "voice.zip"].

Definition tree0 : gmap (list string) node :=
  <[archive := File "archive"]> ExampleModels.installed.

Definition world0 : world := {| w_fs := tree0; w_log := [] |}.

End ExampleUploads.

(** ** More of [src/infer_pack/models.py] *)

(** *** Statement notions for lines 274-276 of [infer] *)

(** The number of frames that [l[-head:]] keeps of [T] frames: the last
    [head] ones for a positive [head] (all of them when [head > T]), and
    all but the first [-head] ones otherwise. *)
Definition kept_frames (T : nat) (head : Z) : nat :=
  if (0 <? head)%Z then Nat.min (Z.to_nat head) T else (T - Z.to_nat (- head))%nat.

(** *** [ResidualCouplingBlock.remove_weight_norm] *)

(** [l[::2]]. *)
Fixpoint every_second {A} (l : list A) : list A :=
  match l with
  | [] => []
  | [a] => [a]
  | a :: _ :: l' => a :: every_second l'
  end.

(** The two objects that [ResidualCouplingBlock.__init__] makes; the list
    [self.flows] holds references to them. *)
Inductive step_ref : Type := TheLayer | TheFlip.

Section RemoveWeightNorm.
(** The state of the coupling layer, and its method [remove_weight_norm]. *)
Context {Layer : Type}.
Variable layer_remove_weight_norm : Layer -> result Layer.

(** [flow.remove_weight_norm()]: [modules.Flip] has no such method. *)
Definition step_remove_weight_norm (flow : step_ref) (layer : Layer) : result Layer :=
  match flow with
  | TheLayer => layer_remove_weight_norm layer
  | TheFlip => Raise (AttributeError "remove_weight_norm")
  end.

(** [ResidualCouplingBlock.remove_weight_norm]: the outcome and the state
    of the layer after the call (what was done before an exception stays
    done). *)
Definition ResidualCouplingBlock_remove_weight_norm (flows : list step_ref)
    (layer : Layer) : result unit * Layer :=
  fold_left
    (fun (acc : result unit * Layer) flow =>
       match acc.1 with
       | Raise _ => acc
       | Ok _ =>
           match step_remove_weight_norm flow acc.2 with
           | Ok layer' => (Ok tt, layer')
           | Raise e => (Raise e, acc.2)
           end
       end)
    (every_second flows) (Ok tt, layer).

(** [n] calls of the method on the same object, up to the first that
    raises. *)
Fixpoint repeated_removal (n : nat) (layer : Layer) : result unit * Layer :=
  match n with
  | O => (Ok tt, layer)
  | S n' =>
      match layer_remove_weight_norm layer with
      | Ok layer' => repeated_removal n' layer'
      | Raise e => (Raise e, layer)
      end
  end.

End RemoveWeightNorm.

(** *** [Generator.__init__] *)

Section GeneratorInit.
(** The layer classes, by the function that a new layer computes:
    [Conv1d(in, out, kernel_size, stride, padding=, bias=)],
    [weight_norm(ConvTranspose1d(in, out, kernel_size, stride, padding=))]
    after [init_weights], and the residual block class that is passed as
    [resblock]. *)
Variable Conv1d : Z -> Z -> Z -> Z -> Z -> bool -> Tensor3 -> Tensor3.
Variable ConvTranspose1d : Z -> Z -> Z -> Z -> Z -> Tensor3 -> Tensor3.
Variable resblock : Z -> Z -> list Z -> Tensor3 -> Tensor3.

(** [enumerate(l)]. *)
Definition enumerate {A} (l : list A) : list (nat * A) := zip (seq 0 (length l)) l.

(** [upsample_initial_channel // (2**k)]. *)
Definition channels_at (upsample_initial_channel : Z) (k : nat) : Z :=
  (upsample_initial_channel / 2 ^ Z.of_nat k)%Z.

(** Lines 84-87. *)
Definition Generator_init_ups (upsample_rates upsample_kernel_sizes : list Z)
    (upsample_initial_channel : Z) : list (Tensor3 -> Tensor3) :=
  map (fun '(i, (u, k)) =>
         ConvTranspose1d (channels_at upsample_initial_channel i)
           (channels_at upsample_initial_channel (i + 1)) k u ((k - u) / 2)%Z)
      (enumerate (zip upsample_rates upsample_kernel_sizes)).

(** Lines 88-92: the comprehension with two [for] clauses. *)
Definition Generator_init_resblocks (n_ups : nat)
    (resblock_kernel_sizes : list Z) (resblock_dilation_sizes : list (list Z))
    (upsample_initial_channel : Z) : list (Tensor3 -> Tensor3) :=
  flat_map (fun i =>
              map (fun '(k, d) => resblock (channels_at upsample_initial_channel (i + 1)) k d)
                  (zip resblock_kernel_sizes resblock_dilation_sizes))
           (seq 0 n_ups).

(** [Generator.__init__]. *)
Definition Generator_init (initial_channel : Z)
    (resblock_kernel_sizes : list Z) (resblock_dilation_sizes : list (list Z))
    (upsample_rates : list Z) (upsample_initial_channel : Z)
    (upsample_kernel_sizes : list Z) (gin_channels : Z) : Generator :=
  let ups := Generator_init_ups upsample_rates upsample_kernel_sizes
               upsample_initial_channel in
  {| gn_num_kernels := length resblock_kernel_sizes;
     gn_num_upsamples := length upsample_rates;
     gn_conv_pre := Conv1d initial_channel upsample_initial_channel 7 1 3 true;
     gn_ups := ups;
     gn_resblocks := Generator_init_resblocks (length ups) resblock_kernel_sizes
                       resblock_dilation_sizes upsample_initial_channel;
     gn_conv_post := Conv1d (channels_at upsample_initial_channel (length upsample_rates))
                       1 7 1 3 false;
     gn_cond := if (gin_channels =? 0)%Z then None
                else Some (Conv1d gin_channels upsample_initial_channel 1 1 0 true) |}.

End GeneratorInit.

(** *** [GeneratorNSF.__init__] and [SynthesizerTrnMsNSFsid.__init__] *)

(** The argument [sr]: a number, a string, or [None]. *)
Inductive sample_rate : Type :=
| SrInt (n : Z)
| SrStr (s : string)
| SrNone.

(** The dictionary [sr2sr]. *)
Definition sr2sr : list (string * Z) :=
  [("32k", 32000%Z); ("40k", 40000%Z); ("48k", 48000%Z)].

(** [d[key]] for a dictionary with string keys. *)
Fixpoint dict_get {A} (d : list (string * A)) (key : string) : result A :=
  match d with
  | [] => Raise (KeyError key)
  | (k, v) :: d' => if String.eqb k key then Ok v else dict_get d' key
  end.

(** What a name can be bound to, as far as the constructors read it. *)
Inductive pyval : Type :=
| PInt (n : Z)
| PInts (l : list Z)
| PObject.

(** The names bound at module level when a constructor runs: the imports,
    [now_dir], the classes and [sr2sr]. *)
Definition module_names : list string :=
  ["math"; "os"; "torch"; "nn"; "F"; "Conv1d"; "ConvTranspose1d"; "Conv2d";
   "weight_norm"; "remove_weight_norm"; "spectral_norm"; "np"; "now_dir";
   "modules"; "attentions"; "init_weights"; "get_padding"; "sequence_mask";
   "rand_slice_segments"; "slice_segments2";
   "TextEncoder"; "ResidualCouplingBlock"; "PosteriorEncoder"; "Generator";
   "SineGen"; "SourceModuleHnNSF"; "GeneratorNSF"; "sr2sr";
   "SynthesizerTrnMsNSFsid"; "SynthesizerTrnMsNSFsid_nono";
   "MultiPeriodDiscriminator"; "MultiPeriodDiscriminatorV2";
   "DiscriminatorS"; "DiscriminatorP"].

(** The built-in names that the module reads. *)
Definition builtin_names : list string :=
  ["super"; "len"; "enumerate"; "zip"; "range"; "reversed"; "hasattr";
   "isinstance"; "str"; "int"].

(** The arguments of [GeneratorNSF.__init__] that are numbers or lists of
    numbers. *)
Record GeneratorNSF_args : Type := {
  a_initial_channel : Z;
  a_resblock_kernel_sizes : list Z;
  a_upsample_rates : list Z;
  a_upsample_initial_channel : Z;
  a_upsample_kernel_sizes : list Z;
  a_gin_channels : Z
}.

(** The scope of the body of [GeneratorNSF.__init__]: its parameters (its
    only local names: the body assigns to attributes of [self] only, and
    the variables of a comprehension are local to the comprehension), then
    the names of the module, then the built-in names. *)
Definition GeneratorNSF_init_scope (args : GeneratorNSF_args) : list (string * pyval) :=
  [("self", PObject);
   ("initial_channel", PInt (a_initial_channel args));
   ("resblock", PObject);
   ("resblock_kernel_sizes", PInts (a_resblock_kernel_sizes args));
   ("resblock_dilation_sizes", PObject);
   ("upsample_rates", PInts (a_upsample_rates args));
   ("upsample_initial_channel", PInt (a_upsample_initial_channel args));
   ("upsample_kernel_sizes", PInts (a_upsample_kernel_sizes args));
   ("gin_channels", PInt (a_gin_channels args));
   ("sr", PObject);
   ("is_half", PObject)]
  ++ map (fun name => (name, PObject)) (module_names ++ builtin_names).

(** Reading a name. *)
Fixpoint load_name (scope : list (string * pyval)) (name : string) : result pyval :=
  match scope with
  | [] => Raise (NameError name)
  | (n, v) :: scope' => if String.eqb n name then Ok v else load_name scope' name
  end.

Definition as_int (v : pyval) : result Z :=
  match v with
  | PInt n => Ok n
  | _ => Raise (TypeError "unsupported operand type(s) for +")
  end.

Definition as_ints (v : pyval) : result (list Z) :=
  match v with
  | PInts l => Ok l
  | _ => Raise (TypeError "object is not subscriptable")
  end.

(** [np.prod] of a list of numbers. *)
Definition np_prod (l : list Z) : Z := fold_right Z.mul 1%Z l.

(** Line 191, the iterable of the comprehension of lines 189-192,
    [[np.prod(upsample_rates[i + 1 :])] * (len(upsample_rates) - 1) + [1]]:
    it is evaluated once, before the loop, in the scope of the body of
    [__init__]. *)
Definition noise_conv_strides (scope : list (string * pyval)) : result (list Z) :=
  _ ← load_name scope "np";
  rates ← load_name scope "upsample_rates";
  i ← load_name scope "i";
  i ← as_int i;
  rates ← as_ints rates;
  let stride := np_prod (slice_from (i + 1) rates) in
  _ ← load_name scope "len";
  rates' ← load_name scope "upsample_rates";
  rates' ← as_ints rates';
  Ok (concat (repeat [stride] (Z.to_nat (Z.of_nat (length rates') - 1))) ++ [1%Z]).

Section SynthesizerInit.
Context {Args Enc Dec Obj : Type}.
(** The arguments of [SynthesizerTrnMsNSFsid.__init__] that it passes to
    [GeneratorNSF]. *)
Variable generator_args : Args -> GeneratorNSF_args.
(** Line 249, [TextEncoder(..., f0=f0)]: the classes of
    [infer_pack.attentions] can refuse their arguments. *)
Variable new_TextEncoder : Args -> bool -> result Enc.
(** Lines 189-207 of [GeneratorNSF.__init__] after the iterable of line
    191, for the source module of line 188. *)
Variable finish_GeneratorNSF : GeneratorNSF_args -> sample_rate -> bool -> list Z -> result Dec.
(** Lines 251-253. *)
Variable finish_Synthesizer : Args -> Enc -> Dec -> result Obj.

(** [GeneratorNSF.__init__]. *)
Definition GeneratorNSF_init (args : GeneratorNSF_args) (sr : sample_rate)
    (is_half : bool) : result Dec :=
  strides ← noise_conv_strides (GeneratorNSF_init_scope args);
  finish_GeneratorNSF args sr is_half strides.

(** [SynthesizerTrnMsNSFsid.__init__]. *)
Definition SynthesizerTrnMsNSFsid_init (args : Args) (sr : sample_rate)
    (is_half f0 : bool) : result Obj :=
  sr ← match sr with
       | SrStr s => n ← dict_get sr2sr s; Ok (SrInt n)
       | _ => Ok sr
       end;
  enc_p ← new_TextEncoder args f0;
  dec ← GeneratorNSF_init (generator_args args) sr is_half;
  finish_Synthesizer args enc_p dec.

End SynthesizerInit.

(** *** The discriminators *)

Abbreviation Tensor4 := (list (list (list (list R)))) (only parsing).

(** A convolution layer ([Conv1d], [Conv2d], with or without a weight or
    spectral norm): the number of input channels it was built for, and the
    function it computes on an input with that many channels. *)
Record Conv (T : Type) : Type := {
  conv_in_channels : nat;
  conv_fn : T -> T
}.
Arguments conv_in_channels {T} _.
Arguments conv_fn {T} _ _.

(** [conv(x)] for a batched input: PyTorch raises [RuntimeError] unless
    dimension 1 of [x] has the size [in_channels]. *)
Definition conv_call {A} (conv : Conv (list (list A))) (x : list (list A))
  : result (list (list A)) :=
  if Nat.eqb (size1 x) (conv_in_channels conv) then Ok (conv_fn conv x)
  else Raise (RuntimeError "expected input to have in_channels channels").

(** [l[-1]]. *)
Definition py_last {A} (l : list A) : result A :=
  match l with
  | [] => Raise IndexError
  | a :: l' => Ok (List.last l' a)
  end.

(** [[f(a) for a in l]]: the calls are made in the order of the list, and
    the first exception ends the comprehension. *)
Fixpoint comprehension {A B} (f : A -> result B) (l : list A) : result (list B) :=
  match l with
  | [] => Ok []
  | a :: l' => b ← f a; bs ← comprehension f l'; Ok (b :: bs)
  end.

Definition leaky_relu4 (slope : R) (x : Tensor4) : Tensor4 :=
  map (map (map (map (leaky_relu_scalar slope)))) x.

(** [torch.flatten(x, 1, -1)]. *)
Definition flatten3 (x : Tensor3) : Tensor2 := map (@concat R) x.
Definition flatten4 (x : Tensor4) : Tensor2 := map (fun xb => concat (concat xb)) x.

Record DiscriminatorS : Type := {
  ds_convs : list (Conv Tensor3);
  ds_conv_post : Conv Tensor3
}.

(** [DiscriminatorS.__init__]; the functions of the seven new layers are
    arguments ([use_spectral_norm] chooses the norm, which is part of
    them). *)
Definition DiscriminatorS_init (fn : nat -> Tensor3 -> Tensor3) : DiscriminatorS :=
  {| ds_convs :=
       [ {| conv_in_channels := 1; conv_fn := fn 0 |};
         {| conv_in_channels := 16; conv_fn := fn 1 |};
         {| conv_in_channels := 64; conv_fn := fn 2 |};
         {| conv_in_channels := 256; conv_fn := fn 3 |};
         {| conv_in_channels := 1024; conv_fn := fn 4 |};
         {| conv_in_channels := 1024; conv_fn := fn 5 |} ]%nat;
     ds_conv_post := {| conv_in_channels := 1024%nat; conv_fn := fn 6%nat |} |}.

Record DiscriminatorP : Type := {
  dp_period : positive;
  dp_convs : list (Conv Tensor4);
  dp_conv_post : Conv Tensor4
}.

(** [DiscriminatorP.__init__]. *)
Definition DiscriminatorP_init (period : positive) (fn : nat -> Tensor4 -> Tensor4)
  : DiscriminatorP :=
  {| dp_period := period;
     dp_convs :=
       [ {| conv_in_channels := 1; conv_fn := fn 0 |};
         {| conv_in_channels := 32; conv_fn := fn 1 |};
         {| conv_in_channels := 128; conv_fn := fn 2 |};
         {| conv_in_channels := 512; conv_fn := fn 3 |};
         {| conv_in_channels := 1024; conv_fn := fn 4 |} ]%nat;
     dp_conv_post := {| conv_in_channels := 1024%nat; conv_fn := fn 5%nat |} |}.

(** [F.pad(x, (0, n_pad), "reflect")] on the last dimension, of size [t]:
    PyTorch raises [RuntimeError] unless [n_pad < t]; the padding repeats
    the entries before the last one, going backwards. *)
Definition reflect_row (n_pad : nat) (row : Tensor1) : Tensor1 :=
  row ++ firstn n_pad (tl (rev row)).

Definition pad_reflect (n_pad t : nat) (x : Tensor3) : result Tensor3 :=
  if Nat.ltb n_pad t then Ok (map (map (reflect_row n_pad)) x)
  else Raise (RuntimeError "Padding size should be less than the corresponding input dimension").

(** [x.view(b, c, t // period, period)] for [x] of shape [b, c, t] with
    [t] a multiple of [period]. *)
Definition view_periods (t period : nat) (x : Tensor3) : Tensor4 :=
  map (map (fun row =>
              map (fun i => firstn period (skipn (i * period) row))
                  (seq 0 (Nat.div t period)))) x.

(** Lines 339-344 of [DiscriminatorP.forward]. *)
Definition DiscriminatorP_fold (period : positive) (x : Tensor3) : result Tensor4 :=
  let p := Pos.to_nat period in
  let t := size2 x in
  if negb (Nat.eqb (Nat.modulo t p) 0) then
    let n_pad := (p - Nat.modulo t p)%nat in
    x ← pad_reflect n_pad t x;
    let t := (t + n_pad)%nat in
    Ok (view_periods t p x)
  else Ok (view_periods t p x).

Section DiscriminatorForward.
Context `{InferPack}.

(** [DiscriminatorS.forward(x)]. *)
Definition DiscriminatorS_forward (self : DiscriminatorS) (x : Tensor3)
  : result (Tensor2 * list Tensor3) :=
  fmap ← comprehension
           (fun conv => y ← conv_call conv x; Ok (leaky_relu LRELU_SLOPE y))
           (ds_convs self);
  last ← py_last fmap;
  y ← conv_call (ds_conv_post self) last;
  Ok (flatten3 y, fmap).

(** [DiscriminatorP.forward(x)]. *)
Definition DiscriminatorP_forward (self : DiscriminatorP) (x : Tensor3)
  : result (Tensor2 * list Tensor4) :=
  x ← DiscriminatorP_fold (dp_period self) x;
  fmap ← comprehension
           (fun conv => y ← conv_call conv x; Ok (leaky_relu4 LRELU_SLOPE y))
           (dp_convs self);
  last ← py_last fmap;
  y ← conv_call (dp_conv_post self) last;
  Ok (flatten4 y, fmap).

(** A discriminator of either class, and the feature maps it returns. *)
Inductive discriminator : Type :=
| SubS (d : DiscriminatorS)
| SubP (d : DiscriminatorP).

Inductive feature_maps : Type :=
| MapsS (fmap : list Tensor3)
| MapsP (fmap : list Tensor4).

(** [d(y)]. *)
Definition discriminator_call (d : discriminator) (y : Tensor3)
  : result (Tensor2 * feature_maps) :=
  match d with
  | SubS d => r ← DiscriminatorS_forward d y; Ok (r.1, MapsS r.2)
  | SubP d => r ← DiscriminatorP_forward d y; Ok (r.1, MapsP r.2)
  end.

(** [MultiPeriodDiscriminator.__init__]. *)
Definition MultiPeriodDiscriminator_init (periods : list positive)
    (fn_s : nat -> Tensor3 -> Tensor3) (fn_p : positive -> nat -> Tensor4 -> Tensor4)
  : list discriminator :=
  [SubS (DiscriminatorS_init fn_s)]
  ++ map (fun p => SubP (DiscriminatorP_init p (fn_p p))) periods.

(** Lines 294-295, [a, b = zip] of the unpacked list of pairs: with no
    pair there is nothing to unpack. *)
Definition unzip_results {A B} (results : list (A * B)) : result (list A * list B) :=
  match results with
  | [] => Raise (ValueError "not enough values to unpack (expected 2, got 0)")
  | _ => Ok (map fst results, map snd results)
  end.

(** [MultiPeriodDiscriminator.forward(y, y_hat)]. *)
Definition MultiPeriodDiscriminator_forward (discriminators : list discriminator)
    (y y_hat : Tensor3)
  : result (list Tensor2 * list Tensor2 * list feature_maps * list feature_maps) :=
  results ← comprehension (fun d => discriminator_call d y) discriminators;
  results_hat ← comprehension (fun d => discriminator_call d y_hat) discriminators;
  '(y_d_rs, fmap_rs) ← unzip_results results;
  '(y_d_gs, fmap_gs) ← unzip_results results_hat;
  Ok (y_d_rs, y_d_gs, fmap_rs, fmap_gs).

End DiscriminatorForward.

(** [x[b][c][i][j]], with 0 outside the tensor. *)
Definition at4 (x : Tensor4) (b c i j : nat) : R :=
  nth j (nth i (nth c (nth b x []) []) []) 0.

(** [x] is a full tensor of shape [B, C, H, W]. *)
Definition has_shape4 (x : Tensor4) (B C H W : nat) : Prop :=
  length x = B /\ Forall (fun xb => has_shape3 xb C H W) x.

(** The periods of [MultiPeriodDiscriminator] and of
    [MultiPeriodDiscriminatorV2]. *)
Definition default_periods : list positive := [2; 3; 5; 7; 11; 17]%positive.
Definition default_periods_v2 : list positive := [2; 3; 5; 7; 11; 17; 23; 37]%positive.

(** *** [PosteriorEncoder.forward] and [SynthesizerTrnMsNSFsid.forward] *)

(** [a, b = t] for a tuple [t] with the given items. *)
Definition unpack2 {A} (items : list A) : result (A * A) :=
  match items with
  | [a; b] => Ok (a, b)
  | _ :: _ :: _ :: _ => Raise (ValueError "too many values to unpack (expected 2)")
  | _ =>
      Raise (ValueError
               (String.append "not enough values to unpack (expected 2, got "
                  (String.append (pretty (length items)) ")")))
  end.

(** The other two names that [models.py] imports from
    [infer_pack.commons]: [rand_slice_segments(x, x_lengths, segment_size)],
    which draws the start of a segment for every batch entry and returns
    the segments with their starts, and
    [slice_segments2(x, ids_str, segment_size)]. *)
Class Commons `{TorchRuntime} : Type := {
  rand_slice_segments : Tensor3 -> list Z -> nat -> Gen -> result (Tensor3 * list Z) * Gen;
  slice_segments2 : Tensor2 -> list Z -> nat -> result Tensor2
}.

Section TrainingForward.
Context `{TorchRuntime} `{InferPack}.

(** Lines 66-69 of [PosteriorEncoder.forward]: the mask and the masked
    statistics. *)
Definition PosteriorEncoder_stats (self : PosteriorEncoder) (x : Tensor3)
    (x_lengths : list Z) (g : option Tensor3) : Tensor3 * Tensor3 :=
  let x_mask := unsqueeze1 (sequence_mask x_lengths (size2 x)) in
  let x := tmul3 (pe_pre self x) x_mask in
  let x := pe_enc self x x_mask g in
  let stats := tmul3 (pe_proj self x) x_mask in
  (stats, x_mask).

(** [PosteriorEncoder.forward(x, x_lengths, g)]: the tuple
    [(z, m, logs, x_mask)] and the generator after the call. *)
Definition PosteriorEncoder_forward (self : PosteriorEncoder) (x : Tensor3)
    (x_lengths : list Z) (g : option Tensor3) (gen : Gen)
  : result (Tensor3 * Tensor3 * Tensor3 * Tensor3) * Gen :=
  let '(stats, x_mask) := PosteriorEncoder_stats self x x_lengths g in
  match (chunks ← split_dim1 (pe_out_channels self) stats; unpack2 chunks) with
  | Raise e => (Raise e, gen)
  | Ok (m, logs) =>
      let '(noise, gen) := randn_like m gen in
      let z := tmul3 (tadd3 m (tmul3 noise (map3 exp logs))) x_mask in
      (Ok (z, m, logs, x_mask), gen)
  end.

Context `{!Commons}.

(** What [SynthesizerTrnMsNSFsid.forward] returns:
    [(o, ids_slice, x_mask, y_mask, (z, z_p, m_p, logs_p, m_q, logs_q))]. *)
Record forward_output : Type := {
  fo_o : Tensor3;
  fo_ids_slice : list Z;
  fo_x_mask : Tensor3;
  fo_y_mask : Tensor3;
  fo_latents : list Tensor3
}.

(** [SynthesizerTrnMsNSFsid.forward(phone, phone_lengths, pitch, pitchf, y,
    y_lengths, ds)]: the outcome, the module after the call and the
    generator after the call.  Line 262 unpacks the return value of the
    text encoder into three names, as line 272 of [infer] does. *)
Definition SynthesizerTrnMsNSFsid_forward (self : SynthesizerTrnMsNSFsid)
    (phone : Tensor3) (phone_lengths : list Z) (pitch : option (list (list Z)))
    (pitchf : FloatTensor2) (y : Tensor3) (y_lengths : list Z) (ds : list Z) (gen : Gen)
  : result forward_output * SynthesizerTrnMsNSFsid * Gen :=
  let g := unsqueeze_last (emb_g self ds) in
  let unpacked :=
    ret ← TextEncoder_forward (enc_p self) phone pitch phone_lengths;
    '(m_p, logs_p, x_mask) ← unpack3 ret;
    m_p ← as_tensor m_p;
    logs_p ← as_tensor logs_p;
    x_mask ← as_tensor x_mask;
    Ok (m_p, logs_p, x_mask) in
  match unpacked with
  | Raise e => (Raise e, self, gen)
  | Ok (m_p, logs_p, x_mask) =>
      match PosteriorEncoder_forward (enc_q self) y y_lengths (Some g) gen with
      | (Raise e, gen) => (Raise e, self, gen)
      | (Ok (z, m_q, logs_q, y_mask), gen) =>
          let z_p := ResidualCouplingBlock_forward
                       (fun fl x x_mask g reverse => flow_apply fl x x_mask g reverse)
                       (flow self) z y_mask (Some g) false in
          match rand_slice_segments z y_lengths (segment_size self) gen with
          | (Raise e, gen) => (Raise e, self, gen)
          | (Ok (z_slice, ids_slice), gen) =>
              match slice_segments2 (ft_data pitchf) ids_slice (segment_size self) with
              | Raise e => (Raise e, self, gen)
              | Ok pitchf' =>
                  let '(o, dec', gen) :=
                    GeneratorNSF_forward (dec self) z_slice
                      {| ft_dtype := ft_dtype pitchf; ft_data := pitchf' |} (Some g) gen in
                  let self := set_dec self dec' in
                  (o ← o;
                   Ok {| fo_o := o; fo_ids_slice := ids_slice; fo_x_mask := x_mask;
                         fo_y_mask := y_mask;
                         fo_latents := [z; z_p; m_p; logs_p; m_q; logs_q] |},
                   self, gen)
              end
          end
      end
  end.

End TrainingForward.

(** The two functions of [infer_pack.commons] for [Example]: one draw, and
    every segment starts at frame 0. *)
Module ExampleTraining.

Definition commons : @Commons Example.runtime :=
  {| rand_slice_segments := fun z _ _ gen =>
       (Ok (z, map (fun _ => 0%Z) z), (@rand_next Example.runtime gen).2);
     slice_segments2 := fun x _ _ => Ok x |}.

Definition pitchf : FloatTensor2 :=
  {| ft_dtype := float32; ft_data := [[220; 0; 220]] |}.

Definition y : Tensor3 := [[[1; 2; 3]]].

End ExampleTraining.

(* ===================================================================== *)
(** * Part II.  Properties                                                *)
(* ===================================================================== *)

(** ** Lists and tensors given by their entries *)

Section Tab.
Context {A : Type}.

Lemma tab1_length (n : nat) (F : nat -> A) : length (tab1 n F) = n.
Proof. unfold tab1. now rewrite length_map, length_seq. Qed.

Lemma tab1_nth (n : nat) (F : nat -> A) (i : nat) (d : A) :
  (i < n)%nat -> nth i (tab1 n F) d = F i.
Proof.
  intros Hi. unfold tab1.
  rewrite (nth_indep _ d (F 0%nat)) by now rewrite length_map, length_seq.
  rewrite (map_nth F (seq 0 n) 0%nat i), seq_nth by exact Hi. reflexivity.
Qed.

Lemma tab1_ext (n : nat) (F G : nat -> A) :
  (forall i, (i < n)%nat -> F i = G i) -> tab1 n F = tab1 n G.
Proof.
  intros Hext. unfold tab1. apply map_ext_in. intros i Hi.
  apply in_seq in Hi. apply Hext. lia.
Qed.

Lemma tab1_S (n : nat) (F : nat -> A) :
  tab1 (S n) F = F 0%nat :: tab1 n (fun i => F (S i)).
Proof. unfold tab1. simpl. f_equal. now rewrite <- seq_shift, map_map. Qed.

Lemma tab1_snoc (n : nat) (F : nat -> A) : tab1 (S n) F = tab1 n F ++ [F n].
Proof. unfold tab1. now rewrite seq_S, map_app. Qed.

(** Every list is the table of its entries. *)
Lemma list_tab1 (l : list A) (d : A) : l = tab1 (length l) (fun i => nth i l d).
Proof.
  induction l as [|a l IH]; [reflexivity|].
  simpl length. rewrite tab1_S. simpl. now rewrite <- IH.
Qed.

Lemma list_tab1_len (l : list A) (n : nat) (d : A) :
  length l = n -> l = tab1 n (fun i => nth i l d).
Proof. intros <-. apply list_tab1. Qed.

Lemma tab1_tail (n : nat) (F : nat -> A) :
  tail (tab1 n F) = tab1 (n - 1) (fun i => F (S i)).
Proof.
  destruct n as [|n]; [reflexivity|].
  rewrite tab1_S. simpl. now rewrite Nat.sub_0_r.
Qed.

Lemma tab1_removelast (n : nat) (F : nat -> A) :
  removelast (tab1 n F) = tab1 (n - 1) F.
Proof.
  destruct n as [|n]; [reflexivity|].
  rewrite tab1_snoc, removelast_last. simpl. now rewrite Nat.sub_0_r.
Qed.

Lemma tab1_insert (n j : nat) (v : A) (F : nat -> A) :
  <[j := v]> (tab1 n F) = tab1 n (fun i => if Nat.eqb i j then v else F i).
Proof.
  revert j F. induction n as [|n IH]; intros j F; [reflexivity|].
  rewrite !tab1_S. destruct j as [|j]; simpl.
  - f_equal.
  - f_equal. apply IH.
Qed.

Lemma repeat_tab1 (v : A) (n : nat) : repeat v n = tab1 n (fun _ => v).
Proof.
  induction n as [|n IH]; [reflexivity|]. rewrite tab1_S. simpl. now f_equal.
Qed.

End Tab.

Lemma tab1_map {A B} (g : A -> B) (n : nat) (F : nat -> A) :
  map g (tab1 n F) = tab1 n (fun i => g (F i)).
Proof. unfold tab1. now rewrite map_map. Qed.

Lemma tab1_zip_with {A B C} (f : A -> B -> C) (n : nat) (F : nat -> A) (G : nat -> B) :
  zip_with f (tab1 n F) (tab1 n G) = tab1 n (fun i => f (F i) (G i)).
Proof.
  revert F G. induction n as [|n IH]; intros F G; [reflexivity|].
  rewrite !tab1_S. simpl. f_equal. apply IH.
Qed.

(** A loop that can raise, over a table whose entries all pass. *)
Lemma mapM_tab1 {A B} (f : A -> result B) (n : nat) (F : nat -> A) (G : nat -> B) :
  (forall i, (i < n)%nat -> f (F i) = Ok (G i)) ->
  mapM f (tab1 n F) = Ok (tab1 n G).
Proof.
  revert F G. induction n as [|n IH]; intros F G Hf; [reflexivity|].
  rewrite !tab1_S. cbn [mapM]. rewrite (Hf 0%nat) by lia. cbn [mbind result_bind].
  rewrite (IH (fun i => F (S i)) (fun i => G (S i))); [reflexivity|].
  intros i Hi. apply Hf. lia.
Qed.

(** Broadcasting of one dimension, on tables. *)
Lemma tab1_bcast {A B C} (f : A -> B -> C) (n : nat) (F : nat -> A) (G : nat -> B) :
  bcast f (tab1 n F) (tab1 n G) = tab1 n (fun i => f (F i) (G i)).
Proof.
  destruct n as [|[|n]]; [reflexivity|reflexivity|].
  rewrite <- tab1_zip_with.
  rewrite (tab1_S (S n) F), (tab1_S n), (tab1_S (S n) G), (tab1_S n). reflexivity.
Qed.

Lemma tab1_bcast_r {A B C} (f : A -> B -> C) (n : nat) (F : nat -> A) (G : nat -> B) :
  bcast f (tab1 n F) (tab1 1 G) = tab1 n (fun i => f (F i) (G 0%nat)).
Proof.
  destruct n as [|[|n]]; [reflexivity|reflexivity|].
  change (tab1 1 G) with [G 0%nat].
  rewrite <- (tab1_map (fun x => f x (G 0%nat))).
  rewrite (tab1_S (S n) F), (tab1_S n). reflexivity.
Qed.

Lemma tab1_bcast_l {A B C} (f : A -> B -> C) (n : nat) (F : nat -> A) (G : nat -> B) :
  bcast f (tab1 1 F) (tab1 n G) = tab1 n (fun i => f (F 0%nat) (G i)).
Proof. unfold bcast. change (tab1 1 F) with [F 0%nat]. apply tab1_map. Qed.

(** Shapes and tables. *)
Lemma has_shape2_tab {A} (x : list (list A)) (B T : nat) (d : A) :
  has_shape2 x B T -> x = tab2 B T (fun b t => nth t (nth b x []) d).
Proof.
  intros [HB Hrows]. unfold tab2.
  rewrite (list_tab1_len x B [] HB) at 1. apply tab1_ext. intros b Hb.
  apply list_tab1_len. rewrite List.Forall_forall in Hrows. apply Hrows.
  apply nth_In. lia.
Qed.

Lemma has_shape3_tab {A} (x : list (list (list A))) (B C T : nat) (d : A) :
  has_shape3 x B C T -> x = tab3 B C T (fun b c t => nth t (nth c (nth b x []) []) d).
Proof.
  intros [HB Hrows]. unfold tab3.
  rewrite (list_tab1_len x B [] HB) at 1. apply tab1_ext. intros b Hb.
  rewrite List.Forall_forall in Hrows.
  apply has_shape2_tab. apply Hrows. apply nth_In. lia.
Qed.

Lemma tab2_has_shape {A} (B T : nat) (F : nat -> nat -> A) : has_shape2 (tab2 B T F) B T.
Proof.
  split; [apply tab1_length|]. apply List.Forall_forall. intros row Hin.
  unfold tab2, tab1 in Hin. apply List.in_map_iff in Hin as (b & <- & _).
  apply tab1_length.
Qed.

Lemma tab3_has_shape {A} (B C T : nat) (F : nat -> nat -> nat -> A) :
  has_shape3 (tab3 B C T F) B C T.
Proof.
  split; [apply tab1_length|]. apply List.Forall_forall. intros xb Hin.
  unfold tab3, tab1 in Hin. apply List.in_map_iff in Hin as (b & <- & _).
  apply tab2_has_shape.
Qed.

Lemma tab2_ext {A} (B T : nat) (F G : nat -> nat -> A) :
  (forall b t, (b < B)%nat -> (t < T)%nat -> F b t = G b t) -> tab2 B T F = tab2 B T G.
Proof.
  intros Hext. apply tab1_ext. intros b Hb. apply tab1_ext. intros t Ht. now apply Hext.
Qed.

Lemma tab3_ext {A} (B C T : nat) (F G : nat -> nat -> nat -> A) :
  (forall b c t, (b < B)%nat -> (c < C)%nat -> (t < T)%nat -> F b c t = G b c t) ->
  tab3 B C T F = tab3 B C T G.
Proof.
  intros Hext. apply tab1_ext. intros b Hb. apply tab2_ext. intros c t Hc Ht.
  now apply Hext.
Qed.

Lemma at3_tab3 (B C T : nat) (F : nat -> nat -> nat -> R) (b c t : nat) :
  (b < B)%nat -> (c < C)%nat -> (t < T)%nat -> at3 (tab3 B C T F) b c t = F b c t.
Proof.
  intros Hb Hc Ht. unfold at3, tab3, tab2.
  rewrite tab1_nth by exact Hb. rewrite tab1_nth by exact Hc. now apply tab1_nth.
Qed.

Lemma at2_tab2 (B T : nat) (F : nat -> nat -> R) (b t : nat) :
  (b < B)%nat -> (t < T)%nat -> at2 (tab2 B T F) b t = F b t.
Proof.
  intros Hb Ht. unfold at2, tab2. rewrite tab1_nth by exact Hb. now apply tab1_nth.
Qed.

(** Elementwise operations on tables. *)
Lemma map3_tab3 (f : R -> R) (B C T : nat) (F : nat -> nat -> nat -> R) :
  map3 f (tab3 B C T F) = tab3 B C T (fun b c t => f (F b c t)).
Proof.
  unfold map3, tab3, tab2. rewrite tab1_map. apply tab1_ext. intros b _.
  rewrite tab1_map. apply tab1_ext. intros c _. apply tab1_map.
Qed.

Lemma bcast3_tab3 (f : R -> R -> R) (B C T : nat) (F G : nat -> nat -> nat -> R) :
  bcast (bcast (bcast f)) (tab3 B C T F) (tab3 B C T G)
  = tab3 B C T (fun b c t => f (F b c t) (G b c t)).
Proof.
  unfold tab3, tab2. rewrite tab1_bcast. apply tab1_ext. intros b _.
  rewrite tab1_bcast. apply tab1_ext. intros c _. apply tab1_bcast.
Qed.

(** The second operand has size 1 in the last dimension. *)
Lemma bcast3_tab3_last_r (f : R -> R -> R) (B C T : nat) (F G : nat -> nat -> nat -> R) :
  bcast (bcast (bcast f)) (tab3 B C T F) (tab3 B C 1 G)
  = tab3 B C T (fun b c t => f (F b c t) (G b c 0%nat)).
Proof.
  unfold tab3, tab2. rewrite tab1_bcast. apply tab1_ext. intros b _.
  rewrite tab1_bcast. apply tab1_ext. intros c _. apply tab1_bcast_r.
Qed.

(** The first operand has size 1 in the last dimension. *)
Lemma bcast3_tab3_last_l (f : R -> R -> R) (B C T : nat) (F G : nat -> nat -> nat -> R) :
  bcast (bcast (bcast f)) (tab3 B C 1 F) (tab3 B C T G)
  = tab3 B C T (fun b c t => f (F b c 0%nat) (G b c t)).
Proof.
  unfold tab3, tab2. rewrite tab1_bcast. apply tab1_ext. intros b _.
  rewrite tab1_bcast. apply tab1_ext. intros c _. apply tab1_bcast_l.
Qed.

(** The second operand has size 1 in the middle dimension (a mask of shape
    [B, 1, T] against a tensor of shape [B, C, T]). *)
Lemma bcast3_tab3_mid_r (f : R -> R -> R) (B C T : nat) (F G : nat -> nat -> nat -> R) :
  bcast (bcast (bcast f)) (tab3 B C T F) (tab3 B 1 T G)
  = tab3 B C T (fun b c t => f (F b c t) (G b 0%nat t)).
Proof.
  unfold tab3, tab2. rewrite tab1_bcast. apply tab1_ext. intros b _.
  rewrite tab1_bcast_r. apply tab1_ext. intros c _. apply tab1_bcast.
Qed.

Lemma seq_add_map (n k m : nat) :
  seq (n + k) m = map (fun i => (n + i)%nat) (seq k m).
Proof.
  revert k. induction m as [|m IH]; intros k; [reflexivity|]. simpl. f_equal.
  rewrite <- Nat.add_succ_r. apply IH.
Qed.

Lemma tab1_app {A} (n m : nat) (F : nat -> A) :
  tab1 (n + m) F = tab1 n F ++ tab1 m (fun i => F (n + i)%nat).
Proof.
  unfold tab1. rewrite seq_app, map_app. f_equal. simpl.
  rewrite <- (Nat.add_0_r n) at 1. now rewrite seq_add_map, map_map.
Qed.

(** *** Transposition *)

Lemma transpose_cons {A} (r0 : list A) (rs : list (list A)) :
  rs <> [] -> transpose (r0 :: rs) = zip_with cons r0 (transpose rs).
Proof. destruct rs; [congruence|reflexivity]. Qed.

Lemma transpose_tab2 {A} (r c : nat) (F : nat -> nat -> A) :
  (1 <= r)%nat ->
  transpose (tab2 r c F) = tab2 c r (fun j i => F i j).
Proof.
  intros Hr. destruct r as [|r]; [lia|]. clear Hr. revert F.
  induction r as [|r IH]; intros F.
  - unfold tab2. rewrite tab1_S. simpl. rewrite tab1_map. reflexivity.
  - unfold tab2 in *. rewrite tab1_S.
    rewrite transpose_cons.
    2:{ intros Hnil. apply (f_equal (@length _)) in Hnil.
        rewrite tab1_length in Hnil. discriminate. }
    rewrite (IH (fun i => F (S i))). rewrite tab1_zip_with.
    apply tab1_ext. intros j _. now rewrite (tab1_S (S r)).
Qed.

Lemma transpose12_tab3 {A} (B C T : nat) (F : nat -> nat -> nat -> A) :
  (1 <= C)%nat ->
  transpose12 (tab3 B C T F) = tab3 B T C (fun b t c => F b c t).
Proof.
  intros HC. unfold transpose12, tab3. rewrite tab1_map. apply tab1_ext. intros b _.
  now apply transpose_tab2.
Qed.

(** [f0[:, None].transpose(1, 2)]. *)
Lemma unsqueeze_transpose_tab2 (B T : nat) (F : nat -> nat -> R) :
  transpose12 (unsqueeze1 (tab2 B T F)) = tab3 B T 1 (fun b t _ => F b t).
Proof.
  unfold transpose12, unsqueeze1, tab3, tab2. rewrite !tab1_map.
  apply tab1_ext. intros b _. cbn [transpose]. rewrite tab1_map.
  apply tab1_ext. intros t _. reflexivity.
Qed.

(** *** Resampling *)

Lemma interpolate_nearest_tab1 (upp T : nat) (G : nat -> R) :
  (1 <= upp)%nat ->
  interpolate_nearest upp (tab1 T G) = tab1 (T * upp) (fun i => G (i / upp)%nat).
Proof.
  intros Hupp. unfold interpolate_nearest. revert G.
  induction T as [|T IH]; intros G; [reflexivity|].
  rewrite tab1_S. simpl flat_map. rewrite IH, repeat_tab1.
  change (S T * upp)%nat with (upp + T * upp)%nat. rewrite tab1_app. f_equal.
  - apply tab1_ext. intros i Hi. now rewrite Nat.div_small.
  - apply tab1_ext. intros i _. f_equal.
    replace (upp + i)%nat with (1 * upp + i)%nat by lia.
    rewrite Nat.div_add_l by lia. reflexivity.
Qed.

Lemma interpolate_nearest_length (upp : nat) (row : list R) :
  length (interpolate_nearest upp row) = (length row * upp)%nat.
Proof.
  unfold interpolate_nearest. induction row as [|v row IH]; [reflexivity|].
  simpl. rewrite length_app, repeat_length, IH. reflexivity.
Qed.

Lemma interpolate_linear_length (upp : nat) (row : list R) :
  length (interpolate_linear upp row) = (length row * upp)%nat.
Proof. unfold interpolate_linear. now rewrite length_map, length_seq. Qed.

(** Resampling along the time axis of a tensor of shape [B, T, D], for a
    resampler that maps [T] entries to [L] entries. *)
(** Linear resampling with aligned corners, entry by entry: output sample
    [l] sits at the input coordinate [l * (T - 1) / (T * upp - 1)]. *)
Lemma interpolate_linear_nth (upp T : nat) (G : nat -> R) (l : nat) :
  (l < T * upp)%nat ->
  nth l (interpolate_linear upp (tab1 T G)) 0
  = (let num := (l * (T - 1))%nat in
     let den := (T * upp - 1)%nat in
     let i0 := (num / den)%nat in
     let i1 := if (i0 <? T - 1)%nat then S i0 else i0 in
     let lam := INR (num mod den) / INR den in
     (1 - lam) * G i0 + lam * G i1).
Proof.
  intros Hl. unfold interpolate_linear. rewrite tab1_length.
  change (map ?F (seq 0 ?n)) with (tab1 n F). rewrite tab1_nth by exact Hl.
  cbn zeta.
  assert (Hi0 : (l * (T - 1) / (T * upp - 1) <= T - 1)%nat).
  { destruct (Nat.eq_dec (T * upp - 1)%nat 0%nat) as [->|Hden]; [simpl; lia|].
    transitivity ((T * upp - 1) * (T - 1) / (T * upp - 1))%nat.
    - apply Nat.Div0.div_le_mono. nia.
    - rewrite Nat.mul_comm, Nat.div_mul by exact Hden. lia. }
  assert (HT : (1 <= T)%nat) by nia.
  rewrite !tab1_nth; [reflexivity| |lia].
  destruct (Nat.ltb_spec (l * (T - 1) / (T * upp - 1)) (T - 1)); lia.
Qed.

Lemma interpolate_time_tab3 (f : list R -> list R) (B T D L : nat)
    (F : nat -> nat -> nat -> R) :
  (1 <= T)%nat -> (1 <= D)%nat ->
  (forall row, length row = T -> length (f row) = L) ->
  interpolate_time f (tab3 B T D F)
  = tab3 B L D (fun b l h => nth l (f (tab1 T (fun t => F b t h))) 0).
Proof.
  intros HT HD Hlen. unfold interpolate_time.
  rewrite transpose12_tab3 by exact HT.
  assert (Hmap : map (map f) (tab3 B D T (fun b t c => F b c t))
                 = tab3 B D L (fun b h l => nth l (f (tab1 T (fun t => F b t h))) 0)).
  { unfold tab3, tab2. rewrite tab1_map. apply tab1_ext. intros b _.
    rewrite tab1_map. apply tab1_ext. intros h _.
    apply list_tab1_len. apply Hlen. apply tab1_length. }
  rewrite Hmap. now apply transpose12_tab3.
Qed.

(** *** Running sums *)

Lemma cumsum_rows_Some_tab2 (L D : nat) (a : nat -> R) (F : nat -> nat -> R) :
  cumsum_rows (Some (tab1 D a)) (tab2 L D F)
  = tab2 L D (fun t h => a h + sum_f_R0 (fun k => F k h) t).
Proof.
  revert a F. induction L as [|L IH]; intros a F; [reflexivity|].
  unfold tab2 in *. rewrite !tab1_S. cbn [cumsum_rows].
  rewrite tab1_zip_with. f_equal.
  rewrite (IH (fun h => a h + F 0%nat h) (fun t => F (S t))).
  apply tab1_ext. intros t _. apply tab1_ext. intros h _.
  rewrite (decomp_sum (fun k => F k h) (S t)) by lia. simpl. lra.
Qed.

Lemma cumsum_rows_None_tab2 (L D : nat) (F : nat -> nat -> R) :
  cumsum_rows None (tab2 L D F) = tab2 L D (fun t h => sum_f_R0 (fun k => F k h) t).
Proof.
  destruct L as [|L]; [reflexivity|].
  unfold tab2. rewrite !tab1_S. cbn [cumsum_rows]. f_equal.
  pose proof (cumsum_rows_Some_tab2 L D (F 0%nat) (fun t => F (S t))) as Hs.
  unfold tab2 in Hs. rewrite Hs.
  apply tab1_ext. intros t _. apply tab1_ext. intros h _.
  rewrite (decomp_sum (fun k => F k h) (S t)) by lia. reflexivity.
Qed.

Lemma cumsum_dim1_tab3 (B L D : nat) (F : nat -> nat -> nat -> R) :
  cumsum_dim1 (tab3 B L D F)
  = tab3 B L D (fun b t h => sum_f_R0 (fun k => F b k h) t).
Proof.
  unfold cumsum_dim1, tab3. rewrite tab1_map. apply tab1_ext. intros b _.
  apply cumsum_rows_None_tab2.
Qed.

(** *** Draws of the generator *)

Section DrawLemmas.
Context `{TorchRuntime}.

Lemma mapS_length {A B} (f : A -> Gen -> B * Gen) (l : list A) (g : Gen) :
  length (mapS f l g).1 = length l.
Proof.
  revert g. induction l as [|a l IH]; intros g; [reflexivity|]. simpl.
  destruct (f a g) as [b g1]. specialize (IH g1).
  destruct (mapS f l g1) as [bs g2]. simpl in *. now rewrite IH.
Qed.

Lemma mapS_Forall2 {A B} (P : A -> B -> Prop) (f : A -> Gen -> B * Gen)
    (l : list A) (g : Gen) :
  (forall a g, P a (f a g).1) -> Forall2 P l (mapS f l g).1.
Proof.
  intros Hf. revert g. induction l as [|a l IH]; intros g; [constructor|]. simpl.
  pose proof (Hf a g) as Ha. destruct (f a g) as [b g1]. specialize (IH g1).
  destruct (mapS f l g1) as [bs g2]. simpl in *. now constructor.
Qed.

Lemma Forall2_transfer {A B} (P : A -> Prop) (Q : B -> Prop) (l : list A) (l' : list B) :
  Forall2 (fun a b => P a -> Q b) l l' -> Forall P l -> Forall Q l'.
Proof.
  induction 1 as [|a b l l' Hab _ IH]; intros HP; [constructor|].
  inversion HP; subst. constructor; auto.
Qed.

(** [torch.randn_like(x)] has the shape of [x]. *)
Lemma randn_like_shape (x : Tensor3) (B C T : nat) (g : Gen) :
  has_shape3 x B C T -> has_shape3 (randn_like x g).1 B C T.
Proof.
  intros [HB Hrows]. unfold randn_like. split; [now rewrite mapS_length|].
  eapply Forall2_transfer; [|exact Hrows].
  apply mapS_Forall2. intros xb g0 [HC HT]. split; [now rewrite mapS_length|].
  eapply Forall2_transfer; [|exact HT].
  apply mapS_Forall2. intros xc g1 Hl. now rewrite mapS_length.
Qed.

Lemma advance_add (next : Gen -> R * Gen) (n m : nat) (g : Gen) :
  advance next (n + m) g = advance next m (advance next n g).
Proof. revert g. induction n as [|n IH]; intros g; [reflexivity|]. simpl. apply IH. Qed.

Lemma mapS_draws {A} (next : Gen -> R * Gen) (l : list A) (g : Gen) :
  mapS (fun _ => next) l g
  = (tab1 (length l) (fun i => nth_draw next i g), advance next (length l) g).
Proof.
  revert g. induction l as [|a l IH]; intros g; [reflexivity|]. simpl.
  destruct (next g) as [v g1] eqn:Hn. rewrite IH. rewrite tab1_S.
  unfold nth_draw. simpl. rewrite Hn. reflexivity.
Qed.

(** Entry [(b, h)] of [torch.rand(B, D)] is draw number [b * D + h]. *)
Lemma rand2_draws (B D : nat) (g : Gen) :
  rand2 B D g
  = (tab2 B D (fun b h => nth_draw rand_next (b * D + h) g),
     advance rand_next (B * D) g).
Proof.
  unfold rand2.
  assert (Hgen : forall (l : list nat) g,
             mapS (fun _ => mapS (fun _ => rand_next) (seq 0 D)) l g
             = (tab1 (length l)
                  (fun b => tab1 D (fun h => nth_draw rand_next (b * D + h) g)),
                advance rand_next (length l * D) g)).
  { induction l as [|a l IH]; intros g0; [reflexivity|]. simpl mapS.
    rewrite mapS_draws, length_seq, IH. simpl length. rewrite tab1_S. f_equal.
    - f_equal. apply tab1_ext. intros b _. apply tab1_ext. intros h _.
      unfold nth_draw. rewrite <- advance_add.
      replace (D + (b * D + h))%nat with (S b * D + h)%nat by lia. reflexivity.
    - rewrite <- advance_add. reflexivity. }
  rewrite Hgen, length_seq. reflexivity.
Qed.

End DrawLemmas.

(** ** The prior sample of line 273 *)

(** What line 273 computes, entry by entry: the mean plus the noise scaled
    by the standard deviation and by 0.66666, times the mask of the frame. *)
Lemma sample_prior_pointwise (m_p logs_p noise x_mask : Tensor3) (B C T b c t : nat) :
  has_shape3 m_p B C T -> has_shape3 logs_p B C T ->
  has_shape3 noise B C T -> has_shape3 x_mask B 1 T ->
  (b < B)%nat -> (c < C)%nat -> (t < T)%nat ->
  at3 (sample_prior m_p logs_p noise x_mask) b c t
  = (at3 m_p b c t + exp (at3 logs_p b c t) * at3 noise b c t * (66666 / 100000))
    * at3 x_mask b 0 t.
Proof.
  intros Hm Hl Hn Hk Hb Hc Ht.
  pose proof (has_shape3_tab _ _ _ _ 0 Hm) as Em.
  pose proof (has_shape3_tab _ _ _ _ 0 Hl) as El.
  pose proof (has_shape3_tab _ _ _ _ 0 Hn) as En.
  pose proof (has_shape3_tab _ _ _ _ 0 Hk) as Ek.
  set (Fm := fun b c t => nth t (nth c (nth b m_p []) []) 0) in Em.
  set (Fl := fun b c t => nth t (nth c (nth b logs_p []) []) 0) in El.
  set (Fn := fun b c t => nth t (nth c (nth b noise []) []) 0) in En.
  set (Fk := fun b c t => nth t (nth c (nth b x_mask []) []) 0) in Ek.
  rewrite Em, El, En, Ek.
  unfold sample_prior, tmul3, tadd3, tmul_scalar, noise_scale.
  rewrite map3_tab3, bcast3_tab3, map3_tab3, bcast3_tab3, bcast3_tab3_mid_r.
  rewrite !at3_tab3 by (assumption || lia). reflexivity.
Qed.
(** ** Results *)

Lemma bind_Ok {A B} (r : result A) (f : A -> result B) (b : B) :
  r ≫= f = Ok b -> exists a, r = Ok a /\ f a = Ok b.
Proof. destruct r as [a|e]; [eauto | discriminate]. Qed.

(** ** The tuple returned by the text encoder *)

Section InferFacts.
Context `{TorchRuntime} `{InferPack}.

(** Whenever [TextEncoder.forward] returns, it returns a tuple with two
    items: the tuple of chunks and the mask. *)
Lemma TextEncoder_forward_two_items self phone pitch lengths items :
  TextEncoder_forward self phone pitch lengths = Ok items ->
  exists chunks x_mask, items = [PyTuple chunks; PyTensor x_mask].
Proof.
  unfold TextEncoder_forward. intros Hret.
  apply bind_Ok in Hret as (x & _ & Hret).
  destruct (TextEncoder_encode self x lengths) as [stats x_mask].
  apply bind_Ok in Hret as (chunks & _ & Hret).
  injection Hret as <-. eauto.
Qed.

Lemma infer_raises self phone phone_lengths pitch nsff0 sid rate gen :
  infer self phone phone_lengths pitch nsff0 sid rate gen
  = (Raise (infer_exception self phone phone_lengths pitch), self, gen).
Proof.
  unfold infer, infer_exception.
  destruct (TextEncoder_forward (enc_p self) phone pitch phone_lengths)
    as [items|e] eqn:Henc; [|reflexivity].
  destruct (TextEncoder_forward_two_items _ _ _ _ _ Henc) as (chunks & x_mask & ->).
  reflexivity.
Qed.

End InferFacts.

(** ** Python slices *)

Lemma slice_from_length {A} (start : Z) (l : list A) :
  length (slice_from start l)
  = if (start <? 0)%Z then Nat.min (Z.to_nat (- start)) (length l)
    else (length l - Z.to_nat start)%nat.
Proof.
  unfold slice_from. rewrite length_skipn.
  destruct (Z.ltb_spec start 0); lia.
Qed.

(** [l[-0:]] is the whole list. *)
Lemma slice_from_minus_zero {A} (l : list A) : slice_from (- 0) l = l.
Proof.
  unfold slice_from. change (- 0)%Z with 0%Z. simpl.
  rewrite Z.min_l by lia. reflexivity.
Qed.

(** [l[-head:]] for [1 <= head <= len(l)] is the last [head] entries. *)
Lemma slice_from_last {A} (head : nat) (l : list A) :
  (1 <= head <= length l)%nat ->
  slice_from (- Z.of_nat head) l = skipn (length l - head) l
  /\ length (slice_from (- Z.of_nat head) l) = head.
Proof.
  intros Hh. unfold slice_from.
  destruct (Z.ltb_spec (- Z.of_nat head) 0); [|lia].
  replace (Z.to_nat (Z.max 0 (- Z.of_nat head + Z.of_nat (length l))))
    with (length l - head)%nat by lia.
  split; [reflexivity|]. rewrite length_skipn. lia.
Qed.

Lemma truncate_rate_None z_p x_mask nsff0 :
  truncate_rate None z_p x_mask nsff0 = Ok (z_p, x_mask, nsff0).
Proof. reflexivity. Qed.

Lemma map_map_id {A} (f : list A -> list A) (x : list (list (list A))) :
  (forall l, f l = l) -> map (map f) x = x.
Proof.
  intros Hf. induction x as [|xb x IH]; simpl; [reflexivity|].
  rewrite IH. f_equal. induction xb as [|xc xb IHb]; simpl; [reflexivity|].
  now rewrite Hf, IHb.
Qed.

(** Whenever the computed [head] is 0 (the rounded product [T * rate] is
    below 1 in size) the three sequences come back whole. *)
Lemma truncate_rate_head_zero (r : number) z_p x_mask nsff0 :
  truncate_head (size2 z_p) r = Ok 0%Z ->
  truncate_rate (Some r) z_p x_mask nsff0 = Ok (z_p, x_mask, nsff0).
Proof.
  intros Hhead. unfold truncate_rate. destruct (py_truthy (Some r)); [|reflexivity].
  rewrite Hhead. cbn [mbind result_bind]. unfold slice_dim2, slice_dim1.
  rewrite !(map_map_id _ _ slice_from_minus_zero).
  do 2 f_equal. destruct nsff0 as [d x]. simpl. f_equal.
  induction x as [|xb x IH]; simpl; [reflexivity|].
  now rewrite slice_from_minus_zero, IH.
Qed.

(** A rate that counts as false gives no [head] other than 0. *)
Lemma truncate_head_falsy (T : nat) (r : number) (head : Z) :
  py_truthy (Some r) = false -> truncate_head T r = Ok head -> head = 0%Z.
Proof.
  unfold truncate_head, int_mul, float_of_int, py_truthy.
  destruct r as [n|[s|s| |s m e]]; try discriminate.
  - intros Hn [= <-]. apply negb_false_iff, Z.eqb_eq in Hn. subst n. apply Z.mul_0_r.
  - intros _.
    destruct (binary_normalize 53 1024 (Z.of_nat T) 0 false) as [s'|s'| |s' m' e'];
      cbn; congruence.
Qed.

(** For [head >= 1] the three sequences are cut to their last [head]
    frames. *)
Lemma truncate_rate_cuts (r : number) z_p x_mask nsff0 (head : nat) :
  truncate_head (size2 z_p) r = Ok (Z.of_nat head) ->
  (1 <= head)%nat ->
  truncate_rate (Some r) z_p x_mask nsff0
  = Ok (map (map (slice_from (- Z.of_nat head))) z_p,
        map (map (slice_from (- Z.of_nat head))) x_mask,
        {| ft_dtype := ft_dtype nsff0;
           ft_data := map (slice_from (- Z.of_nat head)) (ft_data nsff0) |}).
Proof.
  intros Hhead Hpos. unfold truncate_rate.
  destruct (py_truthy (Some r)) eqn:Hr.
  - rewrite Hhead. reflexivity.
  - pose proof (truncate_head_falsy _ _ _ Hr Hhead). lia.
Qed.

(** ** [SynthesizerTrnMsNSFsid.infer] *)

Section InferClaims.
Context `{TorchRuntime} `{InferPack}.

(** C1 (defect of the code).  The claim: for every input, [infer] samples
    the prior latent as [z_p = (m_p + exp(logs_p) * n * 0.66666) * x_mask].
    The code: [TextEncoder.forward] returns a tuple of two items (the tuple
    of [torch.split] and the mask) and line 272 of [infer] unpacks it into
    three names, so on every input the call ends with an exception before
    line 273: no noise is drawn (the generator is left as it was) and no
    latent is sampled.  The exception is the [ValueError] of the unpacking
    whenever the text encoder returns. *)
Theorem C1_infer_raises_before_sampling self phone phone_lengths pitch nsff0 sid rate gen :
  infer self phone phone_lengths pitch nsff0 sid rate gen
  = (Raise (infer_exception self phone phone_lengths pitch), self, gen)
  /\ (forall items,
        TextEncoder_forward (enc_p self) phone pitch phone_lengths = Ok items ->
        infer_exception self phone phone_lengths pitch
        = ValueError "not enough values to unpack (expected 3, got 2)").
Proof.
  split; [apply infer_raises|].
  intros items Hret. unfold infer_exception. now rewrite Hret.
Qed.

(** C7.  For every input, a call of [infer] leaves the synthesizer as it
    found it: every attribute of the module and of its submodules is the
    same after the call as before, the attribute [ddtype] of the source
    module of the vocoder included (the one attribute that a forward pass
    assigns, at lines 173-174: the call ends at line 272, before the
    vocoder is reached).  So a second call, whatever its inputs, observes
    exactly the module state that the first call observed, and leaves it
    unchanged as well. *)
Theorem C7_infer_leaves_the_module_unchanged
    self phone phone_lengths pitch nsff0 sid rate gen
    phone2 phone_lengths2 pitch2 nsff02 sid2 rate2 gen2 :
  let after := (infer self phone phone_lengths pitch nsff0 sid rate gen).1.2 in
  after = self
  /\ sm_ddtype (nsf_m_source (dec after)) = sm_ddtype (nsf_m_source (dec self))
  /\ infer after phone2 phone_lengths2 pitch2 nsff02 sid2 rate2 gen2
     = infer self phone2 phone_lengths2 pitch2 nsff02 sid2 rate2 gen2
  /\ (infer after phone2 phone_lengths2 pitch2 nsff02 sid2 rate2 gen2).1.2 = self.
Proof.
  cbn zeta. repeat (rewrite infer_raises; cbn [fst snd]).
  repeat split.
Qed.

(** C6 (defect of the code).  The claim: two calls of [infer] with the same
    weights, the same inputs and the same state of the random-number
    generator return identical output waveforms.  The code: no call of
    [infer] returns a waveform.  Whatever the weights, the inputs and the
    state of the generator, the first call and a second call (on the
    module as the first call left it, with the same inputs and the
    generator in the same state) both end with the exception of line 272,
    the [ValueError] of the unpacking whenever the text encoder returns;
    neither returns a value, and neither draws from the generator. *)
Theorem C6_two_calls_return_no_waveform self phone phone_lengths pitch nsff0 sid rate gen :
  let first := infer self phone phone_lengths pitch nsff0 sid rate gen in
  let second := infer first.1.2 phone phone_lengths pitch nsff0 sid rate gen in
  first.1.1 = Raise (infer_exception self phone phone_lengths pitch)
  /\ second.1.1 = Raise (infer_exception self phone phone_lengths pitch)
  /\ (forall out, first.1.1 <> Ok out)
  /\ (forall out, second.1.1 <> Ok out)
  /\ first.2 = gen
  /\ second.2 = gen
  /\ (forall items,
        TextEncoder_forward (enc_p self) phone pitch phone_lengths = Ok items ->
        first.1.1 = Raise (ValueError "not enough values to unpack (expected 3, got 2)")
        /\ second.1.1
           = Raise (ValueError "not enough values to unpack (expected 3, got 2)")).
Proof.
  cbn zeta. repeat (rewrite infer_raises; cbn [fst snd]).
  repeat split; try discriminate.
  all: unfold infer_exception;
    match goal with Hret : TextEncoder_forward _ _ _ _ = Ok _ |- _ => now rewrite Hret end.
Qed.

End InferClaims.

(** C1, an instance: [infer] on the three-frame utterance of [Example]
    ends with the [ValueError] of the unpacking, with no draw made. *)
Lemma C1_example_infer_raises :
  @infer Example.runtime Example.pack (Example.synthesizer true None)
    Example.phone Example.phone_lengths None Example.nsff0 Example.sid None 0%nat
  = (Raise (ValueError "not enough values to unpack (expected 3, got 2)"),
     Example.synthesizer true None, 0%nat).
Proof.
  destruct (@C1_infer_raises_before_sampling Example.runtime Example.pack
              (Example.synthesizer true None) Example.phone Example.phone_lengths None
              Example.nsff0 Example.sid None 0%nat) as [Hraise Hexn].
  rewrite Hraise. now rewrite (Hexn _ eq_refl).
Defined.

(** C6, an instance: two calls of [infer] on the three-frame utterance of
    [Example], the second on the module that the first has left and with
    the generator in the same state: both end with the [ValueError] of
    line 272. *)
Lemma C6_example_two_calls_raise :
  let first :=
    @infer Example.runtime Example.pack (Example.synthesizer true None)
      Example.phone Example.phone_lengths None Example.nsff0 Example.sid None 0%nat in
  let second :=
    @infer Example.runtime Example.pack first.1.2
      Example.phone Example.phone_lengths None Example.nsff0 Example.sid None 0%nat in
  first.1.1 = Raise (ValueError "not enough values to unpack (expected 3, got 2)")
  /\ second.1.1 = Raise (ValueError "not enough values to unpack (expected 3, got 2)").
Proof.
  exact (proj2 (proj2 (proj2 (proj2 (proj2 (proj2
           (@C6_two_calls_return_no_waveform Example.runtime Example.pack
              (Example.synthesizer true None) Example.phone Example.phone_lengths None
              Example.nsff0 Example.sid None 0%nat))))))
           _ eq_refl).
Defined.

(** C2 (defect of the code).  The claim: for a truncate rate [0 < r <= 1]
    the latent, the mask and the pitch are each cut to their last
    [floor(T * r)] frames, also when [floor(T * r) = 0].  The code, at
    [T = 3] and [r = 0.25]: [infer] ends with the [ValueError] of line 272
    (as for every input); and lines 274-276 themselves compute
    [head = int(3 * 0.25) = 0] and slice with [-0:], which is [0:]: the
    three sequences keep all their 3 frames instead of none. *)
Theorem C2_truncation_at_head_zero :
  let rate := Some Example.rate_025 in
  let z_p : Tensor3 := [[[5; 6; 7]]] in
  let x_mask : Tensor3 := [[[1; 1; 1]]] in
  @infer Example.runtime Example.pack (Example.synthesizer true None)
    Example.phone Example.phone_lengths None Example.nsff0 Example.sid rate 0%nat
  = (Raise (ValueError "not enough values to unpack (expected 3, got 2)"),
     Example.synthesizer true None, 0%nat)
  /\ truncate_head (size2 z_p) Example.rate_025 = Ok 0%Z
  /\ truncate_rate rate z_p x_mask Example.nsff0 = Ok (z_p, x_mask, Example.nsff0)
  /\ exists out,
       truncate_rate rate z_p x_mask Example.nsff0 = Ok out
       /\ size2 out.1.1 = 3%nat
       /\ size2 out.1.2 = 3%nat
       /\ size1 (ft_data out.2) = 3%nat.
Proof.
  intros rate z_p x_mask.
  assert (Hhead : truncate_head (size2 z_p) Example.rate_025 = Ok 0%Z)
    by (vm_compute; reflexivity).
  assert (Hcut : truncate_rate rate z_p x_mask Example.nsff0
                 = Ok (z_p, x_mask, Example.nsff0))
    by now apply truncate_rate_head_zero.
  split; [reflexivity|]. split; [exact Hhead|]. split; [exact Hcut|].
  eexists. split; [exact Hcut|]. repeat split.
Qed.

(** ** [ResidualCouplingBlock] *)

Section FlowOrder.
Context {Flow : Type}.

Lemma recorder_fold (reverse : bool) (l : list Flow) (log : list (Flow * bool)) :
  fold_left (fun log flow => log ++ [(flow, reverse)]) l log
  = log ++ map (fun flow => (flow, reverse)) l.
Proof.
  revert log. induction l as [|f l IH]; intros log; simpl.
  - now rewrite app_nil_r.
  - rewrite IH, <- app_assoc. reflexivity.
Qed.

Lemma ResidualCouplingBlock_calls_spec (flows : list Flow) (reverse : bool) :
  ResidualCouplingBlock_calls flows reverse
  = map (fun flow => (flow, reverse)) (if reverse then rev flows else flows).
Proof.
  unfold ResidualCouplingBlock_calls, ResidualCouplingBlock_forward.
  now rewrite recorder_fold.
Qed.

Lemma fold_left_rev {X} (f : X -> Flow -> X) (l : list Flow) (x : X) :
  fold_left f (rev l) x = fold_right (fun flow acc => f acc flow) x l.
Proof.
  revert x. induction l as [|a l IH]; intros x; simpl; [reflexivity|].
  rewrite fold_left_app. simpl. now rewrite IH.
Qed.

Lemma ResidualCouplingBlock_init_length (layer flip : Flow) (n : nat) :
  length (ResidualCouplingBlock_init layer flip n) = (2 * n)%nat.
Proof.
  unfold ResidualCouplingBlock_init. induction n as [|n IH]; simpl in *; lia.
Qed.

Lemma ResidualCouplingBlock_init_lookup (layer flip : Flow) (n k : nat) :
  (k < n)%nat ->
  ResidualCouplingBlock_init layer flip n !! (2 * k)%nat = Some layer
  /\ ResidualCouplingBlock_init layer flip n !! (2 * k + 1)%nat = Some flip.
Proof.
  unfold ResidualCouplingBlock_init. revert k.
  induction n as [|n IH]; intros k Hk; [lia|].
  destruct k as [|k]; simpl; [split; reflexivity|].
  replace (k + S (k + 0))%nat with (S (2 * k)) by lia.
  replace (k + S (k + 0) + 1)%nat with (S (2 * k + 1)) by lia.
  simpl. apply IH. lia.
Qed.

(** C3.  The block stores [n_flows] repetitions of the pair (coupling
    layer, flip).  With [reverse=False] the steps are called in list order,
    each with [reverse=False]; with [reverse=True] they are called in
    exactly the reversed order, each with [reverse=True]; the steps called
    are the same in both modes.  On values, the reversed pass is the right
    fold of the steps over the list. *)
Theorem C3_flow_steps_reversed (layer flip : Flow) (n_flows : nat) (flows : list Flow) :
  (length (ResidualCouplingBlock_init layer flip n_flows) = (2 * n_flows)%nat
   /\ forall k, (k < n_flows)%nat ->
        ResidualCouplingBlock_init layer flip n_flows !! (2 * k)%nat = Some layer
        /\ ResidualCouplingBlock_init layer flip n_flows !! (2 * k + 1)%nat = Some flip)
  /\ ResidualCouplingBlock_calls flows false = map (fun flow => (flow, false)) flows
  /\ ResidualCouplingBlock_calls flows true = map (fun flow => (flow, true)) (rev flows)
  /\ map fst (ResidualCouplingBlock_calls flows true)
     = rev (map fst (ResidualCouplingBlock_calls flows false))
  /\ Permutation (map fst (ResidualCouplingBlock_calls flows true))
       (map fst (ResidualCouplingBlock_calls flows false))
  /\ (forall (X : Type) (flow_call : Flow -> X -> Tensor3 -> option Tensor3 -> bool -> X)
        x x_mask g,
        ResidualCouplingBlock_forward flow_call flows x x_mask g true
        = fold_right (fun flow acc => flow_call flow acc x_mask g true) x flows
        /\ ResidualCouplingBlock_forward flow_call flows x x_mask g false
           = fold_left (fun acc flow => flow_call flow acc x_mask g false) flows x).
Proof.
  split; [split; [apply ResidualCouplingBlock_init_length
                 | intros k Hk; now apply ResidualCouplingBlock_init_lookup]|].
  rewrite !ResidualCouplingBlock_calls_spec.
  assert (Hfst : forall (r : bool) (l : list Flow),
             map fst (map (fun flow => (flow, r)) l) = l).
  { intros r l. rewrite map_map. simpl. apply map_id. }
  repeat split.
  - now rewrite !Hfst.
  - rewrite !Hfst. symmetry. apply Permutation_rev.
  - unfold ResidualCouplingBlock_forward. apply fold_left_rev.
Qed.

End FlowOrder.

(** C3, an instance: with two repetitions the third step is the coupling
    layer and the fourth the flip. *)
Lemma C3_example_two_repetitions :
  ResidualCouplingBlock_init "layer" "flip" 2 !! 2%nat = Some "layer"
  /\ ResidualCouplingBlock_init "layer" "flip" 2 !! 3%nat = Some "flip".
Proof.
  exact (proj2 (proj1 (@C3_flow_steps_reversed string "layer" "flip" 2 [])) 1%nat (le_n 2)).
Defined.

(** ** The variant without pitch *)






Section NoPitch.
Context `{InferPack}.


End NoPitch.


(** ** The generators *)

Lemma tanh_range (x : R) : -1 < tanh x < 1.
Proof.
  unfold tanh, sinh, cosh.
  pose proof (exp_pos x) as Ha. pose proof (exp_pos (- x)) as Hb.
  set (a := exp x) in *. set (b := exp (- x)) in *.
  set (c := (a + b) / 2). set (n := (a - b) / 2).
  assert (Hc : 0 < c) by (unfold c; lra).
  assert (Hn : - c < n < c) by (unfold c, n; lra).
  assert (Hi : 0 < / c) by now apply Rinv_0_lt_compat.
  assert (H1 : c * / c = 1) by (apply Rinv_r; lra).
  unfold Rdiv. split.
  - replace (-1) with (- c * / c) by lra.
    apply Rmult_lt_compat_r; lra.
  - rewrite <- H1. apply Rmult_lt_compat_r; lra.
Qed.

Lemma map3_tanh_in_unit_range (x : Tensor3) : in_unit_range (map3 tanh x).
Proof.
  unfold in_unit_range, map3.
  apply List.Forall_forall. intros xb Hb. apply List.in_map_iff in Hb as (xb' & <- & _).
  apply List.Forall_forall. intros xc Hc. apply List.in_map_iff in Hc as (xc' & <- & _).
  apply List.Forall_forall. intros v Hv. apply List.in_map_iff in Hv as (v' & <- & _).
  pose proof (tanh_range v'). lra.
Qed.

Lemma blocks_sum_snoc blocks rb x :
  blocks_sum (blocks ++ [rb]) x
  = Some (match blocks_sum blocks x with
          | None => rb x
          | Some s => tadd3 s (rb x)
          end).
Proof.
  destruct blocks as [|rb0 rest]; simpl; [reflexivity|].
  now rewrite fold_left_app.
Qed.

Lemma firstn_skipn_S {A} (l : list A) (base k : nat) (a : A) :
  l !! (base + k)%nat = Some a ->
  firstn (S k) (skipn base l) = firstn k (skipn base l) ++ [a].
Proof.
  intros Hl.
  assert (Hs : skipn base l !! k = Some a) by now rewrite lookup_drop.
  clear Hl. revert Hs. generalize (skipn base l). clear l. intros l. revert l.
  induction k as [|k IH]; intros [|b l] Hs; try discriminate; simpl in *.
  - now injection Hs as ->.
  - f_equal. now apply IH.
Qed.

(** The loop over the kernels, over its first [k] rounds. *)
Lemma resblocks_rounds resblocks (base k : nat) x :
  fold_left
    (fun acc j =>
       x_source ← acc;
       rb ← py_index resblocks (base + j);
       Ok (Some (match x_source with
                 | None => rb x
                 | Some s => tadd3 s (rb x)
                 end)))
    (seq 0 k) (Ok None)
  = if decide (k = 0 \/ base + k <= length resblocks)%nat
    then Ok (blocks_sum (firstn k (skipn base resblocks)) x)
    else Raise IndexError.
Proof.
  induction k as [|k IH].
  - cbn [seq fold_left firstn]. case_decide as Hn; [reflexivity|].
    exfalso. apply Hn. now left.
  - rewrite seq_S, fold_left_app, IH. cbn [fold_left].
    destruct (decide (k = 0 \/ base + k <= length resblocks)%nat) as [Hk|Hk].
    + unfold py_index. cbn [mbind result_bind Nat.add].
      destruct (resblocks !! (base + k)%nat) as [rb|] eqn:Hrb.
      * apply lookup_lt_Some in Hrb as Hlt.
        case_decide as Hn; [|exfalso; apply Hn; right; lia].
        rewrite (firstn_skipn_S _ _ _ _ Hrb), blocks_sum_snoc. reflexivity.
      * apply lookup_ge_None in Hrb.
        case_decide as Hn; [|reflexivity]. lia.
    + cbn [mbind result_bind]. case_decide as Hn; [|reflexivity].
      exfalso. apply Hk. right. lia.
Qed.

Lemma resblocks_loop_spec resblocks (num_kernels i : nat) x :
  resblocks_loop resblocks num_kernels i x
  = if decide (num_kernels = 0 \/ i * num_kernels + num_kernels <= length resblocks)%nat
    then Ok (blocks_sum (stage_blocks resblocks num_kernels i) x)
    else Raise IndexError.
Proof. apply resblocks_rounds. Qed.

Lemma stage_blocks_length resblocks (num_kernels i : nat) :
  (num_kernels = 0 \/ i * num_kernels + num_kernels <= length resblocks)%nat ->
  length (stage_blocks resblocks num_kernels i) = num_kernels.
Proof.
  intros Hlen. unfold stage_blocks. rewrite length_firstn, length_skipn. lia.
Qed.

(** What a stage computes when it returns: the average of the outputs of
    its [num_kernels >= 1] residual blocks. *)
Lemma average_of_blocks resblocks (num_kernels i : nat) (u x' : Tensor3) :
  (x_source ← resblocks_loop resblocks num_kernels i u;
   average_blocks x_source num_kernels) = Ok x' ->
  (1 <= num_kernels)%nat
  /\ length (stage_blocks resblocks num_kernels i) = num_kernels
  /\ exists s, blocks_sum (stage_blocks resblocks num_kernels i) u = Some s
               /\ x' = tdiv_scalar s (INR num_kernels).
Proof.
  rewrite resblocks_loop_spec.
  destruct (decide _) as [Hlen|Hlen]; [|discriminate]. simpl.
  pose proof (stage_blocks_length _ _ _ Hlen) as Hl.
  destruct (blocks_sum _ u) as [s|] eqn:Hsum; simpl; [|discriminate].
  intros [= <-]. split; [|split; [exact Hl|eauto]].
  destruct (stage_blocks resblocks num_kernels i); [discriminate|]. simpl in Hl. lia.
Qed.

Section GeneratorClaims.
Context `{TorchRuntime} `{InferPack}.

Lemma Generator_stage_spec self i x x' :
  Generator_stage self i x = Ok x' ->
  exists up s,
    gn_ups self !! i = Some up
    /\ (1 <= gn_num_kernels self)%nat
    /\ length (stage_blocks (gn_resblocks self) (gn_num_kernels self) i)
       = gn_num_kernels self
    /\ blocks_sum (stage_blocks (gn_resblocks self) (gn_num_kernels self) i)
         (up (leaky_relu LRELU_SLOPE x)) = Some s
    /\ x' = tdiv_scalar s (INR (gn_num_kernels self)).
Proof.
  unfold Generator_stage, py_index. intros Hret.
  destruct (gn_ups self !! i) as [up|] eqn:Hup; [|discriminate]. simpl in Hret.
  apply average_of_blocks in Hret as (Hk & Hl & s & Hs & ->).
  exists up, s. repeat split; auto.
Qed.

Lemma GeneratorNSF_stage_spec self har_source i x x' :
  GeneratorNSF_stage self har_source i x = Ok x' ->
  exists up noise_conv s,
    nsf_ups self !! i = Some up
    /\ nsf_noise_convs self !! i = Some noise_conv
    /\ (1 <= nsf_num_kernels self)%nat
    /\ length (stage_blocks (nsf_resblocks self) (nsf_num_kernels self) i)
       = nsf_num_kernels self
    /\ blocks_sum (stage_blocks (nsf_resblocks self) (nsf_num_kernels self) i)
         (tadd3 (up (leaky_relu LRELU_SLOPE x)) (noise_conv har_source)) = Some s
    /\ x' = tdiv_scalar s (INR (nsf_num_kernels self)).
Proof.
  unfold GeneratorNSF_stage, py_index. intros Hret.
  destruct (nsf_ups self !! i) as [up|] eqn:Hup; [|discriminate]. simpl in Hret.
  destruct (nsf_noise_convs self !! i) as [nc|] eqn:Hnc; [|discriminate]. simpl in Hret.
  apply average_of_blocks in Hret as (Hk & Hl & s & Hs & ->).
  exists up, nc, s. repeat split; auto.
Qed.

(** A generator whose attributes fit together returns a waveform (given a
    conditioning layer when a speaker embedding is passed). *)
Lemma Generator_forward_returns self x g :
  Generator_fits self ->
  (g = None \/ is_Some (gn_cond self)) ->
  exists y, Generator_forward self x g = Ok y.
Proof.
  intros (Hups & Hblocks & Hk) Hg.
  unfold Generator_forward, Generator_body.
  assert (Hc : exists x0, add_cond (gn_cond self) (gn_conv_pre self x) g = Ok x0).
  { unfold add_cond. destruct g as [g|]; [|eauto].
    destruct Hg as [|[c ->]]; [discriminate|eauto]. }
  destruct Hc as (x0 & ->). simpl.
  assert (Hloop : forall n x0, (n <= gn_num_upsamples self)%nat ->
            exists x1, fold_left (fun acc i => x ← acc; Generator_stage self i x)
                         (seq 0 n) (Ok x0) = Ok x1).
  { induction n as [|n IH]; intros x1 Hn; [simpl; eauto|].
    rewrite seq_S, fold_left_app. destruct (IH x1) as (x2 & ->); [lia|]. simpl.
    unfold Generator_stage, py_index.
    destruct (gn_ups self !! n) as [up|] eqn:Hup;
      [|apply lookup_ge_None in Hup; lia]. simpl.
    rewrite resblocks_loop_spec.
    destruct (decide _) as [Hlen|Hlen]; [|exfalso; apply Hlen; right; nia]. simpl.
    pose proof (stage_blocks_length _ _ _ Hlen) as Hl.
    destruct (stage_blocks (gn_resblocks self) (gn_num_kernels self) n) eqn:Hb;
      [simpl in Hl; lia|]. simpl. eauto. }
  destruct (Hloop (gn_num_upsamples self) x0) as (x1 & ->); [lia|]. simpl. eauto.
Qed.

(** The loop over the stages, when it returns: the values of [x] after
    0, 1, ..., [n] passes. *)
Lemma stages_fold (stage : nat -> Tensor3 -> result Tensor3) (n : nat)
    (x0 x_last : Tensor3) :
  fold_left (fun acc i => x ← acc; stage i x) (seq 0 n) (Ok x0) = Ok x_last ->
  exists xs : nat -> Tensor3,
    xs 0%nat = x0 /\ xs n = x_last
    /\ forall i, (i < n)%nat -> stage i (xs i) = Ok (xs (S i)).
Proof.
  revert x_last. induction n as [|n IH]; intros x_last Hret.
  - injection Hret as <-. exists (fun _ => x0). repeat split. intros i Hi. lia.
  - rewrite seq_S, fold_left_app in Hret. cbn [fold_left Nat.add] in Hret.
    apply bind_Ok in Hret as (x' & Hprev & Hstage).
    destruct (IH _ Hprev) as (xs & Hx0 & Hn & Hsteps).
    exists (fun k => if (k <=? n)%nat then xs k else x_last).
    split; [exact Hx0|]. split.
    + destruct (Nat.leb_spec (S n) n); [lia|reflexivity].
    + intros i Hi. destruct (Nat.leb_spec i n); [|lia].
      destruct (Nat.leb_spec (S i) n).
      * apply Hsteps. lia.
      * assert (i = n) by lia. subst i. now rewrite Hn.
Qed.

(** Whenever the source module returns, it returns the tuple
    [(sine_merge, None, None)]. *)
Lemma SourceModuleHnNSF_forward_items (m : SourceModuleHnNSF) f0 upp gen ret :
  (SourceModuleHnNSF_forward m f0 upp gen).1.1 = Ok ret ->
  exists sine_merge, ret = [PyTensor sine_merge; PyNone; PyNone].
Proof.
  unfold SourceModuleHnNSF_forward.
  destruct (SineGen_forward _ _ _ _) as [r g1]. cbn [fst snd]. intros Hret.
  apply bind_Ok in Hret as (items & _ & Hret).
  apply bind_Ok in Hret as ([[sine_wavs uv] noise] & _ & Hret).
  apply bind_Ok in Hret as (sw & _ & Hret).
  injection Hret as <-. eauto.
Qed.

(** C5.  Every waveform [y] returned by [Generator.forward] and by
    [GeneratorNSF.forward] is the elementwise [tanh] of the final
    convolution, applied to the (leaky-rectified) output of the last
    upsampling stage; so every sample of [y] lies in [-1, 1].  The stages
    are chained: with [xs 0] the output of [conv_pre] (plus the
    conditioning) and [xs i] the value after [i] stages, stage [i] upsamples
    the leaky-rectified [xs i] with [ups[i]] (in [GeneratorNSF], adds
    [noise_convs[i]] of the transposed first item that the source module
    returned), applies the [num_kernels >= 1] residual blocks
    [resblocks[i * num_kernels + j]] to that one tensor, sums their outputs
    and divides the sum by [num_kernels]: that quotient is [xs (i + 1)].
    The same description holds of every single stage that completes, on
    any input. *)
Theorem C5_generator_output_in_unit_range :
  (forall (self : Generator) x g y,
     Generator_forward self x g = Ok y ->
     exists xs : nat -> Tensor3,
       add_cond (gn_cond self) (gn_conv_pre self x) g = Ok (xs 0%nat)
       /\ (forall i, (i < gn_num_upsamples self)%nat ->
             exists up s,
               gn_ups self !! i = Some up
               /\ (1 <= gn_num_kernels self)%nat
               /\ length (stage_blocks (gn_resblocks self) (gn_num_kernels self) i)
                  = gn_num_kernels self
               /\ blocks_sum (stage_blocks (gn_resblocks self) (gn_num_kernels self) i)
                    (up (leaky_relu LRELU_SLOPE (xs i))) = Some s
               /\ xs (S i) = tdiv_scalar s (INR (gn_num_kernels self)))
       /\ y = map3 tanh
                (gn_conv_post self (leaky_relu (1 / 100) (xs (gn_num_upsamples self))))
       /\ in_unit_range y)
  /\ (forall (self : GeneratorNSF) x f0 g gen y,
        (GeneratorNSF_forward self x f0 g gen).1.1 = Ok y ->
        exists (sine_merge : Tensor3) (xs : nat -> Tensor3),
          (SourceModuleHnNSF_forward (nsf_m_source self) f0 (nsf_upp self) gen).1.1
          = Ok [PyTensor sine_merge; PyNone; PyNone]
          /\ add_cond (nsf_cond self) (nsf_conv_pre self x) g = Ok (xs 0%nat)
          /\ (forall i, (i < nsf_num_upsamples self)%nat ->
                exists up noise_conv s,
                  nsf_ups self !! i = Some up
                  /\ nsf_noise_convs self !! i = Some noise_conv
                  /\ (1 <= nsf_num_kernels self)%nat
                  /\ length (stage_blocks (nsf_resblocks self) (nsf_num_kernels self) i)
                     = nsf_num_kernels self
                  /\ blocks_sum
                       (stage_blocks (nsf_resblocks self) (nsf_num_kernels self) i)
                       (tadd3 (up (leaky_relu LRELU_SLOPE (xs i)))
                              (noise_conv (transpose12 sine_merge))) = Some s
                  /\ xs (S i) = tdiv_scalar s (INR (nsf_num_kernels self)))
          /\ y = map3 tanh
                   (nsf_conv_post self
                      (leaky_relu (1 / 100) (xs (nsf_num_upsamples self))))
          /\ in_unit_range y)
  /\ (forall (self : Generator) i x x',
        Generator_stage self i x = Ok x' ->
        exists up s,
          gn_ups self !! i = Some up
          /\ (1 <= gn_num_kernels self)%nat
          /\ length (stage_blocks (gn_resblocks self) (gn_num_kernels self) i)
             = gn_num_kernels self
          /\ blocks_sum (stage_blocks (gn_resblocks self) (gn_num_kernels self) i)
               (up (leaky_relu LRELU_SLOPE x)) = Some s
          /\ x' = tdiv_scalar s (INR (gn_num_kernels self)))
  /\ (forall (self : GeneratorNSF) har_source i x x',
        GeneratorNSF_stage self har_source i x = Ok x' ->
        exists up noise_conv s,
          nsf_ups self !! i = Some up
          /\ nsf_noise_convs self !! i = Some noise_conv
          /\ (1 <= nsf_num_kernels self)%nat
          /\ length (stage_blocks (nsf_resblocks self) (nsf_num_kernels self) i)
             = nsf_num_kernels self
          /\ blocks_sum (stage_blocks (nsf_resblocks self) (nsf_num_kernels self) i)
               (tadd3 (up (leaky_relu LRELU_SLOPE x)) (noise_conv har_source)) = Some s
          /\ x' = tdiv_scalar s (INR (nsf_num_kernels self))).
Proof.
  split; [|split; [|split]].
  - intros self x g y Hret. unfold Generator_forward in Hret.
    apply bind_Ok in Hret as (x_last & Hbody & [= <-]).
    unfold Generator_body in Hbody.
    apply bind_Ok in Hbody as (x0 & Hpre & Hloop).
    apply stages_fold in Hloop as (xs & Hx0 & Hn & Hsteps). subst x0 x_last.
    exists xs. split; [exact Hpre|]. split; [|split; [reflexivity|]].
    + intros i Hi. apply Generator_stage_spec. now apply Hsteps.
    + apply map3_tanh_in_unit_range.
  - intros self x f0 g gen y. unfold GeneratorNSF_forward.
    pose proof (SourceModuleHnNSF_forward_items (nsf_m_source self) f0 (nsf_upp self) gen)
      as Hitems.
    destruct (SourceModuleHnNSF_forward _ _ _ _) as [[source m] gen']. cbn [fst snd] in *.
    intros Hret. apply bind_Ok in Hret as (x_last & Hbody & [= <-]).
    unfold GeneratorNSF_body in Hbody.
    apply bind_Ok in Hbody as (ret & -> & Hbody).
    destruct (Hitems ret eq_refl) as (sine_merge & ->).
    cbn [unpack3 as_tensor mbind result_bind] in Hbody.
    apply bind_Ok in Hbody as (x0 & Hpre & Hloop).
    apply stages_fold in Hloop as (xs & Hx0 & Hn & Hsteps). subst x0 x_last.
    exists sine_merge, xs. split; [reflexivity|]. split; [exact Hpre|].
    split; [|split; [reflexivity|]].
    + intros i Hi. apply (GeneratorNSF_stage_spec _ _ _ _ _ (Hsteps i Hi)).
    + apply map3_tanh_in_unit_range.
  - exact Generator_stage_spec.
  - exact GeneratorNSF_stage_spec.
Qed.

End GeneratorClaims.

(** The two generators of [Example] return waveforms: on each the one
    stage averages the two blocks [x] and [3 * x]. *)
Lemma C5_example_runs :
  (exists y, @Generator_forward Example.pack Example.generator [[[1; -2]]] None = Ok y
             /\ in_unit_range y
             /\ exists u, y = map3 tanh (leaky_relu (1 / 100)
                                           (tdiv_scalar (tadd3 u (tmul_scalar u 3)) (INR 2))))
  /\ (exists y, (@GeneratorNSF_forward Example.runtime Example.pack
                   (Example.generator_nsf None) [[[1; -2; 3]]] Example.nsff0
                   (Some [[[0]]]) 0%nat).1.1 = Ok y
                /\ in_unit_range y
                /\ exists u, y = map3 tanh (leaky_relu (1 / 100)
                                              (tdiv_scalar (tadd3 u (tmul_scalar u 3)) (INR 2)))).
Proof.
  split.
  - eexists. split; [reflexivity|].
    destruct (proj1 (@C5_generator_output_in_unit_range Example.runtime Example.pack)
                Example.generator [[[1; -2]]] None _ eq_refl)
      as (xs & _ & Hstage & Hy & Hrange).
    split; [exact Hrange|].
    destruct (Hstage 0%nat (le_n 1)) as (up & s & Hup & _ & _ & Hsum & Hnext).
    injection Hup as <-. injection Hsum as <-.
    eexists. rewrite Hy. cbn [Example.generator gn_num_upsamples gn_conv_post gn_num_kernels].
    rewrite Hnext. reflexivity.
  - eexists. split; [reflexivity|].
    destruct (proj1 (proj2 (@C5_generator_output_in_unit_range
                              Example.runtime Example.pack))
                (Example.generator_nsf None) [[[1; -2; 3]]] Example.nsff0
                (Some [[[0]]]) 0%nat _ eq_refl)
      as (sine_merge & xs & _ & _ & Hstage & Hy & Hrange).
    split; [exact Hrange|].
    destruct (Hstage 0%nat (le_n 1)) as (up & nc & s & Hup & Hnc & _ & _ & Hsum & Hnext).
    injection Hup as <-. injection Hnc as <-. injection Hsum as <-.
    eexists. rewrite Hy.
    cbn [Example.generator_nsf nsf_num_upsamples nsf_conv_post nsf_num_kernels].
    rewrite Hnext. reflexivity.
Defined.

(** ** Replacement of the HuBERT checkpoint *)

Module DownloadHubertFacts.
Import Fs DownloadHubert.

Lemma paths_differ : hubert_base_path <> tmp_model_path.
Proof. discriminate. Qed.

Lemma write_file_Ok (p : list string) (data : string) (fs fs1 : gmap (list string) node) :
  write_file p data fs = Ok fs1 ->
  fs1 = <[p := File data]> fs /\ isdir fs p = false /\ isdir fs (dirname p) = true.
Proof.
  unfold write_file. destruct (isdir fs p); [discriminate|].
  destruct (isdir fs (dirname p)); [|discriminate]. now intros [= <-].
Qed.

Lemma isdir_insert_file_ne (fs : gmap (list string) node) (p q : list string) (data : string) :
  p <> q -> isdir (<[p := File data]> fs) q = isdir fs q.
Proof.
  intros Hne. destruct q as [|c q]; [reflexivity|]. unfold isdir.
  now rewrite lookup_insert_ne.
Qed.

Lemma isdir_delete_ne (fs : gmap (list string) node) (p q : list string) :
  p <> q -> isdir (delete p fs) q = isdir fs q.
Proof.
  intros Hne. destruct q as [|c q]; [reflexivity|]. unfold isdir.
  now rewrite lookup_delete_ne.
Qed.

(** Once the download is complete: the installation fails only when
    [hubert_base.pt] is a directory, and then nothing is changed;
    otherwise the downloaded file takes the place of [hubert_base.pt]. *)
Lemma install_downloaded_spec (fs : gmap (list string) node) (data : string) :
  fs !! tmp_model_path = Some (File data) ->
  isdir fs rvc_models_dir = true ->
  match install_downloaded fs with
  | Raise _ => fs !! hubert_base_path = Some Dir
  | Ok fs2 =>
      fs !! hubert_base_path <> Some Dir
      /\ fs2 = <[hubert_base_path := File data]>
                 (delete tmp_model_path (delete hubert_base_path fs))
  end.
Proof.
  intros Htmp Hdir.
  assert (Hex : forall fs' : gmap (list string) node,
             exists_ fs' hubert_base_path
             = bool_decide (is_Some (fs' !! hubert_base_path))) by reflexivity.
  assert (Hisd : forall fs' : gmap (list string) node,
             isdir fs' hubert_base_path
             = bool_decide (fs' !! hubert_base_path = Some Dir)) by reflexivity.
  unfold install_downloaded. rewrite Hex. unfold remove.
  destruct (fs !! hubert_base_path) as [[old|]|] eqn:Hold.
  - rewrite bool_decide_eq_true_2 by eauto. cbn [mbind result_bind].
    unfold rename_file. rewrite lookup_delete_ne by apply paths_differ.
    rewrite Htmp, Hisd, lookup_delete_eq.
    rewrite bool_decide_eq_false_2 by discriminate.
    change (dirname hubert_base_path) with rvc_models_dir.
    rewrite isdir_delete_ne by discriminate. rewrite Hdir.
    split; [discriminate|reflexivity].
  - rewrite bool_decide_eq_true_2 by eauto. reflexivity.
  - rewrite bool_decide_eq_false_2 by (intros [x Hx]; discriminate).
    cbn [mbind result_bind]. unfold rename_file. rewrite Htmp, Hisd, Hold.
    rewrite bool_decide_eq_false_2 by discriminate.
    change (dirname hubert_base_path) with rvc_models_dir.
    rewrite Hdir. split; [discriminate|].
    now rewrite (delete_id fs hubert_base_path Hold).
Qed.

(** C9.  [download_and_replace_model] touches no path but [tmp_model.pt]
    and [hubert_base.pt].  The downloaded bytes are written to
    [tmp_model.pt]; whenever the call raises (in particular when opening
    the URL or reading the response raises) the installed [hubert_base.pt]
    is what it was before the call; when the call returns, the download
    was complete, [hubert_base.pt] holds exactly the downloaded bytes and
    [tmp_model.pt] is gone; and a complete download installs whenever the
    models directory exists and neither file name is taken by a
    directory. *)
Theorem C9_checkpoint_replaced_only_after_download
    (urlopen : string -> response) (model_desc : string) (fs : gmap (list string) node) :
  let out := download_and_replace_model urlopen model_desc fs in
  (forall p, p <> hubert_base_path -> p <> tmp_model_path -> out.2 !! p = fs !! p)
  /\ (forall e, out.1 = Raise e -> out.2 !! hubert_base_path = fs !! hubert_base_path)
  /\ (forall model_name received e,
        models !! model_desc = Some model_name ->
        urlopen (String.append base_url model_name) = Body received (Some e) ->
        isdir fs tmp_model_path = false -> isdir fs rvc_models_dir = true ->
        out.1 = Raise e /\ out.2 !! tmp_model_path = Some (File received))
  /\ (forall msg, out.1 = Ok msg ->
        exists model_name data,
          models !! model_desc = Some model_name
          /\ urlopen (String.append base_url model_name) = Body data None
          /\ out.2 !! hubert_base_path = Some (File data)
          /\ out.2 !! tmp_model_path = None)
  /\ (forall model_name data,
        models !! model_desc = Some model_name ->
        urlopen (String.append base_url model_name) = Body data None ->
        isdir fs rvc_models_dir = true ->
        isdir fs tmp_model_path = false ->
        isdir fs hubert_base_path = false ->
        is_ok out.1 = true).
Proof.
  assert (Hisd : forall (fs' : gmap (list string) node) p,
             p <> [] -> isdir fs' p = bool_decide (fs' !! p = Some Dir)).
  { intros fs' [|c p] Hp; [congruence|reflexivity]. }
  unfold download_and_replace_model.
  destruct (models !! model_desc) as [model_name|] eqn:Hname; cbn zeta.
  2:{ repeat split; intros; simplify_eq/=; congruence. }
  destruct (urlopen (String.append base_url model_name)) as [e0|received failure] eqn:Hnet.
  { repeat split; intros; simplify_eq/=; congruence. }
  destruct (write_file tmp_model_path received fs) as [fs1|e1] eqn:Hw.
  2:{ unfold write_file in Hw.
      repeat split; intros; simplify_eq; try (cbn [fst snd]; congruence).
      all: match goal with
           | Ht : isdir ?f tmp_model_path = false, Hd : isdir ?f rvc_models_dir = true |- _ =>
               rewrite Ht in Hw; change (dirname tmp_model_path) with rvc_models_dir in Hw;
               rewrite Hd in Hw; discriminate
           end. }
  apply write_file_Ok in Hw as (-> & Hnd & Hpd).
  change (dirname tmp_model_path) with rvc_models_dir in Hpd.
  destruct failure as [e|].
  { cbn [fst snd]. repeat split; intros; simplify_eq; try congruence.
    - now rewrite lookup_insert_ne.
    - rewrite lookup_insert_ne; [reflexivity|]. apply not_eq_sym, paths_differ.
    - replace received0 with received by congruence. apply lookup_insert_eq. }
  pose proof (install_downloaded_spec (<[tmp_model_path := File received]> fs) received
                (lookup_insert_eq _ _ _)) as Hinst.
  rewrite isdir_insert_file_ne in Hinst by discriminate.
  specialize (Hinst Hpd).
  destruct (install_downloaded _) as [fs2|e2]; cbn [fst snd].
  - destruct Hinst as (Hold & ->).
    repeat split; intros; simplify_eq; try congruence.
    + rewrite lookup_insert_ne by congruence.
      rewrite lookup_delete_ne by congruence. rewrite lookup_delete_ne by congruence.
      now rewrite lookup_insert_ne by congruence.
    + exists model_name, received. repeat split; auto.
      * apply lookup_insert_eq.
      * rewrite lookup_insert_ne by apply paths_differ. apply lookup_delete_eq.
  - rewrite lookup_insert_ne in Hinst by (apply not_eq_sym, paths_differ).
    repeat split; intros; simplify_eq; try congruence.
    + now rewrite lookup_insert_ne.
    + rewrite lookup_insert_ne; [reflexivity|]. apply not_eq_sym, paths_differ.
    + exfalso.
      match goal with
      | Hh : isdir ?f hubert_base_path = false |- _ =>
          rewrite Hisd in Hh by discriminate;
          apply bool_decide_eq_false_1 in Hh; exact (Hh Hinst)
      end.
Qed.

(** C9, an instance: the connection breaks after half of the download; the
    installed checkpoint is what it was, and the half is in
    [tmp_model.pt]. *)
Lemma C9_example_interrupted_download :
  let fs : gmap (list string) node :=
    list_to_map [(rvc_models_dir, Dir); (hubert_base_path, File "installed")] in
  let urlopen := fun _ : string => Body "half" (Some (OSError "Connection reset by peer")) in
  let out := download_and_replace_model urlopen "Стандарт" fs in
  out.1 = Raise (OSError "Connection reset by peer")
  /\ out.2 !! hubert_base_path = Some (File "installed")
  /\ out.2 !! tmp_model_path = Some (File "half").
Proof.
  intros fs urlopen out.
  pose proof (C9_checkpoint_replaced_only_after_download urlopen "Стандарт" fs) as Hc.
  cbn zeta in Hc. destruct Hc as (_ & Hraise & Hpartial & _).
  destruct (Hpartial "hubert_base.pt" "half" (OSError "Connection reset by peer"))
    as [Hout Htmp]; try (vm_compute; reflexivity).
  split; [exact Hout|]. split; [|exact Htmp].
  unfold out. rewrite (Hraise _ Hout). vm_compute. reflexivity.
Defined.

End DownloadHubertFacts.

(** ** Installation of voice models *)

Module ModelManagementFacts.
Import Fs Os ModelManagement.

(** *** Names *)

Lemma append_cons (x : Ascii.ascii) (a b : string) :
  String.append (String x a) b = String x (String.append a b).
Proof. reflexivity. Qed.

Lemma append_snoc (a : string) (c : Ascii.ascii) (s : string) :
  String.append (String.append a (String c EmptyString)) s = String.append a (String c s).
Proof.
  induction a as [|x a IH]; [reflexivity|]. rewrite !append_cons. now f_equal.
Qed.

Lemma append_empty (a : string) : String.append a EmptyString = a.
Proof.
  induction a as [|x a IH]; [reflexivity|]. rewrite !append_cons. now f_equal.
Qed.

Lemma length_append (a b : string) :
  String.length (String.append a b) = (String.length a + String.length b)%nat.
Proof.
  induction a as [|x a IH]; [reflexivity|]. rewrite append_cons.
  cbn [String.length]. now rewrite IH.
Qed.

Lemma components_from_no_sep (s cur : string) :
  no_sep s = true -> components_from cur s = [String.append cur s].
Proof.
  revert cur. induction s as [|c s IH]; intros cur Hs; simpl in *.
  - now rewrite append_empty.
  - apply andb_prop in Hs as [Hc Hs]. apply negb_true_iff in Hc. rewrite Hc.
    rewrite IH by exact Hs. now rewrite append_snoc.
Qed.

Lemma no_sep_append (a b : string) :
  no_sep (String.append a b) = no_sep a && no_sep b.
Proof.
  induction a as [|x a IH]; [reflexivity|]. rewrite append_cons.
  cbn [no_sep]. rewrite IH. apply andb_assoc.
Qed.

Lemma special_false (c : string) :
  special c = false ->
  String.eqb c EmptyString = false /\ String.eqb c "." = false /\ String.eqb c ".." = false.
Proof.
  unfold special. intros Hs.
  apply orb_false_elim in Hs as [Hs Hdd]. apply orb_false_elim in Hs as [He Hd]. auto.
Qed.

(** A plain name is one piece of a path, and joining it to a directory
    appends it. *)
Lemma path_join_plain (a : list string) (s : string) :
  plain_name s = true -> path_join a s = a ++ [s].
Proof.
  unfold plain_name, path_join. intros Hp. apply andb_prop in Hp as [_ Hs].
  assert (Habs : isabs s = false).
  { destruct s as [|c s]; [reflexivity|]. simpl in *.
    apply andb_prop in Hs as [Hc _]. now apply negb_true_iff in Hc. }
  rewrite Habs. unfold components. now rewrite components_from_no_sep.
Qed.

Lemma plain_name_special (s : string) : plain_name s = true -> special s = false.
Proof.
  unfold plain_name. intros Hp. apply andb_prop in Hp as [Hs _].
  now apply negb_true_iff in Hs.
Qed.

(** So is the name of its archive. *)
Lemma plain_name_zip (s : string) :
  plain_name s = true -> plain_name (String.append s ".zip") = true.
Proof.
  unfold plain_name. intros Hp. apply andb_prop in Hp as [_ Hs].
  apply andb_true_intro. split.
  - apply negb_true_iff. unfold special.
    assert (Hlen : forall t : string, (String.length t < 4)%nat ->
                     String.eqb (String.append s ".zip") t = false).
    { intros t Ht. apply String.eqb_neq. intros E.
      apply (f_equal String.length) in E. rewrite length_append in E. simpl in E. lia. }
    rewrite !Hlen by (simpl; lia). reflexivity.
  - rewrite no_sep_append, Hs. reflexivity.
Qed.

(** *** Paths of names *)

Lemma plain_path_app (a b : list string) :
  plain_path (a ++ b) = plain_path a && plain_path b.
Proof. apply forallb_app. Qed.

Lemma plain_path_removelast (p : list string) :
  plain_path p = true -> plain_path (removelast p) = true.
Proof.
  induction p as [|c p _] using rev_ind; [reflexivity|].
  rewrite removelast_last, plain_path_app. intros Hp.
  now apply andb_prop in Hp as [Hp _].
Qed.

Lemma rstrip_sep_plain (p : list string) : plain_path p = true -> rstrip_sep p = p.
Proof.
  induction p as [|c p IH]; [reflexivity|]. cbn [plain_path forallb]. intros Hp.
  apply andb_prop in Hp as [Hc Hp]. apply negb_true_iff, special_false in Hc as (Hc & _).
  cbn [rstrip_sep]. rewrite (IH Hp). destruct p; [now rewrite Hc|reflexivity].
Qed.

Lemma makedirs_split_plain (name : list string) :
  plain_path name = true ->
  makedirs_split name = (removelast name, List.last name EmptyString).
Proof.
  intros Hp. unfold makedirs_split, path_split.
  induction name as [|c name _] using rev_ind; [reflexivity|].
  rewrite removelast_last, last_last. cbn [fst snd].
  rewrite plain_path_app in Hp. apply andb_prop in Hp as [Hp Hc].
  cbn [plain_path forallb] in Hc. rewrite andb_true_r in Hc.
  apply negb_true_iff, special_false in Hc as (Hc & _).
  rewrite Hc. now rewrite rstrip_sep_plain.
Qed.

Lemma normpath_from_plain (p acc : list string) :
  plain_path p = true ->
  fold_left
    (fun acc c =>
       if String.eqb c EmptyString || String.eqb c "." then acc
       else if String.eqb c ".." then removelast acc
       else acc ++ [c])
    p acc = acc ++ p.
Proof.
  revert acc. induction p as [|c p IH]; intros acc Hp; cbn [fold_left].
  - now rewrite app_nil_r.
  - cbn [plain_path forallb] in Hp. apply andb_prop in Hp as [Hc Hp].
    apply negb_true_iff, special_false in Hc as (He & Hd & Hdd).
    rewrite He, Hd, Hdd. cbn [orb]. rewrite (IH _ Hp). now rewrite <- app_assoc.
Qed.

Lemma normpath_plain (p : list string) : plain_path p = true -> normpath p = p.
Proof. intros Hp. unfold normpath. now rewrite normpath_from_plain. Qed.

(** A path of names leads nowhere but to itself. *)
Lemma resolve_from_plain (fs : gmap (list string) node) (raw cur p : list string) :
  plain_path raw = true -> resolve_from fs cur raw = Some p -> p = cur ++ raw.
Proof.
  revert cur. induction raw as [|c raw IH]; intros cur Hp Hr; cbn [resolve_from] in Hr.
  - injection Hr as <-. now rewrite app_nil_r.
  - cbn [plain_path forallb] in Hp. apply andb_prop in Hp as [Hc Hp].
    apply negb_true_iff, special_false in Hc as (He & Hd & Hdd).
    rewrite He, Hd, Hdd in Hr. destruct (isdir fs cur); [|discriminate].
    rewrite (IH _ Hp Hr). now rewrite <- app_assoc.
Qed.

Lemma resolve_path_plain (fs : gmap (list string) node) (raw p : list string) :
  plain_path raw = true -> resolve_path fs raw = Some p -> p = raw.
Proof. intros Hp Hr. now apply resolve_from_plain in Hr. Qed.

Lemma resolve_from_app (fs : gmap (list string) node) (a b cur : list string) :
  resolve_from fs cur (a ++ b)
  = match resolve_from fs cur a with
    | Some q => resolve_from fs q b
    | None => None
    end.
Proof.
  revert cur. induction a as [|c a IH]; intros cur; cbn [resolve_from app]; [reflexivity|].
  destruct (String.eqb c EmptyString); [apply IH|].
  destruct (isdir fs cur); [|reflexivity].
  destruct (String.eqb c ".."); [apply IH|].
  destruct (String.eqb c "."); apply IH.
Qed.

(** It leads to itself when the directories on the way exist. *)
Lemma resolve_from_dirs (fs : gmap (list string) node) (raw cur : list string) :
  plain_path raw = true ->
  (forall k, (k < length raw)%nat -> isdir fs (cur ++ take k raw) = true) ->
  resolve_from fs cur raw = Some (cur ++ raw).
Proof.
  revert cur. induction raw as [|c raw IH]; intros cur Hp Hd; cbn [resolve_from].
  - now rewrite app_nil_r.
  - cbn [plain_path forallb] in Hp. apply andb_prop in Hp as [Hc Hp].
    apply negb_true_iff, special_false in Hc as (He & Hdot & Hdd).
    rewrite He, Hdot, Hdd.
    pose proof (Hd 0%nat ltac:(simpl; lia)) as H0. cbn [take] in H0.
    rewrite app_nil_r in H0. rewrite H0.
    rewrite IH; [now rewrite <- app_assoc|exact Hp|].
    intros k Hk. rewrite <- app_assoc. apply (Hd (S k)). simpl. lia.
Qed.

Lemma removelast_prefix (l : list string) : removelast l `prefix_of` l.
Proof.
  induction l as [|c l _] using rev_ind; [reflexivity|].
  rewrite removelast_last. now exists [c].
Qed.

(** *** Trees *)

Lemma well_formed_spec (fs : gmap (list string) node) (p : list string) (n : node) :
  well_formed fs = true -> fs !! p = Some n -> isdir fs (dirname p) = true.
Proof.
  unfold well_formed. intros Hw Hl.
  apply (proj1 (forallb_forall _ _) Hw (p, n)).
  apply list_elem_of_In, elem_of_map_to_list. exact Hl.
Qed.

Lemma isdir_true_lookup (fs : gmap (list string) node) (p : list string) :
  p <> [] -> isdir fs p = true -> fs !! p = Some Dir.
Proof.
  destruct p as [|c p]; [congruence|]. intros _ Hb. now apply bool_decide_eq_true_1 in Hb.
Qed.

(** In a well-formed tree the directories on the way to an entry exist. *)
Lemma well_formed_prefixes (fs : gmap (list string) node) (p : list string) (n : node) :
  well_formed fs = true -> fs !! p = Some n ->
  forall k, (k < length p)%nat -> isdir fs (take k p) = true.
Proof.
  intros Hw. revert n.
  induction p as [|c p IH] using rev_ind; intros n Hl k Hk; [simpl in Hk; lia|].
  pose proof (well_formed_spec _ _ _ Hw Hl) as Hd.
  unfold dirname in Hd. rewrite removelast_last in Hd.
  rewrite length_app in Hk. simpl in Hk.
  destruct (decide (k = length p)) as [->|Hne].
  - now rewrite take_app_length.
  - rewrite take_app_le by lia.
    assert (Hp : p <> []) by (intros ->; simpl in *; lia).
    apply (IH Dir); [now apply isdir_true_lookup|lia].
Qed.

Lemma well_formed_resolve (fs : gmap (list string) node) (p : list string) (n : node) :
  well_formed fs = true -> plain_path p = true -> fs !! p = Some n ->
  resolve_path fs p = Some p.
Proof.
  intros Hw Hp Hl. unfold resolve_path.
  rewrite resolve_from_dirs; [reflexivity|exact Hp|].
  intros k Hk. cbn [app]. eapply well_formed_prefixes; eauto.
Qed.

(** *** What the file-system calls touch *)

Lemma kept_outside_refl (F Z : list string -> Prop) (fs : gmap (list string) node) :
  kept_outside F Z fs fs.
Proof. intros p _. now left. Qed.

Lemma kept_outside_trans (F Z : list string -> Prop) (fs1 fs2 fs3 : gmap (list string) node) :
  kept_outside F Z fs1 fs2 -> kept_outside F Z fs2 fs3 -> kept_outside F Z fs1 fs3.
Proof.
  intros H12 H23 p Hp.
  destruct (H12 p Hp) as [E12|[HZ Hd]]; [|now right].
  destruct (H23 p Hp) as [E23|[HZ Hd]].
  - left. congruence.
  - right. split; [exact HZ|]. now rewrite <- E12.
Qed.

Lemma kept_outside_weaken (F Z Z' : list string -> Prop) (fs fs' : gmap (list string) node) :
  (forall p, Z p -> Z' p) -> kept_outside F Z fs fs' -> kept_outside F Z' fs fs'.
Proof.
  intros HZ Hk p Hp. destruct (Hk p Hp) as [E|[Hz Hd]]; [now left|right; auto].
Qed.

Lemma isdir_lookup (fs : gmap (list string) node) (p : list string) :
  isdir fs p = false -> fs !! p <> Some Dir.
Proof.
  destruct p as [|c p]; [discriminate|]. unfold isdir.
  intros Hb. now apply bool_decide_eq_false_1 in Hb.
Qed.

Lemma kept_write_file (F Z : list string -> Prop) (p : list string) (data : string)
    (fs fs' : gmap (list string) node) :
  F p \/ Z p ->
  write_file p data fs = Ok fs' -> kept_outside F Z fs fs'.
Proof.
  intros HFZ Hw. unfold write_file in Hw.
  destruct (isdir fs p) eqn:Hd; [discriminate|].
  destruct (isdir fs (dirname p)); [|discriminate]. injection Hw as <-.
  intros q Hq. destruct (decide (p = q)) as [<-|Hne].
  - right. destruct HFZ as [HF|HZ]; [contradiction|].
    split; [exact HZ|now apply isdir_lookup].
  - left. now rewrite lookup_insert_ne.
Qed.

Lemma kept_remove (F Z : list string -> Prop) (p : list string)
    (fs fs' : gmap (list string) node) :
  F p \/ Z p ->
  remove p fs = Ok fs' -> kept_outside F Z fs fs'.
Proof.
  intros HFZ Hr. unfold remove in Hr.
  destruct (fs !! p) as [[data|]|] eqn:Hp; try discriminate. injection Hr as <-.
  intros q Hq. destruct (decide (p = q)) as [<-|Hne].
  - right. destruct HFZ as [HF|HZ]; [contradiction|].
    split; [exact HZ|]. rewrite Hp. discriminate.
  - left. now rewrite lookup_delete_ne.
Qed.

Lemma kept_rename_file (F Z : list string -> Prop) (src dst : list string)
    (fs fs' : gmap (list string) node) :
  F src -> F dst ->
  rename_file src dst fs = Ok fs' -> kept_outside F Z fs fs'.
Proof.
  intros Hs Hd Hr. unfold rename_file in Hr.
  destruct (fs !! src) as [[data|]|]; try discriminate.
  destruct (isdir fs dst); [discriminate|].
  destruct (isdir fs (dirname dst)); [|discriminate]. injection Hr as <-.
  intros q Hq. left.
  rewrite lookup_insert_ne by (intros ->; contradiction).
  rewrite lookup_delete_ne by (intros ->; contradiction). reflexivity.
Qed.

Lemma kept_rmtree (F Z : list string -> Prop) (d : list string) (fs : gmap (list string) node) :
  (forall q, under d q -> F q) -> kept_outside F Z fs (rmtree d fs).
Proof.
  intros HF q Hq. left. unfold rmtree.
  destruct (fs !! q) as [n|] eqn:Hl.
  - apply map_lookup_filter_Some. split; [exact Hl|]. simpl. intros Hu. apply Hq, HF, Hu.
  - apply map_lookup_filter_None. left. exact Hl.
Qed.

Lemma kept_mkdir (F Z : list string -> Prop) (p : list string)
    (fs fs' : gmap (list string) node) :
  F p -> mkdir p fs = Ok fs' -> kept_outside F Z fs fs'.
Proof.
  intros HF Hm. unfold mkdir in Hm.
  destruct (exists_ fs p); [discriminate|].
  destruct (isdir fs (dirname p)); [|discriminate]. injection Hm as <-.
  intros q Hq. left. rewrite lookup_insert_ne; [reflexivity|].
  intros ->. contradiction.
Qed.

(** A call on a path as written touches what the call touches at the
    place the path leads to. *)
Lemma kept_at_path (F Z : list string -> Prop) (raw : list string)
    (call : list string -> gmap (list string) node -> result (gmap (list string) node))
    (fs fs' : gmap (list string) node) :
  (forall p, resolve_path fs raw = Some p -> call p fs = Ok fs' -> kept_outside F Z fs fs') ->
  at_path raw call fs = Ok fs' -> kept_outside F Z fs fs'.
Proof.
  unfold at_path. intros Hcall Hr.
  destruct (resolve_path fs raw) as [p|]; [|discriminate]. now apply (Hcall p).
Qed.

(** *** The folder and the way to it *)

Lemma under_on_the_way (folder p : list string) : under folder p -> on_the_way folder p.
Proof. now left. Qed.

Lemma under_app (folder rel : list string) : under folder (folder ++ rel).
Proof. now exists rel. Qed.

Lemma under_trans (a b c : list string) : under a b -> under b c -> under a c.
Proof. unfold under. intros Hab Hbc. now transitivity b. Qed.

Lemma prefix_of_app_on_the_way (folder rel q : list string) :
  q `prefix_of` (folder ++ rel) -> on_the_way folder q.
Proof.
  intros [k Hk]. unfold on_the_way, under.
  destruct (decide (length q <= length folder)%nat) as [Hle|Hgt].
  - right. exists (drop (length q) folder).
    rewrite <- (take_drop (length q) folder) at 1. f_equal.
    apply (f_equal (take (length q))) in Hk.
    rewrite take_app_le in Hk by exact Hle.
    rewrite take_app_length in Hk. exact Hk.
  - left. exists (take (length q - length folder) rel).
    apply (f_equal (take (length q))) in Hk.
    rewrite take_app_length in Hk.
    rewrite take_app_ge in Hk by lia. now symmetry.
Qed.

(** A path of names below the folder leads into the folder. *)
Lemma resolve_below_folder (fs : gmap (list string) node) (folder rel p : list string) :
  plain_path folder = true -> plain_path rel = true ->
  resolve_path fs (folder ++ rel) = Some p -> on_the_way folder p.
Proof.
  intros Hf Hrel Hr. apply resolve_path_plain in Hr.
  - subst p. apply under_on_the_way, under_app.
  - now rewrite plain_path_app, Hf, Hrel.
Qed.

(** The folder followed by one more piece, whatever it is, leads into the
    folder, to the folder or to its parent. *)
Lemma resolve_last_on_the_way (fs : gmap (list string) node) (folder : list string)
    (c : string) (p : list string) :
  plain_path folder = true ->
  resolve_path fs (folder ++ [c]) = Some p -> on_the_way folder p.
Proof.
  intros Hf. unfold resolve_path. rewrite resolve_from_app.
  destruct (resolve_from fs [] folder) as [q|] eqn:Hq; [|discriminate].
  apply resolve_from_plain in Hq; [|exact Hf]. cbn [app] in Hq. subst q.
  cbn [resolve_from].
  destruct (String.eqb c EmptyString).
  { intros [= <-]. apply under_on_the_way. now exists []; rewrite app_nil_r. }
  destruct (isdir fs folder); [|discriminate].
  destruct (String.eqb c "..").
  { intros [= <-]. right. apply removelast_prefix. }
  destruct (String.eqb c ".").
  { intros [= <-]. apply under_on_the_way. now exists []; rewrite app_nil_r. }
  intros [= <-]. apply under_on_the_way, under_app.
Qed.

(** *** Making directories *)

Lemma rstrip_sep_length (p : list string) : (length (rstrip_sep p) <= length p)%nat.
Proof.
  induction p as [|c p IH]; [reflexivity|]. cbn [rstrip_sep].
  destruct (rstrip_sep p) as [|r rs]; [destruct (String.eqb c EmptyString)|];
    simpl in *; lia.
Qed.

Lemma removelast_shorter (p : list string) : (length (removelast p) <= length p)%nat.
Proof.
  induction p as [|c p _] using rev_ind; [reflexivity|].
  rewrite removelast_last, length_app. lia.
Qed.

(** The head that [makedirs] descends to is shorter than the path. *)
Lemma makedirs_split_shorter (name : list string) :
  (makedirs_split name).2 <> EmptyString ->
  (length (makedirs_split name).1 < length name)%nat.
Proof.
  unfold makedirs_split, path_split. cbn [fst snd].
  induction name as [|c name _] using rev_ind; [intros Ht; now contradiction Ht|].
  rewrite removelast_last, last_last, length_app. cbn [length].
  pose proof (rstrip_sep_length name) as Hs.
  destruct (String.eqb c EmptyString); cbn [fst snd]; intros _; [|lia].
  pose proof (rstrip_sep_length (removelast (rstrip_sep name))) as Hs'.
  pose proof (removelast_shorter (rstrip_sep name)) as Hr. lia.
Qed.

(** So [makedirs] never runs out of nested calls: more of them change
    nothing. *)
Lemma makedirs_fuel_enough (exist_ok : bool) (n : nat) :
  forall (name : list string) (fs : gmap (list string) node) (fuel fuel' : nat),
    (length name <= n)%nat -> (n <= fuel)%nat -> (n <= fuel')%nat ->
    makedirs_fuel fuel exist_ok name fs = makedirs_fuel fuel' exist_ok name fs.
Proof.
  induction n as [|n IH]; intros name fs fuel fuel' Hlen Hf Hf'.
  - destruct name; [|simpl in Hlen; lia]. destruct fuel, fuel'; reflexivity.
  - destruct fuel as [|fuel]; [lia|]. destruct fuel' as [|fuel']; [lia|].
    cbn [makedirs_fuel].
    destruct (String.eqb (makedirs_split name).2 EmptyString) eqn:Ht; [reflexivity|].
    apply String.eqb_neq, makedirs_split_shorter in Ht.
    cbn [negb andb].
    destruct (negb (path_exists fs (makedirs_split name).1)); [|reflexivity].
    rewrite (IH (makedirs_split name).1 fs fuel fuel') by lia. reflexivity.
Qed.

Lemma makedirs_more_fuel (exist_ok : bool) (name : list string)
    (fs : gmap (list string) node) (k : nat) :
  makedirs_fuel (length name + k) exist_ok name fs = makedirs exist_ok name fs.
Proof. apply (makedirs_fuel_enough exist_ok (length name)); lia. Qed.

Section Makedirs.
Context (F Z : list string -> Prop) (exist_ok : bool).

Lemma kept_mkdir_exist_ok (name : list string) (fs : gmap (list string) node) :
  plain_path name = true -> F name ->
  kept_outside F Z fs (mkdir_exist_ok exist_ok name fs).2.
Proof.
  intros Hp HF. unfold mkdir_exist_ok.
  destruct (at_path name mkdir fs) as [fs'|e] eqn:Hm; cbn [snd].
  - revert Hm. apply kept_at_path. intros p Hr Hm.
    apply resolve_path_plain in Hr; [|exact Hp]. subst p. now apply kept_mkdir with name.
  - destruct (exist_ok && path_isdir fs name); apply kept_outside_refl.
Qed.

(** [makedirs] of a path of names makes directories on that path only. *)
Lemma kept_makedirs_fuel (fuel : nat) (name : list string) (fs : gmap (list string) node) :
  plain_path name = true ->
  (forall q, q `prefix_of` name -> F q) ->
  kept_outside F Z fs (makedirs_fuel fuel exist_ok name fs).2.
Proof.
  revert name fs. induction fuel as [|fuel IH]; intros name fs Hp HF;
    cbn [makedirs_fuel]; rewrite (makedirs_split_plain _ Hp); cbn [fst snd];
    destruct (negb _ && negb _);
    try (apply kept_mkdir_exist_ok; [exact Hp|now apply HF]);
    try apply kept_outside_refl.
  assert (Hhead : kept_outside F Z fs
                    (makedirs_fuel fuel exist_ok (removelast name) fs).2).
  { apply IH; [now apply plain_path_removelast|].
    intros q Hq. apply HF. transitivity (removelast name); [exact Hq|apply removelast_prefix]. }
  destruct (match (makedirs_fuel fuel exist_ok (removelast name) fs).1 with
            | Ok _ => true
            | Raise e => is_FileExistsError e
            end); [|exact Hhead].
  destruct (String.eqb _ "."); [exact Hhead|].
  eapply kept_outside_trans; [exact Hhead|].
  apply kept_mkdir_exist_ok; [exact Hp|now apply HF].
Qed.

Lemma kept_makedirs (name : list string) (fs : gmap (list string) node) :
  plain_path name = true ->
  (forall q, q `prefix_of` name -> F q) ->
  kept_outside F Z fs (makedirs exist_ok name fs).2.
Proof. apply kept_makedirs_fuel. Qed.

End Makedirs.

(** *** What the computations touch *)

Section Keeps.
Context (F Z : list string -> Prop).

Lemma keeps_ret {A} (a : A) : keeps F Z (mret a).
Proof. intros w. apply kept_outside_refl. Qed.

Lemma keeps_raise {A} (e : exn) : keeps F Z (@raise A e).
Proof. intros w. apply kept_outside_refl. Qed.

Lemma keeps_lift_result {A} (r : result A) : keeps F Z (lift_result r).
Proof. intros w. apply kept_outside_refl. Qed.

Lemma keeps_get_fs : keeps F Z get_fs.
Proof. intros w. apply kept_outside_refl. Qed.

Lemma keeps_progress (q : Q) (desc : string) : keeps F Z (progress q desc).
Proof. intros w. apply kept_outside_refl. Qed.

Lemma keeps_bind {A B} (c : M A) (f : A -> M B) :
  keeps F Z c -> (forall a, keeps F Z (f a)) -> keeps F Z (c ≫= f).
Proof.
  intros Hc Hf w. unfold mbind, M_bind. specialize (Hc w).
  destruct (c w) as [[a|e] w1]; simpl in *; [|exact Hc].
  eapply kept_outside_trans; [exact Hc|apply Hf].
Qed.

Lemma keeps_lift_fs (f : gmap (list string) node -> result (gmap (list string) node)) :
  (forall fs fs', f fs = Ok fs' -> kept_outside F Z fs fs') -> keeps F Z (lift_fs f).
Proof.
  intros Hf w. unfold lift_fs. destruct (f (w_fs w)) as [fs'|e] eqn:Hr; simpl.
  - now apply Hf.
  - apply kept_outside_refl.
Qed.

Lemma keeps_lift_st (f : gmap (list string) node -> result unit * gmap (list string) node) :
  (forall fs, kept_outside F Z fs (f fs).2) -> keeps F Z (lift_st f).
Proof. intros Hf w. apply Hf. Qed.

Lemma keeps_bind_result {A B} (r : result A) (f : A -> M B) :
  (forall a, r = Ok a -> keeps F Z (f a)) -> keeps F Z (lift_result r ≫= f).
Proof.
  intros Hf w. unfold mbind, M_bind, lift_result.
  destruct r as [a|e]; [now apply Hf|apply kept_outside_refl].
Qed.

Lemma keeps_for_each {A} (l : list A) (body : A -> M unit) :
  (forall a, a ∈ l -> keeps F Z (body a)) -> keeps F Z (for_each l body).
Proof.
  induction l as [|a l IH]; intros Hb; simpl.
  - apply keeps_ret.
  - apply keeps_bind; [apply Hb; now left|intros _].
    apply IH. intros b Hin. apply Hb. now right.
Qed.

Lemma keeps_reraise {A} (c : M A) : keeps F Z c -> keeps F Z (reraise_as_gr_error c).
Proof.
  intros Hc w. unfold reraise_as_gr_error. specialize (Hc w).
  destruct (c w) as [[a|e] w1]; exact Hc.
Qed.

End Keeps.

(** *** The archive extraction *)

Lemma walk_files_under (d : list string) (fs : gmap (list string) node)
    (p : list string) (n : nat) :
  (p, n) ∈ walk_files d fs -> under d p.
Proof.
  unfold walk_files. destruct (isdir fs d); [|intros Hin; now apply elem_of_nil in Hin].
  intros Hin.
  apply list_elem_of_omap in Hin as ([q nd] & _ & Hq). simpl in Hq.
  destruct nd as [data|]; [|discriminate].
  destruct (bool_decide (under d q)) eqn:Hu; [|discriminate].
  injection Hq as <- _. now apply bool_decide_eq_true_1 in Hu.
Qed.

Lemma walk_under (folder : list string) (fs : gmap (list string) node)
    (p : list string) (n : nat) :
  plain_path folder = true -> (p, n) ∈ walk folder fs -> under folder p.
Proof.
  intros Hf. unfold walk.
  destruct (resolve_path fs folder) as [d|] eqn:Hr;
    [|intros Hin; now apply elem_of_nil in Hin].
  apply resolve_path_plain in Hr; [|exact Hf]. subst d. apply walk_files_under.
Qed.

Lemma pick_files_from (files : list (list string * nat)) (p : list string) :
  (pick_files files).1 = Some p \/ (pick_files files).2 = Some p ->
  exists n, (p, n) ∈ files.
Proof.
  unfold pick_files.
  induction files as [|[q n] files IH] using rev_ind; [intros [|]; discriminate|].
  rewrite fold_left_app. cbn [fold_left fst snd].
  set (acc := fold_left _ files (None, None)) in *.
  intros Hp.
  assert (Hcase : q = p \/ (acc.1 = Some p \/ acc.2 = Some p)).
  { destruct Hp as [Hp|Hp].
    - destruct (endswith (basename q) ".index" && Nat.ltb (1024 * 100) n);
        [left; congruence|right; now left].
    - destruct (endswith (basename q) ".pth" && Nat.ltb (1024 * 1024 * 40) n);
        [left; congruence|right; now right]. }
  destruct Hcase as [->|Hacc].
  - exists n. apply elem_of_app. right. apply list_elem_of_singleton. reflexivity.
  - destruct (IH Hacc) as (m & Hm). exists m. apply elem_of_app. now left.
Qed.

Lemma subdirs_under (d : list string) (fs : gmap (list string) node) (d' : list string) :
  d' ∈ subdirs d fs -> under d d'.
Proof.
  unfold subdirs. intros Hin.
  apply list_elem_of_omap in Hin as ([q nd] & _ & Hq). simpl in Hq.
  destruct nd as [data|]; [discriminate|].
  destruct (bool_decide (dirname q = d /\ q <> [])) eqn:Hb; [|discriminate].
  injection Hq as <-. apply bool_decide_eq_true_1 in Hb as (<- & Hne).
  unfold under, dirname. exists [List.last q EmptyString].
  now apply app_removelast_last.
Qed.

Lemma listdir_dirs_under (folder : list string) (fs : gmap (list string) node)
    (dirs : list (list string)) (d : list string) :
  plain_path folder = true ->
  listdir_dirs folder fs = Ok dirs -> d ∈ dirs -> under folder d.
Proof.
  intros Hf. unfold listdir_dirs, at_path.
  destruct (resolve_path fs folder) as [q|] eqn:Hr; [|discriminate].
  apply resolve_path_plain in Hr; [|exact Hf]. subst q.
  destruct (isdir fs folder); [|discriminate]. intros [= <-]. apply subdirs_under.
Qed.

Section OperationsKeep.
Context `{Services}.

(** Writing to a path changes the place it leads to. *)
Lemma keeps_open_write (F Z : list string -> Prop) (target : list string) (data : string) :
  (forall p, leads_to target p -> F p \/ Z p) ->
  keeps F Z (open_write target data).
Proof.
  intros Hto. unfold open_write. apply keeps_lift_fs. intros fs fs'.
  apply kept_at_path. intros p Hr. apply kept_write_file. apply Hto. now exists fs.
Qed.

Lemma keeps_save (F : list string -> Prop) (f : fetched) (target : list string) :
  keeps F (leads_to target) (save f target).
Proof.
  destruct f as [data|e]; simpl.
  - apply keeps_open_write. now right.
  - apply keeps_raise.
Qed.

(** [download_file] writes nothing but the target file. *)
Lemma keeps_download_file (F : list string -> Prop) (url : string) (zip_name : list string) :
  keeps F (leads_to zip_name) (download_file url zip_name).
Proof.
  unfold download_file.
  repeat match goal with
         | |- keeps _ _ (if ?b then _ else _) => destruct b
         | |- keeps _ _ (match ?o with Some _ => _ | None => _ end) => destruct o
         | |- keeps _ _ (_ ≫= _) => apply keeps_bind; [|intros ?]
         | |- keeps _ _ (progress _ _) => apply keeps_progress
         | |- keeps _ _ (lift_result _) => apply keeps_lift_result
         | |- keeps _ _ (save _ _) => apply keeps_save
         | |- keeps _ _ (raise _) => apply keeps_raise
         | |- keeps _ _ (mret _) => apply keeps_ret
         | |- keeps _ _ (open_write _ _) => apply keeps_open_write; now right
         end.
Qed.

Lemma keeps_extract_member (folder : list string) (Z : list string -> Prop)
    (member : string * string) :
  plain_path folder = true ->
  keeps (on_the_way folder) Z (extract_member folder member).
Proof.
  intros Hf. unfold extract_member.
  set (arcname := List.filter (fun x => negb (special x)) (components member.1)).
  assert (Harc : plain_path arcname = true).
  { apply forallb_forall. intros c Hc. now apply filter_In in Hc as [_ Hc]. }
  assert (Hall : plain_path (folder ++ arcname) = true)
    by (now rewrite plain_path_app, Hf, Harc).
  rewrite (normpath_plain _ Hall).
  assert (Hto : forall fs p, resolve_path fs (folder ++ arcname) = Some p ->
                             on_the_way folder p).
  { intros fs p. now apply resolve_below_folder. }
  apply keeps_bind; [apply keeps_get_fs|]. intros fs.
  apply keeps_bind.
  { destruct (path_exists fs _); [apply keeps_ret|].
    apply keeps_lift_st. intros fs1. apply kept_makedirs.
    - now apply plain_path_removelast.
    - intros q Hq. apply prefix_of_app_on_the_way with arcname.
      transitivity (dirname (folder ++ arcname)); [exact Hq|apply removelast_prefix]. }
  intros _. destruct (endswith _ _).
  - apply keeps_bind; [apply keeps_get_fs|]. intros fs1.
    destruct (path_isdir _ _); [apply keeps_ret|].
    apply keeps_lift_fs. intros fs2 fs3. apply kept_at_path. intros p Hr.
    apply kept_mkdir. now apply (Hto fs2).
  - apply keeps_open_write. intros p [fs1 Hr]. left. now apply (Hto fs1).
Qed.

(** [extract_zip] changes nothing outside the extraction folder (and the
    directories on the way to it) but the archive, which it deletes. *)
Lemma keeps_extract_zip (folder zip_name : list string) :
  plain_path folder = true ->
  keeps (on_the_way folder) (leads_to zip_name) (extract_zip folder zip_name).
Proof.
  intros Hf. unfold extract_zip.
  apply keeps_bind.
  { apply keeps_lift_st. intros fs. apply kept_makedirs; [exact Hf|].
    intros q Hq. right. exact Hq. }
  intros _. apply keeps_bind; [apply keeps_get_fs|]. intros fs.
  apply keeps_bind; [apply keeps_lift_result|]. intros data.
  apply keeps_bind.
  { destruct (zip_members data); [apply keeps_ret|apply keeps_raise]. }
  intros members. apply keeps_bind.
  { apply keeps_for_each. intros m _. now apply keeps_extract_member. }
  intros _. apply keeps_bind.
  { apply keeps_lift_fs. intros fs1 fs2. apply kept_at_path. intros p Hr.
    apply kept_remove. right. now exists fs1. }
  intros _. apply keeps_bind; [apply keeps_get_fs|]. intros fs1.
  pose proof (pick_files_from (walk folder fs1)) as Hpick.
  destruct (pick_files (walk folder fs1)) as [index_filepath model_filepath].
  cbn [fst snd] in Hpick.
  destruct model_filepath as [model_filepath|]; [|apply keeps_raise].
  assert (Hin : forall p, index_filepath = Some p \/ Some model_filepath = Some p ->
                          on_the_way folder p).
  { intros p Hp. destruct (Hpick p Hp) as (n & Hn).
    apply under_on_the_way. eapply walk_under; [exact Hf|exact Hn]. }
  apply keeps_bind.
  { apply keeps_lift_fs. intros fs2 fs3. apply kept_at_path. intros p Hr.
    apply kept_rename_file.
    - apply Hin. now right.
    - eapply resolve_last_on_the_way; [exact Hf|exact Hr]. }
  intros _. apply keeps_bind.
  { destruct index_filepath as [index_filepath|]; [|apply keeps_ret].
    apply keeps_lift_fs. intros fs2 fs3. apply kept_at_path. intros p Hr.
    apply kept_rename_file.
    - apply Hin. now left.
    - eapply resolve_last_on_the_way; [exact Hf|exact Hr]. }
  intros _. apply keeps_bind; [apply keeps_get_fs|]. intros fs2.
  apply keeps_bind_result. intros dirs Hdirs.
  apply keeps_for_each. intros d Hd.
  apply keeps_lift_fs. intros fs3 fs4 [= <-]. apply kept_rmtree.
  intros q Hq. apply under_on_the_way. eapply under_trans; [|exact Hq].
  now apply (listdir_dirs_under folder fs2 dirs).
Qed.

Lemma keeps_copyfile (folder : list string) (Z : list string -> Prop)
    (src : list string) (name : string) :
  plain_path folder = true ->
  keeps (on_the_way folder) Z (copyfile src (folder ++ [name])).
Proof.
  intros Hf. unfold copyfile. apply keeps_bind; [apply keeps_get_fs|]. intros fs.
  destruct (samefile fs src _); [apply keeps_raise|].
  apply keeps_bind; [apply keeps_lift_result|]. intros data.
  apply keeps_open_write. intros p [fs1 Hr]. left.
  eapply resolve_last_on_the_way; [exact Hf|exact Hr].
Qed.

Lemma plain_path_rvc_models_dir :
  plain_path getcwd = true -> plain_path rvc_models_dir = true.
Proof. intros Hc. unfold rvc_models_dir. now rewrite plain_path_app, Hc. Qed.

Lemma plain_path_folder (dir_name : string) :
  plain_path getcwd = true -> plain_name dir_name = true ->
  plain_path (rvc_models_dir ++ [dir_name]) = true.
Proof.
  intros Hc Hn. rewrite plain_path_app, plain_path_rvc_models_dir by exact Hc.
  cbn [plain_path forallb andb]. now rewrite (plain_name_special _ Hn).
Qed.

Lemma keeps_download_from_url (url dir_name : string) :
  plain_path getcwd = true -> plain_name dir_name = true ->
  keeps (on_the_way (rvc_models_dir ++ [dir_name]))
    (leads_to (rvc_models_dir ++ [String.append dir_name ".zip"]))
    (download_from_url url dir_name).
Proof.
  intros Hc Hn. unfold download_from_url.
  rewrite !path_join_plain by auto using plain_name_zip.
  apply keeps_reraise.
  apply keeps_bind; [apply keeps_progress|]. intros _.
  apply keeps_bind; [apply keeps_get_fs|]. intros fs.
  destruct (path_exists fs _); [apply keeps_raise|].
  apply keeps_bind; [apply keeps_download_file|]. intros _.
  apply keeps_bind; [apply keeps_progress|]. intros _.
  apply keeps_bind; [apply keeps_extract_zip; now apply plain_path_folder|].
  intros _. apply keeps_ret.
Qed.

Lemma keeps_upload_zip_model (zip_path : option (list string)) (dir_name : string) :
  plain_path getcwd = true -> plain_name dir_name = true ->
  keeps (on_the_way (rvc_models_dir ++ [dir_name]))
    (fun p => exists zip_name, zip_path = Some zip_name /\ leads_to zip_name p)
    (upload_zip_model zip_path dir_name).
Proof.
  intros Hc Hn. unfold upload_zip_model.
  rewrite !path_join_plain by exact Hn.
  apply keeps_reraise.
  apply keeps_bind; [apply keeps_get_fs|]. intros fs.
  destruct (path_exists fs _); [apply keeps_raise|].
  destruct zip_path as [zip_name|].
  - assert (Hk : keeps (on_the_way (rvc_models_dir ++ [dir_name])) (leads_to zip_name)
                   (progress 0.8 "[~] Распаковка zip-файла..." ≫= fun _ =>
                    extract_zip (rvc_models_dir ++ [dir_name]) zip_name ≫= fun _ =>
                    mret (loaded dir_name))).
    { apply keeps_bind; [apply keeps_progress|]. intros _.
      apply keeps_bind; [apply keeps_extract_zip; now apply plain_path_folder|].
      intros _. apply keeps_ret. }
    intros w. eapply kept_outside_weaken; [|exact (Hk w)].
    intros p Hp. now exists zip_name.
  - intros w. apply kept_outside_refl.
Qed.

Lemma keeps_upload_separate_files (pth_file index_file : option (list string))
    (dir_name : string) :
  plain_path getcwd = true -> plain_name dir_name = true ->
  keeps (on_the_way (rvc_models_dir ++ [dir_name])) (fun _ => False)
    (upload_separate_files pth_file index_file dir_name).
Proof.
  intros Hc Hn. unfold upload_separate_files.
  rewrite !path_join_plain by exact Hn.
  pose proof (plain_path_folder _ Hc Hn) as Hf.
  apply keeps_reraise.
  apply keeps_bind; [apply keeps_get_fs|]. intros fs.
  destruct (path_exists fs _); [apply keeps_raise|].
  apply keeps_bind.
  { apply keeps_lift_st. intros fs1. apply kept_makedirs; [exact Hf|].
    intros q Hq. right. exact Hq. }
  intros _. apply keeps_bind.
  { destruct pth_file; [now apply keeps_copyfile|apply keeps_ret]. }
  intros _. apply keeps_bind; [|intros _; apply keeps_ret].
  destruct index_file; [now apply keeps_copyfile|apply keeps_ret].
Qed.

(** *** A name that is taken *)

Lemma download_from_url_exists (url dir_name : string) (w : world) :
  path_exists (w_fs w) (path_join rvc_models_dir dir_name) = true ->
  download_from_url url dir_name w
  = (Raise (GrError (already_exists dir_name)),
     {| w_fs := w_fs w;
        w_log := w_log w
                 ++ [Progress 0 (String.append "[~] Загрузка голосовой модели с именем "
                                   (String.append dir_name "..."))] |}).
Proof.
  intros Hex. unfold download_from_url, reraise_as_gr_error, mbind, M_bind,
    progress, get_fs, raise.
  cbn [w_fs w_log]. now rewrite Hex.
Qed.

Lemma upload_zip_model_exists (zip_path : option (list string)) (dir_name : string)
    (w : world) :
  path_exists (w_fs w) (path_join rvc_models_dir dir_name) = true ->
  upload_zip_model zip_path dir_name w = (Raise (GrError (already_exists dir_name)), w).
Proof.
  intros Hex. unfold upload_zip_model, reraise_as_gr_error, mbind, M_bind, get_fs, raise.
  now rewrite Hex.
Qed.

Lemma upload_separate_files_exists (pth_file index_file : option (list string))
    (dir_name : string) (w : world) :
  path_exists (w_fs w) (path_join rvc_models_dir dir_name) = true ->
  upload_separate_files pth_file index_file dir_name w
  = (Raise (GrError (already_exists dir_name)), w).
Proof.
  intros Hex. unfold upload_separate_files, reraise_as_gr_error, mbind, M_bind,
    get_fs, raise.
  now rewrite Hex.
Qed.

(** *** Installed models *)

(** A path inside the installed directory of another name is neither in
    the requested folder nor on the way to it. *)
Lemma installed_not_on_the_way (base : list string) (name dir_name : string)
    (p : list string) :
  name <> dir_name ->
  under (base ++ [name]) p ->
  ~ on_the_way (base ++ [dir_name]) p.
Proof.
  intros Hne [k ->] [[k' Hk']|[k' Hk']];
    rewrite <- !app_assoc in Hk'; apply app_inv_head in Hk';
    injection Hk' as Hn _; now apply Hne.
Qed.

(** In a well-formed tree, a plain name whose directory is installed is
    seen as taken. *)
Lemma installed_path_exists (fs : gmap (list string) node) (dir_name : string) (n : node) :
  well_formed fs = true -> plain_path getcwd = true -> plain_name dir_name = true ->
  fs !! (rvc_models_dir ++ [dir_name]) = Some n ->
  path_exists fs (rvc_models_dir ++ [dir_name]) = true.
Proof.
  intros Hw Hc Hn Hl. unfold path_exists.
  rewrite (well_formed_resolve fs _ n Hw (plain_path_folder _ Hc Hn) Hl).
  unfold exists_. destruct (rvc_models_dir ++ [dir_name]); [reflexivity|].
  apply bool_decide_eq_true_2. now exists n.
Qed.

(** C10, as amended.  Each of [download_from_url], [upload_zip_model] and
    [upload_separate_files], called with a name whose path below the
    models directory exists, raises the error "already exists" and leaves
    the file system exactly as it was: nothing is downloaded, made or
    written.  The check comes first in the two upload operations;
    [download_from_url] has reported progress 0 to the user interface by
    then.  And when the requested name is a plain name (one piece of a
    path, neither empty nor [.] nor [..]), in a well-formed tree, no run
    of the three operations changes anything that lies in an installed
    model directory, whatever the name; the one exception is the
    uploaded archive of [upload_zip_model] should it lie there, which
    that operation deletes after the extraction. *)
Theorem C10_taken_name_refused_plain_name_keeps_models
    (url dir_name : string) (zip_path pth_file index_file : option (list string))
    (w : world) :
  (path_exists (w_fs w) (path_join rvc_models_dir dir_name) = true ->
   download_from_url url dir_name w
   = (Raise (GrError (already_exists dir_name)),
      {| w_fs := w_fs w;
         w_log := w_log w
                  ++ [Progress 0 (String.append "[~] Загрузка голосовой модели с именем "
                                    (String.append dir_name "..."))] |})
   /\ upload_zip_model zip_path dir_name w
      = (Raise (GrError (already_exists dir_name)), w)
   /\ upload_separate_files pth_file index_file dir_name w
      = (Raise (GrError (already_exists dir_name)), w))
  /\ (plain_name dir_name = true ->
      plain_path getcwd = true ->
      well_formed (w_fs w) = true ->
      forall (name : string) (p : list string),
        w_fs w !! (rvc_models_dir ++ [name]) = Some Dir ->
        under (rvc_models_dir ++ [name]) p ->
        w_fs (download_from_url url dir_name w).2 !! p = w_fs w !! p
        /\ (w_fs (upload_zip_model zip_path dir_name w).2 !! p = w_fs w !! p
            \/ exists zip_name, zip_path = Some zip_name /\ leads_to zip_name p)
        /\ w_fs (upload_separate_files pth_file index_file dir_name w).2 !! p
           = w_fs w !! p).
Proof.
  split.
  { intros Hex. split; [|split].
    - now apply download_from_url_exists.
    - now apply upload_zip_model_exists.
    - now apply upload_separate_files_exists. }
  intros Hn Hc Hw name p Hinst Hunder.
  destruct (path_exists (w_fs w) (path_join rvc_models_dir dir_name)) eqn:Hex.
  { rewrite download_from_url_exists, upload_zip_model_exists,
      upload_separate_files_exists by exact Hex. cbn [snd w_fs]. auto. }
  assert (Hne : name <> dir_name).
  { intros ->. rewrite path_join_plain in Hex by exact Hn.
    rewrite (installed_path_exists _ _ Dir) in Hex by assumption. discriminate. }
  pose proof (installed_not_on_the_way _ _ _ _ Hne Hunder) as Hout.
  split; [|split].
  - destruct (keeps_download_from_url url dir_name Hc Hn w p Hout) as [Heq|[Hz Hd]];
      [exact Heq|].
    exfalso. destruct Hz as [fs0 Hr].
    apply resolve_path_plain in Hr;
      [|apply plain_path_folder; [exact Hc|now apply plain_name_zip]].
    subst p. destruct Hunder as [k Hk].
    rewrite <- app_assoc in Hk. apply app_inv_head in Hk.
    injection Hk as Hzip Hk. apply Hd. now rewrite Hzip.
  - destruct (keeps_upload_zip_model zip_path dir_name Hc Hn w p Hout) as [Heq|[Hz Hd]];
      [now left|now right].
  - destruct (keeps_upload_separate_files pth_file index_file dir_name Hc Hn w p Hout)
      as [Heq|[[] Hd]]. exact Heq.
Qed.

End OperationsKeep.

(** C10, an instance: in the example installation the name [victim] is
    taken, and a call with it is refused with nothing changed. *)
Lemma C10_example_taken_name :
  @upload_separate_files ExampleModels.services
    (Some ExampleModels.uploaded) None "victim" ExampleModels.world0
  = (Raise (GrError (already_exists "victim")), ExampleModels.world0)
  /\ w_fs (@download_from_url ExampleModels.services
             "https://huggingface.co/voice.zip" "victim" ExampleModels.world0).2
     !! ExampleModels.victim_model
     = Some (File "old weights").
Proof.
  destruct (@C10_taken_name_refused_plain_name_keeps_models ExampleModels.services
              "https://huggingface.co/voice.zip" "victim"
              None (Some ExampleModels.uploaded) None ExampleModels.world0)
    as [Htaken Hkept].
  split.
  - apply Htaken. vm_compute. reflexivity.
  - assert (Hu : under (@rvc_models_dir ExampleModels.services ++ ["victim"])
                   ExampleModels.victim_model) by (now exists ["model.pth"]).
    rewrite (proj1 (Hkept eq_refl eq_refl eq_refl "victim" ExampleModels.victim_model
                      eq_refl Hu)).
    reflexivity.
Defined.

(** A name that is free is installed, and the installed model stays as it
    is. *)
Lemma fresh_name_is_installed :
  let out := @upload_separate_files ExampleModels.services
               (Some ExampleModels.uploaded) None "fresh" ExampleModels.world0 in
  out.1 = Ok (loaded "fresh")
  /\ w_fs out.2 !! (ExampleModels.models_dir ++ ["fresh"; "model.pth"])
     = Some (File "new weights")
  /\ w_fs out.2 !! ExampleModels.victim_model = Some (File "old weights").
Proof. vm_compute. repeat split. Qed.

(** C10, as it was stated, fails in two ways.  The check is not the first
    thing [download_from_url] does: with the taken name [victim] it has
    called the progress callback before it raises.  And a name that is not
    plain can pass the check while its folder is an installed one:
    [x/../victim] does not exist as long as [x] does not, [makedirs] then
    makes [x], and the uploaded checkpoint is written over the one that
    the model [victim] had. *)
Lemma C10_counterexample_progress_first_and_traversal :
  w_log ExampleModels.world0 = []
  /\ w_log (@download_from_url ExampleModels.services
              "https://huggingface.co/voice.zip" "victim" ExampleModels.world0).2
     = [Progress 0 "[~] Загрузка голосовой модели с именем victim..."]
  /\ let out := @upload_separate_files ExampleModels.services
                  (Some ExampleModels.uploaded) None "x/../victim"
                  ExampleModels.world0 in
     w_fs ExampleModels.world0 !! (ExampleModels.models_dir ++ ["victim"]) = Some Dir
     /\ w_fs ExampleModels.world0 !! ExampleModels.victim_model = Some (File "old weights")
     /\ path_exists (w_fs ExampleModels.world0)
          (path_join (@rvc_models_dir ExampleModels.services) "x/../victim") = false
     /\ out.1 = Ok (loaded "x/../victim")
     /\ w_fs out.2 !! ExampleModels.victim_model = Some (File "new weights").
Proof. vm_compute. repeat split. Qed.

End ModelManagementFacts.
(** ** [SineGen.forward] *)

Lemma map_map_tab3 {A C} (g : list A -> C) (B T D : nat) (F : nat -> nat -> nat -> A) :
  map (map g) (tab3 B T D F) = tab2 B T (fun b t => g (tab1 D (F b t))).
Proof.
  unfold tab3, tab2. rewrite tab1_map. apply tab1_ext. intros b _. apply tab1_map.
Qed.

Lemma get_column_tab3 (j B T D : nat) (F : nat -> nat -> nat -> R) :
  (j < D)%nat -> get_column j (tab3 B T D F) = tab2 B T (fun b t => F b t j).
Proof.
  intros Hj. unfold get_column. rewrite map_map_tab3.
  apply tab2_ext. intros b t _ _. now apply tab1_nth.
Qed.

Lemma set_column_tab3 (j B T D : nat) (col : nat -> nat -> R) (F : nat -> nat -> nat -> R) :
  set_column j (tab2 B T col) (tab3 B T D F)
  = tab3 B T D (fun b t h => if Nat.eqb h j then col b t else F b t h).
Proof.
  unfold set_column, tab3, tab2. rewrite tab1_zip_with. apply tab1_ext. intros b _.
  rewrite tab1_zip_with. apply tab1_ext. intros t _. apply tab1_insert.
Qed.

Section SineGenStages.
Variable self : SineGen.
Variables B T upp : nat.
Variable f : nat -> nat -> R.
Hypothesis Hdim : sg_dim self = (sg_harmonic_num self + 1)%nat.

(** The input after [f0[:, None].transpose(1, 2)]. *)
Let f03 : Tensor3 := tab3 B T 1 (fun b t _ => f b t).

(** The frequency of harmonic [h] (counted from 0) is [h + 1] times the
    fundamental. *)
Lemma SineGen_f0_buf_tab :
  SineGen_f0_buf self f03
  = tab3 B T (sg_dim self) (fun b t h => f b t * INR (h + 1)).
Proof.
  unfold SineGen_f0_buf, f03.
  assert (Hzeros : map (map (fun _ : list R => repeat 0 (sg_dim self)))
                     (tab3 B T 1 (fun b t _ => f b t))
                   = tab3 B T (sg_dim self) (fun _ _ _ => 0)).
  { rewrite map_map_tab3. apply tab2_ext. intros b t _ _. apply repeat_tab1. }
  rewrite Hzeros. rewrite get_column_tab3 by lia. rewrite set_column_tab3.
  assert (Hloop : forall k, (k <= sg_harmonic_num self)%nat ->
            fold_left
              (fun buf idx =>
                 set_column (idx + 1)
                   (map (map (fun v => v * INR (idx + 2))) (get_column 0 buf)) buf)
              (seq 0 k)
              (tab3 B T (sg_dim self) (fun b t h => if Nat.eqb h 0 then f b t else 0))
            = tab3 B T (sg_dim self)
                (fun b t h => if Nat.leb h k then f b t * INR (h + 1) else 0)).
  { induction k as [|k IH]; intros Hk.
    - simpl. apply tab3_ext. intros b t h _ _ _.
      destruct h as [|h]; simpl; lra.
    - rewrite seq_S, fold_left_app, IH by lia. cbn [fold_left Nat.add].
      rewrite get_column_tab3 by lia.
      assert (Hcol : map (map (fun v => v * INR (k + 2)))
                       (tab2 B T (fun b t =>
                          if Nat.leb 0 k then f b t * INR (0 + 1) else 0))
                     = tab2 B T (fun b t => f b t * INR (k + 2))).
      { unfold tab2. rewrite tab1_map. apply tab1_ext. intros b _.
        rewrite tab1_map. apply tab1_ext. intros t _. simpl. lra. }
      rewrite Hcol, set_column_tab3. apply tab3_ext. intros b t h _ _ _.
      destruct (Nat.eqb_spec h (k + 1)) as [->|Hne].
      + rewrite (proj2 (Nat.leb_le _ _)) by lia.
        replace (k + 1 + 1)%nat with (k + 2)%nat by lia. reflexivity.
      + destruct (Nat.leb_spec h k), (Nat.leb_spec h (S k)); try lia; reflexivity. }
  rewrite Hloop by lia. apply tab3_ext. intros b t h _ _ Hh.
  rewrite (proj2 (Nat.leb_le _ _)) by lia. reflexivity.
Qed.

Hypothesis HT : (1 <= T)%nat.
Hypothesis Hupp : (1 <= upp)%nat.

(** The number of output samples. *)
Let L : nat := (T * upp)%nat.

Lemma dim_pos : (1 <= sg_dim self)%nat.
Proof. rewrite Hdim. lia. Qed.

(** The phase increments, with the initial phase added to the first frame:
    nothing for the fundamental, the draw [u b h] for harmonic [h >= 1]. *)
Lemma SineGen_rad_values_tab (u : nat -> nat -> R) :
  SineGen_rad_values self f03 (tab2 B (sg_dim self) u)
  = Ok (tab3 B T (sg_dim self)
          (fun b t h =>
             if Nat.eqb t 0
             then frac_part (f b 0%nat * INR (h + 1) / sg_sampling_rate self)
                  + (if Nat.eqb h 0 then 0 else u b h)
             else frac_part (f b t * INR (h + 1) / sg_sampling_rate self))).
Proof using Hdim HT.
  unfold SineGen_rad_values. rewrite SineGen_f0_buf_tab.
  unfold tmod1, tdiv_scalar. rewrite !map3_tab3.
  assert (Hini : zero_first_column (tab2 B (sg_dim self) u)
                 = tab2 B (sg_dim self) (fun b h => if Nat.eqb h 0 then 0 else u b h)).
  { unfold zero_first_column, tab2. rewrite tab1_map. apply tab1_ext. intros b _.
    apply tab1_insert. }
  rewrite Hini. unfold add_to_first_frame, tab3, tab2.
  rewrite tab1_zip_with. apply mapM_tab1. intros b _.
  assert (ET : T = S (T - 1)) by (clear - HT; lia).
  rewrite ET, !tab1_S, tab1_bcast. reflexivity.
Qed.

(** Nearest-neighbour upsampling: output sample [l] reads frame [l / upp]. *)
Lemma upsample_nearest_tab3 (D : nat) (F : nat -> nat -> nat -> R) :
  (1 <= D)%nat ->
  interpolate_time (interpolate_nearest upp) (tab3 B T D F)
  = tab3 B L D (fun b l h => F b (l / upp)%nat h).
Proof.
  intros HD.
  rewrite (interpolate_time_tab3 _ B T D L) by
    (try assumption; intros row <-; apply interpolate_nearest_length).
  apply tab3_ext. intros b l h _ Hl _.
  rewrite interpolate_nearest_tab1 by exact Hupp.
  rewrite tab1_nth by exact Hl. reflexivity.
Qed.

Section WithRad.
Variable Rad : nat -> nat -> nat -> R.
Let rad_values : Tensor3 := tab3 B T (sg_dim self) Rad.

Lemma SineGen_rad_upsampled_tab :
  SineGen_rad_upsampled rad_values upp
  = tab3 B L (sg_dim self) (fun b l h => frac_part (Rad b (l / upp)%nat h)).
Proof.
  unfold SineGen_rad_upsampled, rad_values, tmod1.
  rewrite upsample_nearest_tab3 by apply dim_pos. apply map3_tab3.
Qed.

Lemma SineGen_tmp_over_one_tab :
  SineGen_tmp_over_one rad_values upp = tab3 B L (sg_dim self) (tmp_entry upp T Rad).
Proof.
  unfold SineGen_tmp_over_one, rad_values, tmod1, tmul_scalar.
  rewrite cumsum_dim1_tab3, map3_tab3.
  rewrite (interpolate_time_tab3 _ B T (sg_dim self) L) by
    (try assumption; try apply dim_pos; intros row <-; apply interpolate_linear_length).
  apply map3_tab3.
Qed.

(** The wrap-around correction: nothing on the first sample; on a later
    sample, -1 when [tmp_over_one] has fallen from the sample before. *)
Lemma SineGen_cumsum_shift_tab :
  SineGen_cumsum_shift rad_values upp = tab3 B L (sg_dim self) (shift_entry upp T Rad).
Proof.
  unfold SineGen_cumsum_shift.
  rewrite SineGen_rad_upsampled_tab, SineGen_tmp_over_one_tab.
  unfold falls, shift_of_falls, tab3, tab2.
  rewrite tab1_map, tab1_zip_with. apply tab1_ext. intros b _.
  rewrite tab1_tail, tab1_removelast, tab1_zip_with.
  assert (HL : (1 <= L)%nat) by (unfold L; nia).
  destruct L as [|L']; [lia|]. rewrite (tab1_S L'). rewrite (tab1_S L' (fun l => tab1 _ _)).
  f_equal.
  - rewrite tab1_map. apply tab1_ext. reflexivity.
  - rewrite tab1_map. simpl. rewrite Nat.sub_0_r. apply tab1_ext. intros l _.
    rewrite tab1_zip_with, tab1_map. apply tab1_ext. intros h _.
    unfold shift_entry. simpl. rewrite Nat.sub_0_r.
    destruct (Rlt_dec _ 0); reflexivity.
Qed.

Lemma SineGen_sines_tab :
  SineGen_sines self rad_values upp
  = tab3 B L (sg_dim self)
      (fun b l h =>
         sin (sum_f_R0 (fun k => frac_part (Rad b (k / upp)%nat h) + shift_entry upp T Rad b k h) l
              * 2 * PI)
         * sg_sine_amp self).
Proof.
  unfold SineGen_sines.
  rewrite SineGen_rad_upsampled_tab, SineGen_cumsum_shift_tab.
  unfold tadd3, tmul_scalar. rewrite bcast3_tab3, cumsum_dim1_tab3, !map3_tab3.
  reflexivity.
Qed.

End WithRad.

(** The voiced flag of output sample [l] is that of frame [l / upp]. *)
Lemma SineGen_uv_tab :
  SineGen_uv self f03 upp
  = tab3 B L 1
      (fun b l _ =>
         1 * (if Rlt_dec (sg_voiced_threshold self) (f b (l / upp)%nat) then 1 else 0)).
Proof.
  unfold SineGen_uv, SineGen_f02uv, f03. rewrite map3_tab3.
  now rewrite upsample_nearest_tab3 by lia.
Qed.

End SineGenStages.


Section SineGenClaim.
Context `{TorchRuntime}.


(** C4.  For a pitch curve [f0] of shape [B, T] with at least one batch
    entry and one frame, and an upsampling factor [upp >= 1], with [sr] the
    sampling rate, [thr] the voiced threshold and [dim = harmonic_num + 1],
    [SineGen.forward] returns, and:
    - the phase increment of harmonic [h] (counted from 0) at frame [t] is
      the fractional part of [(h + 1) * f0 / sr]; on the first frame the
      initial phase is added to it, which is 0 for the fundamental and, for
      every higher harmonic, its own draw of [torch.rand] (draw number
      [b * dim + h]);
    - the increment of output sample [l] is that of frame [l / upp];
    - [tmp_over_one] at output sample [l] is the fractional part of the
      running sum of the increments over the frames, times [upp], resampled
      linearly (sample [l] sits at frame coordinate
      [l * (T - 1) / (T * upp - 1)]); the wrap-around correction is 0 on the
      first sample and, later, -1 exactly where [tmp_over_one] has fallen
      from the sample before;
    - the sines are [sin(2 * pi * S) * sine_amp] for [S] the running sum,
      up to the sample, of the increments plus corrections;
    - an output sample whose frame is voiced ([f0 > thr]) is the sine plus
      [noise_std] times its normal draw; one whose frame is not voiced
      ([f0 <= thr]) is [sine_amp / 3] times its normal draw, without any
      sine. *)
Theorem C4_sine_excitation (self : SineGen) (f0 : Tensor2) (upp B T : nat) (g : Gen) :
  sg_dim self = (sg_harmonic_num self + 1)%nat ->
  has_shape2 f0 B T ->
  (1 <= B)%nat ->
  (1 <= T)%nat ->
  (1 <= upp)%nat ->
  let dim := sg_dim self in
  let f0' := transpose12 (unsqueeze1 f0) in
  exists rad_values sine_waves uv noise,
    SineGen_rad_values self f0' (rand2 B dim g).1 = Ok rad_values
    /\ (SineGen_forward self f0 upp g).1
       = Ok [PyTensor sine_waves; PyTensor uv; PyTensor noise]
    /\ let rad_up := SineGen_rad_upsampled rad_values upp in
       let tmp_over_one := SineGen_tmp_over_one rad_values upp in
       let cumsum_shift := SineGen_cumsum_shift rad_values upp in
       let sines := SineGen_sines self rad_values upp in
       let draws := (randn_like sines (rand2 B dim g).2).1 in
       (forall b t h, (b < B)%nat -> (t < T)%nat -> (h < dim)%nat ->
          at3 rad_values b t h
          = frac_part (at2 f0 b t * INR (h + 1) / sg_sampling_rate self)
            + (if Nat.eqb t 0 && negb (Nat.eqb h 0)
               then nth_draw rand_next (b * dim + h) g else 0))
       /\ (forall b l h, (b < B)%nat -> (l < T * upp)%nat -> (h < dim)%nat ->
             at3 rad_up b l h = frac_part (at3 rad_values b (l / upp)%nat h)
             /\ at3 tmp_over_one b l h
                = (let num := (l * (T - 1))%nat in
                   let den := (T * upp - 1)%nat in
                   let i0 := (num / den)%nat in
                   let i1 := if (i0 <? T - 1)%nat then S i0 else i0 in
                   let lam := INR (num mod den) / INR den in
                   let scaled_sum := fun t =>
                     sum_f_R0 (fun k => at3 rad_values b k h) t * INR upp in
                   frac_part ((1 - lam) * scaled_sum i0 + lam * scaled_sum i1))
             /\ at3 cumsum_shift b l h
                = (if Nat.eqb l 0 then 0
                   else if Rlt_dec (at3 tmp_over_one b l h - at3 tmp_over_one b (l - 1) h) 0
                        then -1 else 0)
             /\ at3 sines b l h
                = sin (sum_f_R0 (fun k => at3 rad_up b k h + at3 cumsum_shift b k h) l
                       * 2 * PI)
                  * sg_sine_amp self
             /\ at3 uv b l 0
                = (if Rlt_dec (sg_voiced_threshold self) (at2 f0 b (l / upp)%nat)
                   then 1 else 0)
             /\ (sg_voiced_threshold self < at2 f0 b (l / upp)%nat ->
                 at3 sine_waves b l h
                 = at3 sines b l h + sg_noise_std self * at3 draws b l h)
             /\ (at2 f0 b (l / upp)%nat <= sg_voiced_threshold self ->
                 at3 sine_waves b l h = sg_sine_amp self / 3 * at3 draws b l h)).
Proof.
  intros Hdim Hshape _ HT Hupp dim f0'.
  (* tables *)
  pose proof (has_shape2_tab f0 B T 0 Hshape) as Ef0.
  set (f := fun b t => nth t (nth b f0 []) 0) in Ef0.
  assert (Ef03 : f0' = tab3 B T 1 (fun b t _ => f b t)).
  { unfold f0'. rewrite Ef0. apply unsqueeze_transpose_tab2. }
  set (Rad := fun b t h : nat =>
                if Nat.eqb t 0
                then frac_part (f b 0%nat * INR (h + 1) / sg_sampling_rate self)
                     + (if Nat.eqb h 0 then 0 else nth_draw rand_next (b * dim + h) g)
                else frac_part (f b t * INR (h + 1) / sg_sampling_rate self)).
  assert (Erad : SineGen_rad_values self f0' (rand2 B dim g).1 = Ok (tab3 B T dim Rad)).
  { rewrite Ef03, rand2_draws. cbn [fst]. now apply SineGen_rad_values_tab. }
  set (rad_values := tab3 B T dim Rad) in *.
  (* the outputs, by running the function *)
  assert (Hrun : exists sine_waves uv noise,
             (SineGen_forward self f0 upp g).1
             = Ok [PyTensor sine_waves; PyTensor uv; PyTensor noise]
             /\ uv = SineGen_uv self f0' upp
             /\ sine_waves
                = tadd3 (tmul3 (SineGen_sines self rad_values upp) uv)
                    (tmul3 (tadd3 (tmul_scalar uv (sg_noise_std self))
                              (tdiv_scalar
                                 (tmul_scalar (rsub_scalar 1 uv) (sg_sine_amp self)) 3))
                       (randn_like (SineGen_sines self rad_values upp)
                          (rand2 B dim g).2).1)).
  { unfold SineGen_forward. fold f0'.
    assert (Hsize : size0 f0' = B).
    { unfold f0', size0, transpose12, unsqueeze1. rewrite !length_map. apply Hshape. }
    rewrite Hsize. fold dim. revert Erad.
    destruct (rand2 B dim g) as [rand_ini g1]. cbn [fst snd]. intros ->.
    destruct (randn_like _ g1) as [n g2]. cbn [fst snd]. eauto 7. }
  destruct Hrun as (sine_waves & uv & noise & Hret & Huv & Hsw).
  exists rad_values, sine_waves, uv, noise.
  split; [exact Erad|]. split; [exact Hret|].
  intros rad_up tmp_over_one cumsum_shift sines draws. fold sines draws in Hsw.
  split.
  { intros b t h Hb Ht Hh. unfold rad_values. rewrite at3_tab3 by assumption.
    change (at2 f0 b t) with (f b t). unfold Rad.
    destruct (Nat.eqb_spec t 0) as [->|Hne]; simpl.
    - destruct (Nat.eqb h 0); simpl; reflexivity.
    - lra. }
  intros b l h Hb Hl Hh.
  assert (Hlu : (l / upp < T)%nat) by (apply Nat.Div0.div_lt_upper_bound; lia).
  assert (Eup : rad_up = tab3 B (T * upp) dim
                           (fun b l h => frac_part (Rad b (l / upp)%nat h))).
  { unfold rad_up, rad_values. now apply SineGen_rad_upsampled_tab. }
  assert (Etmp : tmp_over_one = tab3 B (T * upp) dim (tmp_entry upp T Rad)).
  { unfold tmp_over_one, rad_values. now apply SineGen_tmp_over_one_tab. }
  assert (Eshift : cumsum_shift = tab3 B (T * upp) dim (shift_entry upp T Rad)).
  { unfold cumsum_shift, rad_values. now apply SineGen_cumsum_shift_tab. }
  assert (Esin : sines
                 = tab3 B (T * upp) dim
                     (fun b l h =>
                        sin (sum_f_R0
                               (fun k => frac_part (Rad b (k / upp)%nat h)
                                         + shift_entry upp T Rad b k h) l * 2 * PI)
                        * sg_sine_amp self)).
  { unfold sines, rad_values. now apply SineGen_sines_tab. }
  assert (Euv : uv = tab3 B (T * upp) 1
                       (fun b l _ =>
                          1 * (if Rlt_dec (sg_voiced_threshold self) (f b (l / upp)%nat)
                               then 1 else 0))).
  { rewrite Huv, Ef03. now apply SineGen_uv_tab. }
  assert (Hdraws : has_shape3 draws B (T * upp) dim).
  { unfold draws. apply randn_like_shape. rewrite Esin. apply tab3_has_shape. }
  pose proof (has_shape3_tab draws B (T * upp) dim 0 Hdraws) as Edraws.
  set (N := fun b c t => nth t (nth c (nth b draws []) []) 0) in Edraws.
  assert (HN : forall b l h, at3 draws b l h = N b l h) by reflexivity.
  split; [|split; [|split; [|split; [|split; [|split]]]]].
  - rewrite Eup. unfold rad_values. rewrite !at3_tab3 by assumption. reflexivity.
  - rewrite Etmp, at3_tab3 by assumption. unfold tmp_entry.
    rewrite interpolate_linear_nth by exact Hl. cbn zeta.
    assert (Hi0 : (l * (T - 1) / (T * upp - 1) <= T - 1)%nat).
    { destruct (Nat.eq_dec (T * upp - 1)%nat 0%nat) as [->|Hden]; [simpl; lia|].
      transitivity ((T * upp - 1) * (T - 1) / (T * upp - 1))%nat.
      - apply Nat.Div0.div_le_mono. nia.
      - rewrite Nat.mul_comm, Nat.div_mul by exact Hden. lia. }
    assert (Hsum : forall t, (t < T)%nat ->
              sum_f_R0 (fun k => Rad b k h) t
              = sum_f_R0 (fun k => at3 rad_values b k h) t).
    { intros t Ht. apply sum_eq. intros k Hk. unfold rad_values.
      rewrite at3_tab3 by (assumption || lia). reflexivity. }
    rewrite !Hsum; [reflexivity| |lia].
    destruct (Nat.ltb_spec (l * (T - 1) / (T * upp - 1)) (T - 1)); lia.
  - rewrite Eshift, Etmp, at3_tab3 by assumption. unfold shift_entry.
    destruct (Nat.eqb_spec l 0) as [->|Hne]; [reflexivity|].
    rewrite !at3_tab3 by (assumption || lia).
    destruct (Rlt_dec _ 0); lra.
  - rewrite Esin, at3_tab3 by assumption. do 4 f_equal.
    apply sum_eq. intros k Hk.
    rewrite Eup, Eshift, !at3_tab3 by (assumption || lia). reflexivity.
  - rewrite Euv, at3_tab3 by (assumption || lia).
    change (at2 f0 b (l / upp)%nat) with (f b (l / upp)%nat).
    destruct (Rlt_dec _ _); lra.
  - intros Hvoiced. change (at2 f0 b (l / upp)%nat) with (f b (l / upp)%nat) in Hvoiced.
    rewrite Hsw, HN. rewrite Esin at 1. rewrite Euv, Edraws.
    unfold tadd3, tmul3, tmul_scalar, tdiv_scalar, rsub_scalar.
    rewrite !map3_tab3, bcast3_tab3_last_r, bcast3_tab3, bcast3_tab3_last_l, bcast3_tab3.
    rewrite at3_tab3 by assumption.
    rewrite Esin, at3_tab3 by assumption.
    destruct (Rlt_dec (sg_voiced_threshold self) (f b (l / upp)%nat)); [field|lra].
  - intros Hunvoiced.
    change (at2 f0 b (l / upp)%nat) with (f b (l / upp)%nat) in Hunvoiced.
    rewrite Hsw, HN. rewrite Esin. rewrite Euv, Edraws.
    unfold tadd3, tmul3, tmul_scalar, tdiv_scalar, rsub_scalar.
    rewrite !map3_tab3, bcast3_tab3_last_r, bcast3_tab3, bcast3_tab3_last_l, bcast3_tab3.
    rewrite at3_tab3 by assumption.
    destruct (Rlt_dec (sg_voiced_threshold self) (f b (l / upp)%nat)); [lra|field].
Qed.

End SineGenClaim.

(** The sine generator of [Example] on a pitch curve of three frames, the
    middle one unvoiced, upsampled by 2: output sample 2 belongs to frame 1
    and carries no sine. *)
Lemma C4_example_unvoiced_sample :
  let f0 : Tensor2 := [[220; 0; 220]] in
  exists rad_values sine_waves uv noise,
    SineGen_rad_values Example.sine_gen (transpose12 (unsqueeze1 f0))
      (@rand2 Example.runtime 1 1 0%nat).1 = Ok rad_values
    /\ (@SineGen_forward Example.runtime Example.sine_gen f0 2 0%nat).1
       = Ok [PyTensor sine_waves; PyTensor uv; PyTensor noise]
    /\ at3 uv 0 2 0 = 0
    /\ at3 sine_waves 0 2 0
       = 1 / 10 / 3
         * at3 (@randn_like Example.runtime
                  (SineGen_sines Example.sine_gen rad_values 2)
                  (@rand2 Example.runtime 1 1 0%nat).2).1 0 2 0.
Proof.
  intros f0.
  assert (Hshape : has_shape2 f0 1 3) by (split; [reflexivity|repeat constructor]).
  destruct (@C4_sine_excitation Example.runtime Example.sine_gen f0 2 1 3 0%nat
              eq_refl Hshape ltac:(lia) ltac:(lia) ltac:(lia))
    as (rad_values & sine_waves & uv & noise & Hrad & Hret & _ & Hsamples).
  exists rad_values, sine_waves, uv, noise. split; [exact Hrad|]. split; [exact Hret|].
  destruct (Hsamples 0%nat 2%nat 0%nat ltac:(lia) ltac:(lia) ltac:(cbn; lia))
    as (_ & _ & _ & _ & Huv & _ & Hunvoiced).
  change (at2 f0 0 (2 / 2)) with 0 in *.
  change (sg_voiced_threshold Example.sine_gen) with 0 in *.
  split.
  - rewrite Huv. destruct (Rlt_dec 0 0); [lra|reflexivity].
  - apply Hunvoiced. lra.
Defined.
(** ** More on the installation of voice models *)

Module ModelFoldersFacts.
Import Fs Os ModelManagement ModelFolders ModelManagementFacts.

(** *** Directories stay *)

Lemma dirs_kept_refl (fs : gmap (list string) node) : dirs_kept fs fs.
Proof. now intros p. Qed.

Lemma dirs_kept_trans (fs1 fs2 fs3 : gmap (list string) node) :
  dirs_kept fs1 fs2 -> dirs_kept fs2 fs3 -> dirs_kept fs1 fs3.
Proof. intros H12 H23 p Hp. auto. Qed.

Lemma isdir_false_lookup (fs : gmap (list string) node) (p : list string) :
  isdir fs p = false -> p <> [] /\ fs !! p <> Some Dir.
Proof.
  destruct p as [|c p]; [discriminate|]. intros Hb. split; [discriminate|].
  now apply bool_decide_eq_false_1 in Hb.
Qed.

Lemma dirs_kept_write_file (p : list string) (data : string)
    (fs fs' : gmap (list string) node) :
  write_file p data fs = Ok fs' -> dirs_kept fs fs'.
Proof.
  unfold write_file. destruct (isdir fs p) eqn:Hd; [discriminate|].
  destruct (isdir fs (dirname p)); [|discriminate]. intros [= <-] q Hq.
  apply isdir_false_lookup in Hd as [_ Hd].
  rewrite lookup_insert_ne; [exact Hq|]. intros ->. contradiction.
Qed.

Lemma dirs_kept_mkdir (p : list string) (fs fs' : gmap (list string) node) :
  mkdir p fs = Ok fs' -> dirs_kept fs fs'.
Proof.
  unfold mkdir. destruct (exists_ fs p); [discriminate|].
  destruct (isdir fs (dirname p)); [|discriminate]. intros [= <-] q Hq.
  destruct (decide (p = q)) as [<-|Hne]; [apply lookup_insert_eq|].
  now rewrite lookup_insert_ne.
Qed.

Lemma dirs_kept_remove (p : list string) (fs fs' : gmap (list string) node) :
  remove p fs = Ok fs' -> dirs_kept fs fs'.
Proof.
  unfold remove. destruct (fs !! p) as [[data|]|] eqn:Hp; try discriminate.
  intros [= <-] q Hq. rewrite lookup_delete_ne; [exact Hq|]. intros ->. congruence.
Qed.

Lemma dirs_kept_rename_file (src dst : list string) (fs fs' : gmap (list string) node) :
  rename_file src dst fs = Ok fs' -> dirs_kept fs fs'.
Proof.
  unfold rename_file. destruct (fs !! src) as [[data|]|] eqn:Hs; try discriminate.
  destruct (isdir fs dst) eqn:Hd; [discriminate|].
  destruct (isdir fs (dirname dst)); [|discriminate]. intros [= <-] q Hq.
  apply isdir_false_lookup in Hd as [_ Hd].
  rewrite lookup_insert_ne by (intros ->; contradiction).
  rewrite lookup_delete_ne by (intros ->; congruence). exact Hq.
Qed.

Lemma dirs_kept_at_path (raw : list string)
    (call : list string -> gmap (list string) node -> result (gmap (list string) node))
    (fs fs' : gmap (list string) node) :
  (forall p, call p fs = Ok fs' -> dirs_kept fs fs') ->
  at_path raw call fs = Ok fs' -> dirs_kept fs fs'.
Proof.
  unfold at_path. intros Hcall.
  destruct (resolve_path fs raw) as [p|]; [apply Hcall|discriminate].
Qed.

Lemma isdir_mono (fs fs' : gmap (list string) node) (p : list string) :
  dirs_kept fs fs' -> isdir fs p = true -> isdir fs' p = true.
Proof.
  intros Hk. destruct p as [|c p]; [reflexivity|]. unfold isdir. intros Hb.
  apply bool_decide_eq_true_1 in Hb. apply bool_decide_eq_true_2. now apply Hk.
Qed.

(** A path that leads somewhere keeps leading there while the
    directories stay. *)
Lemma resolve_from_mono (fs fs' : gmap (list string) node) (raw cur p : list string) :
  dirs_kept fs fs' ->
  resolve_from fs cur raw = Some p -> resolve_from fs' cur raw = Some p.
Proof.
  intros Hk. revert cur. induction raw as [|c raw IH]; intros cur; cbn [resolve_from];
    [auto|].
  destruct (String.eqb c EmptyString); [apply IH|].
  destruct (isdir fs cur) eqn:Hd; [|discriminate].
  rewrite (isdir_mono _ _ _ Hk Hd).
  destruct (String.eqb c ".."); [apply IH|].
  destruct (String.eqb c "."); apply IH.
Qed.

Lemma path_isdir_mono (fs fs' : gmap (list string) node) (raw : list string) :
  dirs_kept fs fs' -> path_isdir fs raw = true -> path_isdir fs' raw = true.
Proof.
  intros Hk. unfold path_isdir, resolve_path.
  destruct (resolve_from fs [] raw) as [p|] eqn:Hr; [|discriminate].
  rewrite (resolve_from_mono _ _ _ _ _ Hk Hr). now apply isdir_mono.
Qed.

Lemma path_isdir_exists (fs : gmap (list string) node) (raw : list string) :
  path_isdir fs raw = true -> path_exists fs raw = true.
Proof.
  unfold path_isdir, path_exists. destruct (resolve_path fs raw) as [p|]; [|auto].
  destruct p as [|c p]; [auto|]. unfold isdir, exists_. intros Hb.
  apply bool_decide_eq_true_1 in Hb. apply bool_decide_eq_true_2. eauto.
Qed.

(** *** What [makedirs] leaves *)

Lemma dirs_kept_mkdir_exist_ok (exist_ok : bool) (name : list string)
    (fs : gmap (list string) node) :
  dirs_kept fs (mkdir_exist_ok exist_ok name fs).2.
Proof.
  unfold mkdir_exist_ok. destruct (at_path name mkdir fs) as [fs'|e] eqn:Hm; cbn [snd].
  - revert Hm. apply dirs_kept_at_path. intros p. apply dirs_kept_mkdir.
  - destruct (exist_ok && path_isdir fs name); apply dirs_kept_refl.
Qed.

Lemma dirs_kept_makedirs_fuel (fuel : nat) (exist_ok : bool) (name : list string)
    (fs : gmap (list string) node) :
  dirs_kept fs (makedirs_fuel fuel exist_ok name fs).2.
Proof.
  revert name fs. induction fuel as [|fuel IH]; intros name fs; cbn [makedirs_fuel];
    destruct (negb _ && negb _);
    try apply dirs_kept_mkdir_exist_ok; try apply dirs_kept_refl.
  pose proof (IH (makedirs_split name).1 fs) as Hhead.
  destruct (match (makedirs_fuel fuel exist_ok (makedirs_split name).1 fs).1 with
            | Ok _ => true
            | Raise e => is_FileExistsError e
            end); [|exact Hhead].
  destruct (String.eqb _ "."); [exact Hhead|].
  eapply dirs_kept_trans; [exact Hhead|apply dirs_kept_mkdir_exist_ok].
Qed.

Lemma plain_path_last (name : list string) :
  plain_path name = true -> name <> [] -> special (List.last name EmptyString) = false.
Proof.
  induction name as [|c name _] using rev_ind; [congruence|]. intros Hp _.
  rewrite last_last. rewrite plain_path_app in Hp. apply andb_prop in Hp as [_ Hc].
  cbn [plain_path forallb] in Hc. rewrite andb_true_r in Hc. now apply negb_true_iff.
Qed.

(** When [mkdir] with [exist_ok] returns, the path is a directory. *)
Lemma mkdir_exist_ok_isdir (exist_ok : bool) (name : list string)
    (fs : gmap (list string) node) :
  plain_path name = true ->
  (mkdir_exist_ok exist_ok name fs).1 = Ok tt ->
  path_isdir (mkdir_exist_ok exist_ok name fs).2 name = true.
Proof.
  intros Hp. unfold mkdir_exist_ok.
  destruct (at_path name mkdir fs) as [fs'|e] eqn:Hm; cbn [fst snd].
  - intros _. pose proof Hm as Hk. apply dirs_kept_at_path in Hk;
      [|intros p; apply dirs_kept_mkdir].
    unfold at_path in Hm. destruct (resolve_path fs name) as [p|] eqn:Hr; [|discriminate].
    unfold path_isdir, resolve_path. unfold resolve_path in Hr.
    rewrite (resolve_from_mono _ _ _ _ _ Hk Hr).
    apply resolve_from_plain in Hr; [|exact Hp]. cbn [app] in Hr. subst p.
    unfold mkdir in Hm. destruct (exists_ fs name) eqn:Hex; [discriminate|].
    destruct (isdir fs (dirname name)); [|discriminate]. injection Hm as <-.
    destruct name as [|c name]; [discriminate|]. unfold isdir.
    apply bool_decide_eq_true_2. apply lookup_insert_eq.
  - destruct exist_ok; [|discriminate]. cbn [andb].
    destruct (path_isdir fs name) eqn:Hd; cbn [fst snd]; [auto|discriminate].
Qed.

(** When [makedirs] of a path of names returns, the path is a directory. *)
Lemma makedirs_fuel_isdir (fuel : nat) (exist_ok : bool) (name : list string)
    (fs : gmap (list string) node) :
  plain_path name = true ->
  (makedirs_fuel fuel exist_ok name fs).1 = Ok tt ->
  path_isdir (makedirs_fuel fuel exist_ok name fs).2 name = true.
Proof.
  intros Hp. destruct fuel as [|fuel]; cbn [makedirs_fuel];
    rewrite (makedirs_split_plain _ Hp); cbn [fst snd].
  - destruct (negb _ && negb _); [discriminate|]. now apply mkdir_exist_ok_isdir.
  - destruct (negb (String.eqb (List.last name EmptyString) EmptyString)) eqn:Ht;
      cbn [andb]; [|now apply mkdir_exist_ok_isdir].
    destruct (negb (path_exists fs (removelast name))); [|now apply mkdir_exist_ok_isdir].
    assert (Hne : name <> []) by (intros ->; discriminate).
    pose proof (plain_path_last _ Hp Hne) as Hl. apply special_false in Hl as (_ & Hdot & _).
    rewrite Hdot.
    destruct (match (makedirs_fuel fuel exist_ok (removelast name) fs).1 with
              | Ok _ => true
              | Raise e => is_FileExistsError e
              end) eqn:Hpassed.
    + now apply mkdir_exist_ok_isdir.
    + destruct (makedirs_fuel fuel exist_ok (removelast name) fs) as [[[]|e] fs1];
        cbn [fst snd] in *; discriminate.
Qed.

(** *** The list of models *)

Lemma NoDup_omap_inj {A B : Type} (f : A -> option B) (l : list A) :
  NoDup l ->
  (forall x y z, x ∈ l -> y ∈ l -> f x = Some z -> f y = Some z -> x = y) ->
  NoDup (omap f l).
Proof.
  induction l as [|x l IH]; intros Hnd Hinj; [constructor|].
  apply NoDup_cons in Hnd as [Hx Hnd]. cbn [omap list_omap].
  assert (Hrest : NoDup (omap f l)).
  { apply IH; [exact Hnd|]. intros a b z Ha Hb. apply Hinj; now right. }
  destruct (f x) as [z|] eqn:Hfx; [|exact Hrest].
  apply NoDup_cons. split; [|exact Hrest].
  intros Hz. apply list_elem_of_omap in Hz as (y & Hy & Hfy).
  apply Hx. rewrite (Hinj x y z); auto; [now left|now right].
Qed.

Lemma entry_of_directory (d p : list string) (name : string) :
  dirname p = d /\ p <> [] /\ basename p = name <-> p = d ++ [name].
Proof.
  unfold dirname, basename. split.
  - intros (<- & Hne & <-). now apply app_removelast_last.
  - intros ->. rewrite removelast_last, last_last. repeat split.
    now destruct d.
Qed.

(** [os.listdir] of a directory: every entry once, by its name. *)
Lemma listdir_spec (d : list string) (fs : gmap (list string) node) :
  plain_path d = true -> path_isdir fs d = true ->
  exists items, listdir d fs = Ok items
                /\ NoDup items
                /\ forall name, name ∈ items <-> is_Some (fs !! (d ++ [name])).
Proof.
  intros Hp Hd. unfold path_isdir in Hd. unfold listdir, at_path.
  destruct (resolve_path fs d) as [p|] eqn:Hr; [|discriminate].
  apply resolve_path_plain in Hr; [|exact Hp]. subst p. rewrite Hd.
  eexists. split; [reflexivity|]. split.
  - apply NoDup_omap_inj; [apply NoDup_map_to_list|].
    intros [p1 n1] [p2 n2] z H1 H2 Hf1 Hf2. cbn [fst snd] in *.
    destruct (bool_decide (dirname p1 = d /\ p1 <> [])) eqn:Hb1; [|discriminate].
    destruct (bool_decide (dirname p2 = d /\ p2 <> [])) eqn:Hb2; [|discriminate].
    apply bool_decide_eq_true_1 in Hb1 as [Hd1 Hn1].
    apply bool_decide_eq_true_1 in Hb2 as [Hd2 Hn2].
    injection Hf1 as Hz1. injection Hf2 as Hz2.
    assert (E1 : p1 = d ++ [z]) by now apply entry_of_directory.
    assert (E2 : p2 = d ++ [z]) by now apply entry_of_directory.
    subst p1 p2. apply elem_of_map_to_list in H1, H2. congruence.
  - intros name. rewrite list_elem_of_omap. split.
    + intros ([p n] & Hin & Hf). cbn [fst snd] in Hf.
      destruct (bool_decide (dirname p = d /\ p <> [])) eqn:Hb; [|discriminate].
      apply bool_decide_eq_true_1 in Hb as [Hdp Hnp]. injection Hf as Hz.
      assert (E : p = d ++ [name]) by now apply entry_of_directory.
      subst p. apply elem_of_map_to_list in Hin. eauto.
    + intros [n Hn]. exists (d ++ [name], n). split; [now apply elem_of_map_to_list|].
      cbn [fst snd]. rewrite bool_decide_eq_true_2.
      * f_equal. unfold basename. apply last_last.
      * unfold dirname. rewrite removelast_last. split; [reflexivity|now destruct d].
Qed.

(** A name in a directory leads to the entry of that name. *)
Lemma path_isdir_entry (d : list string) (name : string) (fs : gmap (list string) node) :
  plain_path d = true -> path_isdir fs d = true -> special name = false ->
  path_isdir fs (d ++ [name]) = bool_decide (fs !! (d ++ [name]) = Some Dir).
Proof.
  intros Hp Hd Hn. unfold path_isdir in *. unfold resolve_path in *.
  rewrite resolve_from_app.
  destruct (resolve_from fs [] d) as [p|] eqn:Hr; [|discriminate].
  apply resolve_from_plain in Hr; [|exact Hp]. cbn [app] in Hr. subst p.
  cbn [resolve_from]. apply special_false in Hn as (He & Hdot & Hdd).
  rewrite He, Hd, Hdd, Hdot. unfold isdir. now destruct d.
Qed.

Lemma get_folders_spec (models_dir : list string) (fs : gmap (list string) node) :
  plain_path models_dir = true -> path_isdir fs models_dir = true ->
  exists folders,
    get_folders models_dir fs = Ok folders
    /\ NoDup folders
    /\ forall name, special name = false ->
         (name ∈ folders <-> fs !! (models_dir ++ [name]) = Some Dir).
Proof.
  intros Hp Hd. destruct (listdir_spec _ _ Hp Hd) as (items & Hl & Hnd & Hin).
  unfold get_folders. rewrite Hl. cbn [mbind result_bind].
  eexists. split; [reflexivity|]. split; [now apply NoDup_filter|].
  intros name Hn. rewrite list_elem_of_filter, Hin.
  rewrite (path_isdir_entry _ _ _ Hp Hd Hn). split.
  - intros [Hb _]. now apply bool_decide_eq_true_1 in Hb.
  - intros Hl'. split; [now apply bool_decide_eq_true_2|eauto].
Qed.

(** X1.  [get_folders(models_dir)] raises when [models_dir] is no
    directory; otherwise it returns, each once, the names of the
    directories that lie directly in [models_dir] (and of nothing else:
    regular files are left out). *)
Theorem get_folders_lists_the_directories (models_dir : list string)
    (fs : gmap (list string) node) :
  plain_path models_dir = true ->
  (path_isdir fs models_dir = false -> is_ok (get_folders models_dir fs) = false)
  /\ (path_isdir fs models_dir = true ->
      exists folders,
        get_folders models_dir fs = Ok folders
        /\ NoDup folders
        /\ forall name, special name = false ->
             (name ∈ folders <-> fs !! (models_dir ++ [name]) = Some Dir)).
Proof.
  intros Hp. split.
  - unfold path_isdir, get_folders, listdir, at_path.
    destruct (resolve_path fs models_dir) as [p|]; [|reflexivity].
    now intros ->.
  - now apply get_folders_spec.
Qed.

(** X1, an instance: the example installation has one model. *)
Lemma get_folders_example :
  get_folders ExampleModels.models_dir ExampleModels.installed = Ok ["victim"].
Proof.
  destruct (get_folders_lists_the_directories ExampleModels.models_dir
              ExampleModels.installed eq_refl) as [_ Hlist].
  destruct (Hlist eq_refl) as (folders & Hget & _ & _).
  rewrite Hget. revert Hget. vm_compute. now intros [= <-].
Defined.

(** *** The choice of the model file *)

Lemma last_qualifying_snoc (suffix : string) (bound : nat)
    (files : list (list string * nat)) (f : list string * nat) :
  last_qualifying suffix bound (files ++ [f])
  = if qualifies suffix bound f then Some f.1 else last_qualifying suffix bound files.
Proof.
  unfold last_qualifying. rewrite List.filter_app. cbn [List.filter].
  destruct (qualifies suffix bound f).
  - destruct (List.filter _ files) as [|g rest]; cbn [app]; [reflexivity|].
    now rewrite last_last.
  - now rewrite app_nil_r.
Qed.

(** X2.  Of the files found in the extracted archive, [extract_zip] takes
    as the model the last one, in the order of the walk, whose name ends
    with [.pth] and whose size exceeds 40 MiB, and as the index the last
    one whose name ends with [.index] and whose size exceeds 100 KiB; a
    file of exactly the bound does not count, and without such a file
    there is no model (no index). *)
Theorem pick_files_takes_the_last_large_files (files : list (list string * nat)) :
  pick_files files
  = (last_qualifying ".index" (1024 * 100) files,
     last_qualifying ".pth" (1024 * 1024 * 40) files).
Proof.
  unfold pick_files. induction files as [|f files IH] using rev_ind; [reflexivity|].
  rewrite fold_left_app. cbn [fold_left]. rewrite IH.
  rewrite !last_qualifying_snoc. reflexivity.
Qed.

(** *** Members of an archive *)

Lemma plain_path_arcname (name : string) : plain_path (arcname name) = true.
Proof. apply forallb_forall. intros c Hc. now apply filter_In in Hc as [_ Hc]. Qed.

Lemma kept_outside_only (F : list string -> Prop) (fs fs' : gmap (list string) node) :
  kept_outside F (fun _ => False) fs fs' -> forall p, ~ F p -> fs' !! p = fs !! p.
Proof. intros Hk p Hp. now destruct (Hk p Hp) as [Heq|[[] _]]. Qed.

Lemma path_isdir_insert_dir (fs : gmap (list string) node) (raw p : list string) :
  resolve_path fs raw = Some p ->
  path_isdir (<[p := Dir]> fs) raw = true.
Proof.
  intros Hr. unfold path_isdir.
  assert (Hk : dirs_kept fs (<[p := Dir]> fs)).
  { intros q Hq. destruct (decide (p = q)) as [->|Hne].
    - apply lookup_insert_eq.
    - now rewrite lookup_insert_ne. }
  unfold resolve_path in *. rewrite (resolve_from_mono _ _ _ _ _ Hk Hr).
  unfold isdir. destruct p; [reflexivity|].
  apply bool_decide_eq_true_2, lookup_insert_eq.
Qed.

(** X3.  Extracting a member of an archive into a folder changes nothing
    outside the folder and the directories on the way to it, whatever the
    name of the member: the empty, [.] and [..] pieces of the name are
    dropped.  A member that was extracted is, when its name does not end
    with the separator, a file with the content of the member at the
    remaining name below the folder, and a directory there otherwise. *)
Theorem extract_member_stays_below_the_folder (folder : list string)
    (member : string * string) (w : world) :
  plain_path folder = true ->
  let out := extract_member folder member w in
  (forall p, ~ on_the_way folder p -> w_fs out.2 !! p = w_fs w !! p)
  /\ (out.1 = Ok tt ->
      if endswith member.1 "/"
      then path_isdir (w_fs out.2) (folder ++ arcname member.1) = true
      else w_fs out.2 !! (folder ++ arcname member.1) = Some (File member.2)).
Proof.
  intros Hf out. split.
  - apply kept_outside_only. now apply keeps_extract_member.
  - subst out. unfold extract_member. fold (arcname member.1).
    assert (Hall : plain_path (folder ++ arcname member.1) = true)
      by (now rewrite plain_path_app, Hf, plain_path_arcname).
    rewrite (normpath_plain _ Hall).
    unfold mbind, M_bind, get_fs.
    match goal with
    | |- context [(if ?b then mret tt else ?c) w] =>
        destruct ((if b then mret tt else c) w) as [[[]|e] w1]
    end; [|discriminate].
    destruct (endswith member.1 "/").
    + destruct (path_isdir (w_fs w1) _) eqn:Hd; [intros _; exact Hd|].
      unfold lift_fs, at_path.
      destruct (resolve_path (w_fs w1) _) as [p|] eqn:Hr; [|discriminate].
      destruct (mkdir p (w_fs w1)) as [fs'|e] eqn:Hm; [|discriminate].
      intros _. cbn [snd w_fs]. unfold mkdir in Hm.
      destruct (exists_ _ _); [discriminate|].
      destruct (isdir _ _); [|discriminate].
      injection Hm as <-. now apply path_isdir_insert_dir.
    + unfold open_write, lift_fs, at_path.
      destruct (resolve_path (w_fs w1) _) as [p|] eqn:Hr; [|discriminate].
      apply resolve_path_plain in Hr; [|exact Hall]. subst p.
      destruct (write_file _ _ (w_fs w1)) as [fs'|e] eqn:Hw; [|discriminate].
      intros _. cbn [snd w_fs]. unfold write_file in Hw.
      destruct (isdir _ _); [discriminate|].
      destruct (isdir _ _); [|discriminate].
      injection Hw as <-. apply lookup_insert_eq.
Qed.

(** X3, an instance: a member named [../../evil.pth] lands in the folder
    of the model, and the parent directories do not get it. *)
Lemma extract_member_example :
  let folder := ExampleModels.models_dir ++ ["fresh"] in
  let out := extract_member folder ("../../evil.pth", "payload") ExampleModels.world0 in
  plain_path folder = true
  /\ w_fs out.2 !! (folder ++ ["evil.pth"]) = Some (File "payload")
  /\ w_fs out.2 !! ["app"; "models"; "evil.pth"] = None.
Proof.
  intros folder out.
  destruct (extract_member_stays_below_the_folder folder
              ("../../evil.pth", "payload") ExampleModels.world0 eq_refl)
    as [Hout Hin].
  split; [reflexivity|]. split.
  - apply Hin. vm_compute. reflexivity.
  - fold out in Hout. rewrite Hout; [vm_compute; reflexivity|].
    unfold on_the_way, under.
    refine (proj1 (bool_decide_eq_false (_ \/ _)) _). vm_compute. reflexivity.
Defined.

(** *** Links that fail before anything is downloaded *)

Lemma split_without_separator (s sep : string) :
  contains sep s = false -> split s sep = [s].
Proof.
  unfold contains, split. intros Hc.
  destruct (String.index 0 sep s) eqn:Hi; [discriminate|].
  destruct (String.length s); cbn [split_fuel]; [reflexivity|]. now rewrite Hi.
Qed.

Lemma download_file_malformed `{Services} (url : string) (zip_name : list string) (w : world) :
  malformed_link url = true ->
  (download_file url zip_name w).1 = Raise IndexError
  /\ w_fs (download_file url zip_name w).2 = w_fs w
  /\ exists desc, w_log (download_file url zip_name w).2 = w_log w ++ [Progress 0.5 desc].
Proof.
  unfold malformed_link, download_file. intros Hm.
  destruct (contains "drive.google.com" url).
  - apply andb_true_iff in Hm as [Hf Hi]. apply negb_true_iff in Hf, Hi.
    rewrite Hf, (split_without_separator _ _ Hi).
    unfold mbind, M_bind, progress, lift_result. cbn. eauto.
  - apply andb_true_iff in Hm as [Hm Hu]. apply andb_true_iff in Hm as [Hh Hp].
    apply negb_true_iff in Hh, Hu.
    rewrite Hh, Hp, (split_without_separator _ _ Hu).
    unfold mbind, M_bind, progress, lift_result. cbn. eauto.
Qed.

(** X4.  A Google Drive link that holds neither [file/d/] nor [id=], and
    a Pixeldrain link without [pixeldrain.com/u/], make [download_from_url]
    fail with the message of the [IndexError], "list index out of range":
    progress has been reported twice, nothing has been requested from the
    service, and the file system is as it was; the name of the model
    stays free. *)
Theorem malformed_link_is_an_index_error `{Services} (url dir_name : string) (w : world) :
  malformed_link url = true ->
  path_exists (w_fs w) (path_join rvc_models_dir dir_name) = false ->
  let out := download_from_url url dir_name w in
  out.1 = Raise (GrError "list index out of range")
  /\ w_fs out.2 = w_fs w
  /\ exists desc,
       w_log out.2
       = w_log w ++ [Progress 0 (String.append "[~] Загрузка голосовой модели с именем "
                                   (String.append dir_name "..."));
                     Progress 0.5 desc].
Proof.
  intros Hm Hex out.
  assert (Hout : exists desc,
             out = (Raise (GrError "list index out of range"),
                    {| w_fs := w_fs w;
                       w_log := w_log w
                         ++ [Progress 0 (String.append "[~] Загрузка голосовой модели с именем "
                                           (String.append dir_name "..."));
                             Progress 0.5 desc] |})).
  { subst out. unfold download_from_url, reraise_as_gr_error, mbind, M_bind, get_fs.
    unfold progress at 1. cbn [w_fs w_log]. rewrite Hex.
    match goal with
    | |- context [download_file url ?z ?w1] =>
        destruct (download_file_malformed url z w1 Hm) as (Hr & Hfs & desc & Hlog);
        destruct (download_file url z w1) as [r [fs2 log2]]
    end.
    cbn [fst snd w_fs w_log] in *. subst r fs2 log2. exists desc.
    cbn [exn_str]. now rewrite <- app_assoc. }
  destruct Hout as (desc & ->). cbn [fst snd w_fs w_log]. eauto.
Qed.

(** X4, an instance: a link to a Google Drive folder. *)
Lemma malformed_link_example :
  let out := @download_from_url ExampleModels.services
               "https://drive.google.com/drive/folders/abc" "fresh"
               ExampleModels.world0 in
  out.1 = Raise (GrError "list index out of range")
  /\ w_fs out.2 = ExampleModels.installed.
Proof.
  intros out.
  destruct (@malformed_link_is_an_index_error ExampleModels.services
              "https://drive.google.com/drive/folders/abc" "fresh"
              ExampleModels.world0 eq_refl eq_refl) as (Hr & Hfs & _).
  split; [exact Hr|exact Hfs].
Defined.

(** *** A link to a service that is not supported *)

Lemma resolve_path_dir (fs : gmap (list string) node) (raw : list string) :
  plain_path raw = true -> path_isdir fs raw = true ->
  resolve_path fs raw = Some raw /\ isdir fs raw = true.
Proof.
  unfold path_isdir. intros Hp Hd.
  destruct (resolve_path fs raw) as [p|] eqn:Hr; [|discriminate].
  apply resolve_path_plain in Hr as Heq; [|exact Hp]. now subst p.
Qed.

Lemma resolve_path_entry (fs : gmap (list string) node) (d : list string) (c : string) :
  plain_path d = true -> path_isdir fs d = true -> special c = false ->
  resolve_path fs (d ++ [c]) = Some (d ++ [c]).
Proof.
  intros Hp Hd Hc. destruct (resolve_path_dir _ _ Hp Hd) as [Hr Hi].
  unfold resolve_path in *. rewrite resolve_from_app, Hr. cbn [resolve_from].
  apply special_false in Hc as (He & Hdot & Hdd). now rewrite He, Hi, Hdd, Hdot.
Qed.

Lemma dirs_kept_insert_dir (fs : gmap (list string) node) (p : list string) :
  dirs_kept fs (<[p := Dir]> fs).
Proof.
  intros q Hq. destruct (decide (p = q)) as [->|Hne].
  - apply lookup_insert_eq.
  - now rewrite lookup_insert_ne.
Qed.

Lemma removelast_snoc (d : list string) (c : string) : removelast (d ++ [c]) = d.
Proof. now rewrite removelast_last. Qed.

Lemma not_nil_snoc (d : list string) (c : string) : d ++ [c] <> [].
Proof. now destruct d. Qed.

Lemma exists_absent (fs : gmap (list string) node) (d : list string) (c : string) :
  fs !! (d ++ [c]) = None -> exists_ fs (d ++ [c]) = false.
Proof.
  intros Hl. unfold exists_. destruct (d ++ [c]) eqn:Hdc; [now destruct d|].
  apply bool_decide_eq_false_2. rewrite Hl. now intros [n Hn].
Qed.

(** Making a folder that is not there, in a directory that is. *)
Lemma makedirs_new_folder (exist_ok : bool) (d : list string) (c : string)
    (fs : gmap (list string) node) :
  plain_path d = true -> special c = false ->
  path_isdir fs d = true -> fs !! (d ++ [c]) = None ->
  makedirs exist_ok (d ++ [c]) fs = (Ok tt, <[d ++ [c] := Dir]> fs).
Proof.
  intros Hp Hc Hd Hl.
  assert (Hall : plain_path (d ++ [c]) = true).
  { rewrite plain_path_app, Hp. cbn. now rewrite Hc. }
  assert (Hstep : mkdir_exist_ok exist_ok (d ++ [c]) fs = (Ok tt, <[d ++ [c] := Dir]> fs)).
  { unfold mkdir_exist_ok, at_path. rewrite (resolve_path_entry _ _ _ Hp Hd Hc).
    unfold mkdir. rewrite (exists_absent _ _ _ Hl).
    unfold dirname. rewrite removelast_snoc.
    destruct (resolve_path_dir _ _ Hp Hd) as [_ ->]. reflexivity. }
  unfold makedirs. generalize (length (d ++ [c])). intros fuel.
  assert (Hcond : negb (String.eqb (makedirs_split (d ++ [c])).2 EmptyString)
                  && negb (path_exists fs (makedirs_split (d ++ [c])).1) = false).
  { rewrite (makedirs_split_plain _ Hall). cbn [fst snd]. rewrite removelast_snoc.
    rewrite (path_isdir_exists _ _ Hd). apply andb_false_r. }
  destruct fuel; cbn [makedirs_fuel]; rewrite Hcond; exact Hstep.
Qed.

Lemma download_file_unsupported `{Services} (url : string) (zip_name : list string)
    (w : world) :
  unsupported_url url = true -> download_file url zip_name w = (Ok tt, w).
Proof.
  unfold unsupported_url, download_file. intros Hu. apply negb_true_iff in Hu.
  repeat (apply orb_false_iff in Hu as [Hu ?]).
  repeat match goal with Hc : contains _ url = false |- _ => rewrite Hc; clear Hc end.
  reflexivity.
Qed.

Lemma append_not_self (s t : string) : t <> EmptyString -> s <> String.append s t.
Proof.
  intros Ht Heq. apply (f_equal String.length) in Heq. rewrite length_append in Heq.
  destruct t; [congruence|]. cbn in Heq. lia.
Qed.

(** X5.  A link to a service that [download_file] does not know is not
    refused: nothing is downloaded, [extract_zip] makes the folder of the
    model and then fails on the archive that is not there, and
    [download_from_url] raises a [gr.Error].  The empty folder stays, so
    the name is taken from then on: the same call with any link is
    refused after its first progress report. *)
Theorem unsupported_link_leaves_an_empty_folder `{Services} (url dir_name : string)
    (w : world) :
  unsupported_url url = true ->
  plain_path getcwd = true -> plain_name dir_name = true ->
  path_isdir (w_fs w) rvc_models_dir = true ->
  w_fs w !! (rvc_models_dir ++ [dir_name]) = None ->
  w_fs w !! (rvc_models_dir ++ [String.append dir_name ".zip"]) = None ->
  let out := download_from_url url dir_name w in
  let started := Progress 0 (String.append "[~] Загрузка голосовой модели с именем "
                               (String.append dir_name "...")) in
  (exists msg, out.1 = Raise (GrError msg))
  /\ w_fs out.2 = <[rvc_models_dir ++ [dir_name] := Dir]> (w_fs w)
  /\ w_log out.2 = w_log w ++ [started; Progress 0.8 "[~] Распаковка zip-файла..."]
  /\ forall url', exists msg,
       download_from_url url' dir_name out.2
       = (Raise (GrError msg),
          {| w_fs := w_fs out.2; w_log := w_log out.2 ++ [started] |}).
Proof.
  intros Hu Hcwd Hn Hd Hfree Hzip out started.
  pose proof (plain_path_rvc_models_dir Hcwd) as Hrvc.
  pose proof (plain_name_special _ Hn) as Hs.
  pose proof (plain_name_special _ (plain_name_zip _ Hn)) as Hsz.
  set (fs1 := <[rvc_models_dir ++ [dir_name] := Dir]> (w_fs w)).
  assert (Hd1 : path_isdir fs1 rvc_models_dir = true).
  { eapply path_isdir_mono; [apply dirs_kept_insert_dir|exact Hd]. }
  assert (Hout : out = (Raise (GrError "FileNotFoundError"),
                        {| w_fs := fs1;
                           w_log := w_log w
                             ++ [started; Progress 0.8 "[~] Распаковка zip-файла..."] |})).
  { subst out. unfold download_from_url, reraise_as_gr_error.
    rewrite !(path_join_plain _ _ Hn), !(path_join_plain _ _ (plain_name_zip _ Hn)).
    unfold mbind, M_bind, get_fs, progress at 1. cbn [w_fs w_log].
    assert (Hex : path_exists (w_fs w) (rvc_models_dir ++ [dir_name]) = false).
    { unfold path_exists. rewrite (resolve_path_entry _ _ _ Hrvc Hd Hs).
      now apply exists_absent. }
    rewrite Hex, (download_file_unsupported _ _ _ Hu).
    unfold progress. cbn [w_fs w_log].
    unfold extract_zip, mbind, M_bind, lift_st. cbn [w_fs w_log fst snd].
    rewrite (makedirs_new_folder true _ _ _ Hrvc Hs Hd Hfree). cbn [fst snd].
    fold fs1. unfold get_fs, lift_result, at_path. cbn [w_fs w_log].
    rewrite (resolve_path_entry _ _ _ Hrvc Hd1 Hsz).
    unfold read_file, fs1. rewrite lookup_insert_ne.
    - rewrite Hzip. cbn [exn_str]. now rewrite <- app_assoc.
    - intros Heq. apply app_inj_tail in Heq as [_ Heq].
      now apply (append_not_self dir_name ".zip"). }
  rewrite Hout. cbn [fst snd w_fs w_log].
  split; [eauto|]. split; [reflexivity|]. split; [reflexivity|].
  intros url'. eexists. apply download_from_url_exists. cbn [w_fs].
  rewrite (path_join_plain _ _ Hn). apply path_isdir_exists.
  unfold path_isdir. rewrite (resolve_path_entry _ _ _ Hrvc Hd1 Hs).
  unfold isdir, fs1. destruct (rvc_models_dir ++ [dir_name]) eqn:Hnil; [reflexivity|].
  apply bool_decide_eq_true_2, lookup_insert_eq.
Qed.

(** X5, an instance: a link to a site without a branch of its own. *)
Lemma unsupported_link_example :
  let out := @download_from_url ExampleModels.services
               "https://example.org/voice.zip" "fresh" ExampleModels.world0 in
  (exists msg, out.1 = Raise (GrError msg))
  /\ w_fs out.2 = <[ExampleModels.models_dir ++ ["fresh"] := Dir]> ExampleModels.installed.
Proof.
  intros out.
  destruct (@unsupported_link_leaves_an_empty_folder ExampleModels.services
              "https://example.org/voice.zip" "fresh" ExampleModels.world0
              eq_refl eq_refl eq_refl eq_refl eq_refl eq_refl) as (Hr & Hfs & _).
  split; [exact Hr|exact Hfs].
Defined.

(** *** An archive without a model *)

Lemma bind_inv {A B : Type} (c : M A) (f : A -> M B) (w w' : world) (r : result B) :
  (c ≫= f) w = (r, w') ->
  (exists e, c w = (Raise e, w') /\ r = Raise e)
  \/ (exists a w1, c w = (Ok a, w1) /\ f a w1 = (r, w')).
Proof.
  unfold mbind, M_bind. destruct (c w) as [[a|e] w1].
  - intros Hf. right. eauto.
  - intros [= <- <-]. left. eauto.
Qed.

Lemma tame_ret {A : Type} (a : A) : tame (mret a : M A).
Proof. intros w. split; [apply dirs_kept_refl|discriminate]. Qed.

Lemma tame_raise {A : Type} (e : exn) : is_GrError e = false -> tame (@raise A e).
Proof. intros He w. split; [apply dirs_kept_refl|]. now intros e' [= <-]. Qed.

Lemma tame_get_fs : tame get_fs.
Proof. intros w. split; [apply dirs_kept_refl|discriminate]. Qed.

Lemma tame_bind {A B : Type} (c : M A) (f : A -> M B) :
  tame c -> (forall a, tame (f a)) -> tame (c ≫= f).
Proof.
  intros Hc Hf w. unfold mbind, M_bind.
  destruct (Hc w) as [Hk He]. destruct (c w) as [[a|e] w1]; cbn [fst snd] in *.
  - destruct (Hf a w1) as [Hk' He']. split; [|exact He'].
    eapply dirs_kept_trans; [exact Hk|exact Hk'].
  - split; [exact Hk|]. intros e' [= <-]. now apply He.
Qed.

Lemma tame_lift_result {A : Type} (r : result A) :
  (forall e, r = Raise e -> is_GrError e = false) -> tame (lift_result r).
Proof. intros Hr w. split; [apply dirs_kept_refl|exact Hr]. Qed.

Lemma tame_lift_fs (f : gmap (list string) node -> result (gmap (list string) node)) :
  (forall fs fs', f fs = Ok fs' -> dirs_kept fs fs') ->
  (forall fs e, f fs = Raise e -> is_GrError e = false) ->
  tame (lift_fs f).
Proof.
  intros Hk He w. unfold lift_fs. destruct (f (w_fs w)) as [fs'|e] eqn:Hf; cbn [fst snd w_fs].
  - split; [now apply Hk|discriminate].
  - split; [apply dirs_kept_refl|]. intros e' [= <-]. now apply (He (w_fs w)).
Qed.

Lemma tame_lift_st (f : gmap (list string) node -> result unit * gmap (list string) node) :
  (forall fs, dirs_kept fs (f fs).2) ->
  (forall fs e, (f fs).1 = Raise e -> is_GrError e = false) ->
  tame (lift_st f).
Proof. intros Hk He w. unfold lift_st. cbn [fst snd w_fs]. split; [apply Hk|apply He]. Qed.

Lemma tame_for_each {A : Type} (l : list A) (body : A -> M unit) :
  (forall a, tame (body a)) -> tame (for_each l body).
Proof.
  intros Hb. induction l as [|a l IH]; cbn [for_each]; [apply tame_ret|].
  apply tame_bind; [apply Hb|]. intros _. exact IH.
Qed.

Lemma at_path_raises {A : Type} (raw : list string)
    (call : list string -> gmap (list string) node -> result A)
    (fs : gmap (list string) node) (e : exn) :
  (forall p e', call p fs = Raise e' -> is_GrError e' = false) ->
  at_path raw call fs = Raise e -> is_GrError e = false.
Proof.
  unfold at_path. intros Hc. destruct (resolve_path fs raw) as [p|]; [apply Hc|].
  now intros [= <-].
Qed.

Lemma mkdir_raises (p : list string) (fs : gmap (list string) node) (e : exn) :
  mkdir p fs = Raise e -> is_GrError e = false.
Proof.
  unfold mkdir. destruct (exists_ fs p); [now intros [= <-]|].
  destruct (isdir fs (dirname p)); [discriminate|now intros [= <-]].
Qed.

Lemma write_file_raises (p : list string) (data : string) (fs : gmap (list string) node)
    (e : exn) :
  write_file p data fs = Raise e -> is_GrError e = false.
Proof.
  unfold write_file. destruct (isdir fs p); [now intros [= <-]|].
  destruct (isdir fs (dirname p)); [discriminate|now intros [= <-]].
Qed.

Lemma read_file_raises (p : list string) (fs : gmap (list string) node) (e : exn) :
  read_file p fs = Raise e -> is_GrError e = false.
Proof. unfold read_file. destruct (fs !! p) as [[]|]; now intros [= <-]. Qed.

Lemma remove_raises (p : list string) (fs : gmap (list string) node) (e : exn) :
  remove p fs = Raise e -> is_GrError e = false.
Proof. unfold remove. destruct (fs !! p) as [[]|]; now intros [= <-]. Qed.

Lemma mkdir_exist_ok_raises (exist_ok : bool) (name : list string)
    (fs : gmap (list string) node) (e : exn) :
  (mkdir_exist_ok exist_ok name fs).1 = Raise e -> is_GrError e = false.
Proof.
  unfold mkdir_exist_ok. destruct (at_path name mkdir fs) as [fs'|e'] eqn:Hm; [discriminate|].
  destruct (exist_ok && path_isdir fs name); [discriminate|]. cbn [fst].
  intros [= <-]. eapply at_path_raises; [|exact Hm]. intros p e0. apply mkdir_raises.
Qed.

Lemma makedirs_fuel_raises (fuel : nat) (exist_ok : bool) (name : list string)
    (fs : gmap (list string) node) (e : exn) :
  (makedirs_fuel fuel exist_ok name fs).1 = Raise e -> is_GrError e = false.
Proof.
  revert name fs e. induction fuel as [|fuel IH]; intros name fs e; cbn [makedirs_fuel];
    destruct (negb _ && negb _); try apply mkdir_exist_ok_raises.
  - now intros [= <-].
  - destruct (makedirs_fuel fuel exist_ok _ fs) as [[[]|e'] fs1] eqn:Hm; cbn [fst snd].
    + destruct (String.eqb _ "."); [discriminate|apply mkdir_exist_ok_raises].
    + destruct (is_FileExistsError e') eqn:Hfe.
      * destruct (String.eqb _ "."); [discriminate|apply mkdir_exist_ok_raises].
      * cbn [fst]. intros [= <-]. apply (IH (makedirs_split name).1 fs). now rewrite Hm.
Qed.

Lemma tame_makedirs (exist_ok : bool) (name : list string) :
  tame (lift_st (makedirs exist_ok name)).
Proof.
  apply tame_lift_st; intros fs.
  - apply dirs_kept_makedirs_fuel.
  - apply makedirs_fuel_raises.
Qed.

Lemma tame_open_write (target : list string) (data : string) :
  tame (open_write target data).
Proof.
  apply tame_lift_fs.
  - intros fs fs'. apply dirs_kept_at_path. intros p. apply dirs_kept_write_file.
  - intros fs e. apply at_path_raises. intros p e'. apply write_file_raises.
Qed.

Lemma tame_extract_member (folder : list string) (member : string * string) :
  tame (extract_member folder member).
Proof.
  unfold extract_member.
  apply tame_bind; [apply tame_get_fs|]. intros fs.
  apply tame_bind.
  { destruct (path_exists fs _); [apply tame_ret|apply tame_makedirs]. }
  intros _. destruct (endswith _ _); [|apply tame_open_write].
  apply tame_bind; [apply tame_get_fs|]. intros fs1.
  destruct (path_isdir fs1 _); [apply tame_ret|].
  apply tame_lift_fs.
  - intros fs2 fs'. apply dirs_kept_at_path. intros p. apply dirs_kept_mkdir.
  - intros fs2 e. apply at_path_raises. intros p e'. apply mkdir_raises.
Qed.

Lemma rename_file_raises (src dst : list string) (fs : gmap (list string) node) (e : exn) :
  rename_file src dst fs = Raise e -> is_GrError e = false.
Proof.
  unfold rename_file. destruct (fs !! src) as [[]|]; try (now intros [= <-]).
  destruct (isdir fs dst); [now intros [= <-]|].
  destruct (isdir fs (dirname dst)); [discriminate|now intros [= <-]].
Qed.

Lemma lift_fs_raises (f : gmap (list string) node -> result (gmap (list string) node))
    (w w' : world) (e : exn) :
  (forall fs e', f fs = Raise e' -> is_GrError e' = false) ->
  lift_fs f w = (Raise e, w') -> is_GrError e = false.
Proof.
  unfold lift_fs. intros Hf. destruct (f (w_fs w)) eqn:Hfw; [discriminate|].
  intros [= <- _]. now apply (Hf (w_fs w)).
Qed.

Lemma for_each_rmtree_returns (dirs : list (list string)) (w : world) :
  (for_each dirs (fun d => lift_fs (fun fs => Ok (rmtree d fs))) w).1 = Ok tt.
Proof.
  revert w. induction dirs as [|d dirs IH]; intros w; [reflexivity|].
  cbn [for_each]. unfold mbind, M_bind, lift_fs at 1. apply IH.
Qed.

(** X6.  When [extract_zip] raises a [gr.Error], it is the one for an
    archive without a model file: no file of the folder has a name that
    ends with [.pth] and more than 40 MiB.  By then the folder has been
    made and filled and the archive has been deleted, and both stay so:
    the name of the model is taken, and [upload_zip_model] refuses it from
    then on. *)
Theorem extract_zip_without_a_model `{Services} (folder zip_name : list string)
    (w : world) (m : string) :
  plain_path folder = true ->
  let out := extract_zip folder zip_name w in
  out.1 = Raise (GrError m) ->
  m = model_not_found folder
  /\ (pick_files (walk folder (w_fs out.2))).2 = None
  /\ path_isdir (w_fs out.2) folder = true
  /\ (forall p, resolve_path (w_fs out.2) zip_name = Some p -> w_fs out.2 !! p = None)
  /\ forall (zip_path : option (list string)) (dir_name : string),
       path_join rvc_models_dir dir_name = folder ->
       exists msg, upload_zip_model zip_path dir_name out.2 = (Raise (GrError msg), out.2).
Proof.
  intros Hf out. subst out.
  destruct (extract_zip folder zip_name w) as [r wf] eqn:Hout. cbn [fst snd].
  intros ->. unfold extract_zip in Hout.
  (* os.makedirs *)
  apply bind_inv in Hout as [(e & Hc & [= He])|([] & w1 & H1 & Hout)].
  { subst e. destruct (tame_makedirs true folder w) as [_ He]. rewrite Hc in He.
    now specialize (He _ eq_refl). }
  assert (Hd1 : path_isdir (w_fs w1) folder = true).
  { unfold lift_st in H1. injection H1 as Hres <-. cbn [w_fs].
    now apply makedirs_fuel_isdir. }
  (* the archive is read *)
  apply bind_inv in Hout as [(e & Hc & _)|(fs & w1' & Hg & Hout)]; [discriminate|].
  injection Hg as <- <-.
  apply bind_inv in Hout as [(e & Hc & [= He])|(data & w1' & Hread & Hout)].
  { subst e. injection Hc as Hc _. apply at_path_raises in Hc; [discriminate|].
    intros p e'. apply read_file_raises. }
  injection Hread as _ <-.
  apply bind_inv in Hout as [(e & Hc & [= He])|(members & w1' & Hz & Hout)].
  { subst e. destruct (zip_members data); cbv in Hc; discriminate. }
  destruct (zip_members data); cbv in Hz; [|discriminate]. injection Hz as _ <-.
  (* the members are extracted *)
  apply bind_inv in Hout as [(e & Hc & [= He])|([] & w2 & H2 & Hout)].
  { subst e. destruct (tame_for_each members _ (tame_extract_member folder) w1) as [_ He].
    rewrite Hc in He. now specialize (He _ eq_refl). }
  assert (Hk2 : dirs_kept (w_fs w1) (w_fs w2)).
  { destruct (tame_for_each members _ (tame_extract_member folder) w1) as [Hk _].
    now rewrite H2 in Hk. }
  (* the archive is removed *)
  apply bind_inv in Hout as [(e & Hc & [= He])|([] & w3 & H3 & Hout)].
  { subst e. apply lift_fs_raises in Hc; [discriminate|]. intros fs e'.
    apply at_path_raises. intros p e''. apply remove_raises. }
  unfold lift_fs, at_path in H3.
  destruct (resolve_path (w_fs w2) zip_name) as [pz|] eqn:Hrz; [|discriminate].
  destruct (remove pz (w_fs w2)) as [fs3|] eqn:Hrm; [|discriminate].
  injection H3 as <-.
  assert (Hk3 : dirs_kept (w_fs w2) fs3) by (now apply dirs_kept_remove in Hrm).
  assert (Hfs3 : fs3 = delete pz (w_fs w2)).
  { unfold remove in Hrm. destruct (w_fs w2 !! pz) as [[]|]; congruence. }
  (* the model is looked for *)
  apply bind_inv in Hout as [(e & Hc & _)|(fs & w3' & Hg & Hout)]; [discriminate|].
  injection Hg as <- <-. cbn [w_fs] in Hout.
  destruct (pick_files (walk folder fs3)) as [index_filepath model_filepath] eqn:Hpick.
  destruct model_filepath as [model_filepath|].
  { exfalso.
    apply bind_inv in Hout as [(e & Hc & [= He])|([] & w4 & _ & Hout)].
    { subst e. apply lift_fs_raises in Hc; [discriminate|]. intros fs e'.
      apply at_path_raises. intros p e''. apply rename_file_raises. }
    apply bind_inv in Hout as [(e & Hc & [= He])|([] & w5 & _ & Hout)].
    { subst e. destruct index_filepath; [|discriminate].
      apply lift_fs_raises in Hc; [discriminate|]. intros fs e'.
      apply at_path_raises. intros p e''. apply rename_file_raises. }
    apply bind_inv in Hout as [(e & Hc & _)|(fs & w5' & Hg & Hout)]; [discriminate|].
    injection Hg as <- <-.
    apply bind_inv in Hout as [(e & Hc & [= He])|(dirs & w5' & _ & Hout)].
    { subst e. injection Hc as Hc _. unfold listdir_dirs in Hc.
      apply at_path_raises in Hc; [discriminate|].
      intros p e'. destruct (isdir _ p); [discriminate|now intros [= <-]]. }
    pose proof (for_each_rmtree_returns dirs w5') as Hret.
    rewrite Hout in Hret. discriminate. }
  injection Hout as <- <-. cbn [w_fs].
  assert (Hd3 : path_isdir fs3 folder = true).
  { eapply path_isdir_mono; [exact Hk3|]. eapply path_isdir_mono; [exact Hk2|exact Hd1]. }
  split; [reflexivity|]. split; [now rewrite Hpick|]. split; [exact Hd3|]. split.
  - intros p Hp. unfold resolve_path in *.
    rewrite (resolve_from_mono _ _ _ _ _ Hk3 Hrz) in Hp. injection Hp as <-.
    rewrite Hfs3. apply lookup_delete_eq.
  - intros zip_path dir_name Hj. eexists. apply upload_zip_model_exists.
    cbn [w_fs]. rewrite Hj. now apply path_isdir_exists.
Qed.

(** X6, an instance: an archive whose only member is a small [.pth]
    file. *)
Lemma extract_zip_example :
  let folder := ExampleModels.models_dir ++ ["fresh"] in
  let out := @extract_zip ExampleModels.services folder ExampleUploads.archive
               ExampleUploads.world0 in
  plain_path folder = true
  /\ out.1 = Raise (GrError (model_not_found folder))
  /\ path_isdir (w_fs out.2) folder = true
  /\ w_fs out.2 !! (folder ++ ["model.pth"]) = Some (File "weights")
  /\ w_fs out.2 !! ExampleUploads.archive = None.
Proof.
  intros folder out.
  assert (Hout : out.1 = Raise (GrError (model_not_found folder)))
    by (vm_compute; reflexivity).
  destruct (@extract_zip_without_a_model ExampleModels.services folder
              ExampleUploads.archive ExampleUploads.world0 _ eq_refl Hout)
    as (_ & _ & Hd & Hz & _).
  split; [reflexivity|]. split; [exact Hout|]. split; [exact Hd|].
  split; [vm_compute; reflexivity|].
  apply Hz. vm_compute. reflexivity.
Defined.

(** *** Uploaded files *)

Lemma entries_kept_dirs_kept (fs fs' : gmap (list string) node) :
  entries_kept fs fs' -> dirs_kept fs fs'.
Proof. intros Hk p. apply Hk. Qed.

Lemma entries_kept_refl (fs : gmap (list string) node) : entries_kept fs fs.
Proof. now intros p n. Qed.

Lemma entries_kept_trans (fs1 fs2 fs3 : gmap (list string) node) :
  entries_kept fs1 fs2 -> entries_kept fs2 fs3 -> entries_kept fs1 fs3.
Proof. intros H12 H23 p n Hp. auto. Qed.

Lemma entries_kept_mkdir (p : list string) (fs fs' : gmap (list string) node) :
  mkdir p fs = Ok fs' -> entries_kept fs fs'.
Proof.
  unfold mkdir. destruct (exists_ fs p) eqn:Hex; [discriminate|].
  destruct (isdir fs (dirname p)); [|discriminate]. intros [= <-] q n Hq.
  rewrite lookup_insert_ne; [exact Hq|]. intros ->.
  unfold exists_ in Hex. destruct q; [discriminate|].
  apply bool_decide_eq_false_1 in Hex. apply Hex. eauto.
Qed.

Lemma entries_kept_mkdir_exist_ok (exist_ok : bool) (name : list string)
    (fs : gmap (list string) node) :
  entries_kept fs (mkdir_exist_ok exist_ok name fs).2.
Proof.
  unfold mkdir_exist_ok, at_path. destruct (resolve_path fs name) as [p|].
  - destruct (mkdir p fs) as [fs'|e] eqn:Hm; cbn [snd].
    + now apply entries_kept_mkdir in Hm.
    + destruct (exist_ok && path_isdir fs name); apply entries_kept_refl.
  - destruct (exist_ok && path_isdir fs name); apply entries_kept_refl.
Qed.

Lemma entries_kept_makedirs_fuel (fuel : nat) (exist_ok : bool) (name : list string)
    (fs : gmap (list string) node) :
  entries_kept fs (makedirs_fuel fuel exist_ok name fs).2.
Proof.
  revert name fs. induction fuel as [|fuel IH]; intros name fs; cbn [makedirs_fuel];
    destruct (negb _ && negb _);
    try apply entries_kept_mkdir_exist_ok; try apply entries_kept_refl.
  pose proof (IH (makedirs_split name).1 fs) as Hhead.
  destruct (match (makedirs_fuel fuel exist_ok (makedirs_split name).1 fs).1 with
            | Ok _ => true
            | Raise e => is_FileExistsError e
            end); [|exact Hhead].
  destruct (String.eqb _ "."); [exact Hhead|].
  eapply entries_kept_trans; [exact Hhead|apply entries_kept_mkdir_exist_ok].
Qed.

(** The directory of the last piece of a plain path that resolves. *)
Lemma resolve_from_parent (fs : gmap (list string) node) (raw cur p : list string) :
  plain_path raw = true -> raw <> [] ->
  resolve_from fs cur raw = Some p -> isdir fs (cur ++ removelast raw) = true.
Proof.
  revert cur. induction raw as [|c rest IH]; intros cur Hp Hne Hr; [contradiction|].
  cbn [plain_path forallb] in Hp. apply andb_true_iff in Hp as [Hc Hrest].
  apply negb_true_iff, special_false in Hc as (He & Hdot & Hdd).
  cbn [resolve_from] in Hr. rewrite He, Hdd, Hdot in Hr.
  destruct (isdir fs cur) eqn:Hd; [|discriminate].
  destruct rest as [|c' rest'].
  - cbn [removelast]. now rewrite app_nil_r.
  - specialize (IH (cur ++ [c]) Hrest ltac:(discriminate) Hr).
    change (removelast (c :: c' :: rest')) with (c :: removelast (c' :: rest')).
    now rewrite <- app_assoc in IH.
Qed.

(** Where a file can be written in a directory. *)
Lemma resolve_entry_written (fs : gmap (list string) node) (d : list string) (c : string)
    (p : list string) :
  plain_path d = true -> path_isdir fs d = true ->
  resolve_path fs (d ++ [c]) = Some p -> isdir fs p = false ->
  p = d ++ [c].
Proof.
  intros Hp Hd Hr Hn. destruct (resolve_path_dir _ _ Hp Hd) as [Hrd Hid].
  unfold resolve_path in *. rewrite resolve_from_app, Hrd in Hr.
  cbn [resolve_from] in Hr.
  destruct (String.eqb c EmptyString); [injection Hr as <-; congruence|].
  rewrite Hid in Hr.
  destruct (String.eqb c "..").
  - injection Hr as <-. destruct d as [|c0 d'] using rev_ind; [discriminate|].
    apply resolve_from_parent in Hrd; [|exact Hp|now destruct d'].
    cbn [app] in Hrd. unfold dirname in Hn. congruence.
  - destruct (String.eqb c "."); injection Hr as <-; [congruence|reflexivity].
Qed.

Lemma copyfile_returns (src dst : list string) (w w' : world) :
  copyfile src dst w = (Ok tt, w') ->
  exists ps pd data,
    resolve_path (w_fs w) src = Some ps /\ w_fs w !! ps = Some (File data)
    /\ resolve_path (w_fs w) dst = Some pd /\ isdir (w_fs w) pd = false
    /\ w' = {| w_fs := <[pd := File data]> (w_fs w); w_log := w_log w |}.
Proof.
  unfold copyfile, mbind, M_bind, get_fs, lift_result, open_write, lift_fs, at_path, raise.
  destruct (samefile (w_fs w) src dst); [discriminate|].
  destruct (resolve_path (w_fs w) src) as [ps|]; [|discriminate].
  unfold read_file. destruct (w_fs w !! ps) as [[data|]|] eqn:Hs; try discriminate.
  destruct (resolve_path (w_fs w) dst) as [pd|]; [|discriminate].
  unfold write_file. destruct (isdir (w_fs w) pd) eqn:Hd; [discriminate|].
  destruct (isdir (w_fs w) (dirname pd)); [|discriminate].
  intros [= <-]. exists ps, pd, data. auto.
Qed.

Lemma path_isdir_parent (fs : gmap (list string) node) (d : list string) (c : string) :
  plain_path d = true -> special c = false ->
  path_isdir fs (d ++ [c]) = true ->
  path_isdir fs d = true /\ fs !! (d ++ [c]) = Some Dir.
Proof.
  intros Hp Hc Hd.
  assert (Hall : plain_path (d ++ [c]) = true).
  { rewrite plain_path_app, Hp. cbn. now rewrite Hc. }
  destruct (resolve_path_dir _ _ Hall Hd) as [Hr Hi].
  split.
  - unfold resolve_path in Hr. rewrite resolve_from_app in Hr.
    unfold path_isdir, resolve_path.
    destruct (resolve_from fs [] d) as [q|] eqn:Hq; [|discriminate].
    apply resolve_from_plain in Hq as Heq; [|exact Hp]. cbn [app] in Heq. subst q.
    cbn [resolve_from] in Hr. apply special_false in Hc as (He & _).
    rewrite He in Hr. now destruct (isdir fs d).
  - apply isdir_true_lookup; [apply not_nil_snoc|exact Hi].
Qed.

Lemma dirs_kept_insert_file (fs : gmap (list string) node) (p : list string) (data : string) :
  isdir fs p = false -> dirs_kept fs (<[p := File data]> fs).
Proof.
  intros Hd q Hq. apply isdir_false_lookup in Hd as [_ Hd].
  rewrite lookup_insert_ne; [exact Hq|]. intros ->. contradiction.
Qed.

(** One of the two optional copies of [upload_separate_files]. *)
Lemma copy_into_folder (folder : list string) (file : option (list string)) (w w' : world) :
  plain_path folder = true -> path_isdir (w_fs w) folder = true ->
  match file with
  | Some src => copyfile src (folder ++ [path_basename src])
  | None => mret tt
  end w = (Ok tt, w') ->
  w_log w' = w_log w
  /\ dirs_kept (w_fs w) (w_fs w')
  /\ match file with
     | None => w_fs w' = w_fs w
     | Some src =>
         exists ps data,
           resolve_path (w_fs w) src = Some ps /\ w_fs w !! ps = Some (File data)
           /\ w_fs w' = <[folder ++ [path_basename src] := File data]> (w_fs w)
     end.
Proof.
  intros Hp Hd. destruct file as [src|].
  - intros Hc. apply copyfile_returns in Hc as (ps & pd & data & Hrs & Hs & Hrd & Hn & ->).
    pose proof (resolve_entry_written _ _ _ _ Hp Hd Hrd Hn) as ->.
    cbn [w_fs w_log]. split; [reflexivity|]. split; [now apply dirs_kept_insert_file|].
    eauto.
  - intros [= <-]. split; [reflexivity|]. split; [apply dirs_kept_refl|reflexivity].
Qed.

Lemma absent_below `{Services} (fs : gmap (list string) node) (dir_name c : string) :
  well_formed fs = true -> plain_path getcwd = true -> plain_name dir_name = true ->
  path_exists fs (rvc_models_dir ++ [dir_name]) = false ->
  fs !! ((rvc_models_dir ++ [dir_name]) ++ [c]) = None.
Proof.
  intros Hw Hcwd Hn Hex. destruct (fs !! (_ ++ [c])) as [n|] eqn:Hl; [|reflexivity].
  apply well_formed_spec in Hl; [|exact Hw]. unfold dirname in Hl.
  rewrite removelast_snoc in Hl. apply isdir_true_lookup in Hl; [|apply not_nil_snoc].
  rewrite (installed_path_exists fs dir_name Dir Hw Hcwd Hn Hl) in Hex. discriminate.
Qed.

(** X7.  When [upload_separate_files] returns, it returns the message of
    success and has reported no progress; the model is then among the
    folders that [get_folders] lists, the copy of the index file in the
    folder of the model holds what the uploaded file held, and so does
    the copy of the [.pth] file unless an index file of the same name was
    copied over it. *)
Theorem upload_separate_files_installs `{Services}
    (pth_file index_file : option (list string)) (dir_name : string) (w : world)
    (msg : string) :
  plain_path getcwd = true -> plain_name dir_name = true ->
  well_formed (w_fs w) = true ->
  let out := upload_separate_files pth_file index_file dir_name w in
  let folder := rvc_models_dir ++ [dir_name] in
  out.1 = Ok msg ->
  msg = loaded dir_name
  /\ w_log out.2 = w_log w
  /\ (exists folders,
        get_folders rvc_models_dir (w_fs out.2) = Ok folders /\ dir_name ∈ folders)
  /\ (forall index p data,
        index_file = Some index ->
        resolve_path (w_fs w) index = Some p -> w_fs w !! p = Some (File data) ->
        w_fs out.2 !! (folder ++ [path_basename index]) = Some (File data))
  /\ (forall pth p data,
        pth_file = Some pth ->
        resolve_path (w_fs w) pth = Some p -> w_fs w !! p = Some (File data) ->
        (forall index, index_file = Some index ->
                       path_basename index <> path_basename pth) ->
        w_fs out.2 !! (folder ++ [path_basename pth]) = Some (File data)).
Proof.
  intros Hcwd Hn Hwf out folder. subst out.
  pose proof (plain_path_rvc_models_dir Hcwd) as Hrvc.
  pose proof (plain_path_folder dir_name Hcwd Hn) as Hfolder. fold folder in Hfolder.
  pose proof (plain_name_special _ Hn) as Hs.
  destruct (upload_separate_files pth_file index_file dir_name w) as [r wf] eqn:Hout.
  cbn [fst snd]. intros ->.
  unfold upload_separate_files, reraise_as_gr_error in Hout.
  rewrite (path_join_plain _ _ Hn) in Hout. fold folder in Hout.
  match type of Hout with
  | (match ?b w with _ => _ end) = _ => destruct (b w) as [[m0|e] w'] eqn:Hbody
  end; [|discriminate].
  injection Hout as -> ->.
  apply bind_inv in Hbody as [(e & _ & Habs)|(fs & w0 & Hg & Hbody)]; [discriminate|].
  injection Hg as <- <-.
  destruct (path_exists (w_fs w) folder) eqn:Hex; [discriminate|].
  apply bind_inv in Hbody as [(e & _ & Habs)|([] & w1 & H1 & Hbody)]; [discriminate|].
  apply bind_inv in Hbody as [(e & _ & Habs)|([] & w2 & H2 & Hbody)]; [discriminate|].
  apply bind_inv in Hbody as [(e & _ & Habs)|([] & w3 & H3 & Hbody)]; [discriminate|].
  injection Hbody as <- <-.
  (* the folder is made *)
  unfold lift_st in H1. injection H1 as Hres Hw1.
  assert (Hk1 : entries_kept (w_fs w) (w_fs w1))
    by (rewrite <- Hw1; apply entries_kept_makedirs_fuel).
  assert (Hd1 : path_isdir (w_fs w1) folder = true)
    by (rewrite <- Hw1; now apply makedirs_fuel_isdir).
  assert (Hlog1 : w_log w1 = w_log w) by (now rewrite <- Hw1).
  clear Hres Hw1.
  (* the two copies *)
  apply copy_into_folder in H2 as (Hlog2 & Hk2 & Hpth); [|exact Hfolder|exact Hd1].
  assert (Hd2 : path_isdir (w_fs w2) folder = true)
    by (eapply path_isdir_mono; [exact Hk2|exact Hd1]).
  apply copy_into_folder in H3 as (Hlog3 & Hk3 & Hindex); [|exact Hfolder|exact Hd2].
  assert (Hd3 : path_isdir (w_fs w3) folder = true)
    by (eapply path_isdir_mono; [exact Hk3|exact Hd2]).
  assert (Hread1 : forall src p data,
             resolve_path (w_fs w) src = Some p -> w_fs w !! p = Some (File data) ->
             resolve_path (w_fs w1) src = Some p /\ w_fs w1 !! p = Some (File data)).
  { intros src p data Hr Hl. split; [|now apply Hk1].
    eapply resolve_from_mono; [|exact Hr]. now apply entries_kept_dirs_kept. }
  split; [reflexivity|]. split; [congruence|]. split; [|split].
  - destruct (path_isdir_parent _ _ _ Hrvc Hs Hd3) as [Hdr Hl].
    destruct (get_folders_spec _ _ Hrvc Hdr) as (folders & Hget & _ & Hin).
    exists folders. split; [exact Hget|]. now apply Hin.
  - intros index p data -> Hr Hl.
    destruct Hindex as (ps & data' & Hrs & Hls & ->). rewrite lookup_insert_eq.
    destruct (Hread1 _ _ _ Hr Hl) as [Hr1 Hl1].
    assert (Hr2 : resolve_path (w_fs w2) index = Some p)
      by (eapply resolve_from_mono; [exact Hk2|exact Hr1]).
    assert (Hl2 : w_fs w2 !! p = Some (File data)).
    { destruct pth_file as [pth|]; [|now rewrite Hpth].
      destruct Hpth as (_ & d & _ & _ & ->). rewrite lookup_insert_ne; [exact Hl1|].
      intros <-. unfold folder in Hl.
      rewrite (absent_below _ _ _ Hwf Hcwd Hn Hex) in Hl. discriminate. }
    congruence.
  - intros pth p data -> Hr Hl Hdiff.
    destruct Hpth as (ps & data' & Hrs & Hls & Hfs2).
    destruct (Hread1 _ _ _ Hr Hl) as [Hr1 Hl1].
    assert (data' = data) as -> by congruence.
    destruct index_file as [index|].
    + destruct Hindex as (_ & d & _ & _ & ->). rewrite lookup_insert_ne.
      * rewrite Hfs2. apply lookup_insert_eq.
      * intros Heq. apply app_inj_tail in Heq as [_ Heq]. now apply (Hdiff index).
    + rewrite Hindex, Hfs2. apply lookup_insert_eq.
Qed.

(** X7, an instance: the uploaded weights are installed as the model
    [fresh]. *)
Lemma upload_separate_files_example :
  let out := @upload_separate_files ExampleModels.services
               (Some ExampleModels.uploaded) None "fresh" ExampleModels.world0 in
  out.1 = Ok (loaded "fresh")
  /\ (exists folders,
        get_folders ExampleModels.models_dir (w_fs out.2) = Ok folders
        /\ "fresh" ∈ folders)
  /\ w_fs out.2 !! (ExampleModels.models_dir ++ ["fresh"; "model.pth"])
     = Some (File "new weights").
Proof.
  intros out.
  assert (Hout : out.1 = Ok (loaded "fresh")) by (vm_compute; reflexivity).
  destruct (@upload_separate_files_installs ExampleModels.services
              (Some ExampleModels.uploaded) None "fresh" ExampleModels.world0 _
              eq_refl eq_refl eq_refl Hout) as (_ & _ & Hlist & _ & Hpth).
  split; [exact Hout|]. split; [exact Hlist|].
  apply (Hpth ExampleModels.uploaded ExampleModels.uploaded "new weights");
    [reflexivity|vm_compute; reflexivity|vm_compute; reflexivity|discriminate].
Defined.

(** *** Links to Yandex Disk *)

(** X20.  For a link to Yandex Disk, [download_file] reports progress once
    and asks the Yandex API for a download link.  When the request raises,
    the exception is passed on; when the answer does not have the status
    200, a [gr.Error] with the status code is raised; when the answer has
    no [href], [urlretrieve] raises a [TypeError]: in these cases nothing
    is written.  Otherwise what is fetched into the archive is the [href]
    of the answer, not the link that was given. *)
Theorem yandex_link_asks_for_the_download_link `{Services} (url : string)
    (zip_name : list string) (w : world) :
  yandex_link url = true ->
  let w1 := {| w_fs := w_fs w;
               w_log := w_log w
                        ++ [Progress 0.5 "[~] Загрузка модели с Яндекс Диска..."] |} in
  (forall e, requests_get (yandex_api_url url) = Raise e ->
             download_file url zip_name w = (Raise e, w1))
  /\ (forall resp, requests_get (yandex_api_url url) = Ok resp ->
        status_code resp <> 200%nat ->
        download_file url zip_name w
        = (Raise (GrError
                    (String.append
                       "Ошибка при получении ссылки на скачивание с Яндекс Диск: "
                       (pretty (status_code resp)))), w1))
  /\ (forall resp e, requests_get (yandex_api_url url) = Ok resp ->
        status_code resp = 200%nat -> json_href resp = Raise e ->
        download_file url zip_name w = (Raise e, w1))
  /\ (forall resp, requests_get (yandex_api_url url) = Ok resp ->
        status_code resp = 200%nat -> json_href resp = Ok None ->
        exists msg, download_file url zip_name w = (Raise (TypeError msg), w1))
  /\ (forall resp link, requests_get (yandex_api_url url) = Ok resp ->
        status_code resp = 200%nat -> json_href resp = Ok (Some link) ->
        download_file url zip_name w = save (urlretrieve link) zip_name w1).
Proof.
  intros Hy w1. unfold yandex_link in Hy.
  apply andb_true_iff in Hy as [Hy Hyandex]. apply andb_true_iff in Hy as [Hy Hmega].
  apply andb_true_iff in Hy as [Hy Hpixel]. apply andb_true_iff in Hy as [Hdrive Hhf].
  apply negb_true_iff in Hdrive, Hhf, Hpixel, Hmega.
  unfold download_file. rewrite Hdrive, Hhf, Hpixel, Hmega, Hyandex.
  fold (yandex_api_url url).
  unfold mbind at 1, M_bind at 1, progress at 1. fold w1.
  unfold mbind, M_bind, lift_result, raise.
  split; [|split; [|split; [|split]]].
  - intros e ->. reflexivity.
  - intros resp -> Hs. apply Nat.eqb_neq in Hs. now rewrite Hs.
  - intros resp e -> Hs He. rewrite Hs, He. reflexivity.
  - intros resp -> Hs He. rewrite Hs, He. eexists. reflexivity.
  - intros resp link -> Hs He. rewrite Hs, He. reflexivity.
Qed.

(** X20, an instance: the API cannot be reached. *)
Lemma yandex_link_example :
  let out := @download_file ExampleModels.services "https://yadi.sk/d/abc"
               (ExampleModels.models_dir ++ ["fresh.zip"]) ExampleModels.world0 in
  out.1 = Raise (OSError "ConnectionError") /\ w_fs out.2 = ExampleModels.installed.
Proof.
  intros out.
  destruct (@yandex_link_asks_for_the_download_link ExampleModels.services
              "https://yadi.sk/d/abc" (ExampleModels.models_dir ++ ["fresh.zip"])
              ExampleModels.world0 eq_refl) as (Hraise & _).
  unfold out. rewrite (Hraise _ eq_refl). split; reflexivity.
Defined.

End ModelFoldersFacts.
(** ** More on the synthesizer *)

Module ModelsFacts.

(** *** Truncation by [rate], for every [rate] *)

Lemma slice_from_kept {A} (head : Z) (l : list A) :
  slice_from (- head) l = skipn (length l - kept_frames (length l) head) l
  /\ length (slice_from (- head) l) = kept_frames (length l) head.
Proof.
  unfold slice_from, kept_frames.
  destruct (Z.ltb_spec (- head) 0), (Z.ltb_spec 0 head); try lia.
  - replace (Z.to_nat (Z.max 0 (- head + Z.of_nat (length l))))
      with (length l - Nat.min (Z.to_nat head) (length l))%nat by lia.
    split; [reflexivity|]. rewrite length_skipn. lia.
  - replace (Z.to_nat (Z.min (- head) (Z.of_nat (length l))))
      with (length l - (length l - Z.to_nat (- head)))%nat by lia.
    split; [reflexivity|]. rewrite length_skipn. lia.
Qed.

Lemma has_shape3_size2 {A} (x : list (list (list A))) (B C T : nat) :
  has_shape3 x B C T -> (1 <= B)%nat -> (1 <= C)%nat -> size2 x = T.
Proof.
  intros [Hb Hx] HB HC. destruct x as [|xb x]; [simpl in Hb; lia|].
  apply Forall_cons in Hx as [[Hc Hxb] _].
  destruct xb as [|xc xb]; [simpl in Hc; lia|].
  now apply Forall_cons in Hxb as [Ht _].
Qed.

Lemma slice_dim2_shape {A} (head : Z) (x : list (list (list A))) (B C T : nat) :
  has_shape3 x B C T -> has_shape3 (slice_dim2 (- head) x) B C (kept_frames T head).
Proof.
  intros [Hb Hx]. unfold slice_dim2. split; [now rewrite length_map|].
  apply Forall_map. eapply Forall_impl; [exact Hx|]. intros xb [Hc Hxb]. cbn beta.
  split; [now rewrite length_map|].
  apply Forall_map. eapply Forall_impl; [exact Hxb|]. intros xc Ht. cbn beta.
  rewrite (proj2 (slice_from_kept head xc)). now rewrite Ht.
Qed.

Lemma slice_dim1_shape {A} (head : Z) (x : list (list A)) (B T : nat) :
  has_shape2 x B T -> has_shape2 (slice_dim1 (- head) x) B (kept_frames T head).
Proof.
  intros [Hb Hx]. unfold slice_dim1. split; [now rewrite length_map|].
  apply Forall_map. eapply Forall_impl; [exact Hx|]. intros xb Ht. cbn beta.
  rewrite (proj2 (slice_from_kept head xb)). now rewrite Ht.
Qed.

Lemma nth_slice_from (head : Z) (l : list R) (t : nat) :
  nth t (slice_from (- head) l) 0
  = nth (length l - kept_frames (length l) head + t) l 0.
Proof. rewrite (proj1 (slice_from_kept head l)). apply nth_skipn. Qed.

Lemma at3_slice_dim2 (head : Z) (x : Tensor3) (B C T b c t : nat) :
  has_shape3 x B C T -> (b < B)%nat -> (c < C)%nat ->
  at3 (slice_dim2 (- head) x) b c t = at3 x b c (T - kept_frames T head + t).
Proof.
  intros [Hb Hx] Hlb Hlc. unfold at3, slice_dim2.
  rewrite <- Hb in Hlb.
  rewrite (nth_indep _ [] (map (slice_from (- head)) []))
    by (now rewrite length_map).
  rewrite map_nth.
  assert (Hxb : length (nth b x []) = C
                /\ Forall (fun xc => length xc = T) (nth b x [])).
  { rewrite List.Forall_forall in Hx. apply Hx. now apply nth_In. }
  destruct Hxb as [Hc Hxb]. rewrite <- Hc in Hlc.
  rewrite (nth_indep _ [] (slice_from (- head) [])) by (now rewrite length_map).
  rewrite map_nth, nth_slice_from.
  assert (Ht : length (nth c (nth b x []) []) = T).
  { rewrite List.Forall_forall in Hxb. apply Hxb. now apply nth_In. }
  now rewrite Ht.
Qed.

Lemma at2_slice_dim1 (head : Z) (x : Tensor2) (B T b t : nat) :
  has_shape2 x B T -> (b < B)%nat ->
  at2 (slice_dim1 (- head) x) b t = at2 x b (T - kept_frames T head + t).
Proof.
  intros [Hb Hx] Hlb. unfold at2, slice_dim1. rewrite <- Hb in Hlb.
  rewrite (nth_indep _ [] (slice_from (- head) [])) by (now rewrite length_map).
  rewrite map_nth, nth_slice_from.
  assert (Ht : length (nth b x []) = T).
  { rewrite List.Forall_forall in Hx. apply Hx. now apply nth_In. }
  now rewrite Ht.
Qed.

(** X8.  Lines 274-276 of [infer], for every [rate] (an [int] or a
    [float]), on a latent, a mask and a pitch of [T] frames.  A rate that
    counts as false (0, 0.0, -0.0) leaves the three sequences whole.  For a
    rate that counts as true, with [head = int(T * rate)], where for a
    [float] the product is the rounded product of binary64: the latent,
    the mask and the pitch are cut to the same number of frames, and these
    are their last frames.  The number is [head] for [1 <= head <= T]; it
    is [T] for [head > T] (a rate above 1 cuts nothing) and for [head = 0];
    and for a negative [head] (a negative rate) it is the first [-head]
    frames that are dropped.  When [int] raises (the product is infinite
    or not a number) the lines raise that exception. *)
Theorem truncate_rate_keeps_the_last_frames (r : number) (z_p x_mask : Tensor3)
    (nsff0 : FloatTensor2) (B C T : nat) :
  (1 <= B)%nat -> (1 <= C)%nat ->
  has_shape3 z_p B C T -> has_shape3 x_mask B 1 T -> has_shape2 (ft_data nsff0) B T ->
  (py_truthy (Some r) = false ->
   truncate_rate (Some r) z_p x_mask nsff0 = Ok (z_p, x_mask, nsff0))
  /\ (forall e, py_truthy (Some r) = true -> truncate_head T r = Raise e ->
        truncate_rate (Some r) z_p x_mask nsff0 = Raise e)
  /\ (forall head, py_truthy (Some r) = true -> truncate_head T r = Ok head ->
        let k := kept_frames T head in
        exists out,
          truncate_rate (Some r) z_p x_mask nsff0 = Ok out
          /\ (has_shape3 out.1.1 B C k /\ has_shape3 out.1.2 B 1 k
              /\ has_shape2 (ft_data out.2) B k /\ ft_dtype out.2 = ft_dtype nsff0)
          /\ (forall b c t, (b < B)%nat -> (c < C)%nat ->
                at3 out.1.1 b c t = at3 z_p b c (T - k + t))
          /\ (forall b t, (b < B)%nat ->
                at3 out.1.2 b 0 t = at3 x_mask b 0 (T - k + t)
                /\ at2 (ft_data out.2) b t = at2 (ft_data nsff0) b (T - k + t))
          /\ ((1 <= head <= Z.of_nat T)%Z -> Z.of_nat k = head)
          /\ ((Z.of_nat T <= head)%Z \/ head = 0%Z -> k = T)
          /\ ((head <= 0)%Z -> k = (T - Z.to_nat (- head))%nat)).
Proof.
  intros HB HC Hz Hm Hf.
  pose proof (has_shape3_size2 _ _ _ _ Hz HB HC) as Hsize.
  split; [|split].
  - intros Hfalse. unfold truncate_rate. now rewrite Hfalse.
  - intros e Htrue He. unfold truncate_rate. now rewrite Htrue, Hsize, He.
  - intros head Htrue Hhead k.
    exists (slice_dim2 (- head) z_p, slice_dim2 (- head) x_mask,
            {| ft_dtype := ft_dtype nsff0;
               ft_data := slice_dim1 (- head) (ft_data nsff0) |}).
    split; [unfold truncate_rate; now rewrite Htrue, Hsize, Hhead|].
    cbn [fst snd ft_data ft_dtype].
    split; [|split; [|split; [|split; [|split]]]].
    + split; [now apply slice_dim2_shape|]. split; [now apply slice_dim2_shape|].
      split; [now apply slice_dim1_shape|reflexivity].
    + intros b c t Hb Hc. now apply (at3_slice_dim2 head z_p B C T).
    + intros b t Hb. split.
      * apply (at3_slice_dim2 head x_mask B 1 T); [exact Hm|exact Hb|lia].
      * now apply (at2_slice_dim1 head _ B T).
    + intros Hh. subst k. unfold kept_frames. destruct (Z.ltb_spec 0 head); lia.
    + intros Hh. subst k. unfold kept_frames. destruct (Z.ltb_spec 0 head); lia.
    + intros Hh. subst k. unfold kept_frames. destruct (Z.ltb_spec 0 head); lia.
Qed.

(** X8, an instance: on 100 frames the rate 0.29 gives
    [head = int(28.999999999999996) = 28], so that the 28 last frames are
    kept and the first frame kept is frame 72. *)
Lemma truncate_rate_example :
  let z_p : Tensor3 := tab3 1 1 100 (fun _ _ t => INR t) in
  let nsff0 := {| ft_dtype := float32; ft_data := tab2 1 100 (fun _ t => INR t) |} in
  truncate_head 100 Example.rate_029 = Ok 28%Z
  /\ exists out,
       truncate_rate (Some Example.rate_029) z_p z_p nsff0 = Ok out
       /\ has_shape3 out.1.1 1 1 28
       /\ at3 out.1.1 0 0 0 = INR 72.
Proof.
  intros z_p nsff0.
  assert (Hhead : truncate_head 100 Example.rate_029 = Ok 28%Z) by (vm_compute; reflexivity).
  split; [exact Hhead|].
  destruct (truncate_rate_keeps_the_last_frames Example.rate_029 z_p z_p nsff0 1 1 100
              (le_n 1) (le_n 1) (tab3_has_shape 1 1 100 _) (tab3_has_shape 1 1 100 _)
              (tab2_has_shape 1 100 _)) as (_ & _ & Hcut).
  destruct (Hcut 28%Z eq_refl Hhead) as (out & Hout & (Hshape & _) & Hat & _).
  exists out. split; [exact Hout|]. split; [exact Hshape|].
  rewrite (Hat 0%nat 0%nat 0%nat (le_n 1) (le_n 1)).
  unfold z_p. rewrite at3_tab3 by (vm_compute; lia). reflexivity.
Defined.

(** *** The flow and its inverse *)

Section FlowRoundTrip.
Context {Flow X : Type}.
Variable flow_call : Flow -> X -> Tensor3 -> option Tensor3 -> bool -> X.

(** X9.  When, for every step of a block, the call with [reverse=True]
    undoes the call with [reverse=False] (for the mask and the speaker
    embedding at hand), the pass of the block with [reverse=True] undoes
    its pass with [reverse=False]: running the steps in the reversed order
    is what makes the block of [infer] the inverse of the block of the
    training pass.  The same holds the other way round. *)
Theorem flow_reverse_inverts_forward (flows : list Flow) (x_mask : Tensor3)
    (g : option Tensor3) :
  ((forall flow x, In flow flows ->
      flow_call flow (flow_call flow x x_mask g false) x_mask g true = x) ->
   forall x,
     ResidualCouplingBlock_forward flow_call flows
       (ResidualCouplingBlock_forward flow_call flows x x_mask g false) x_mask g true = x)
  /\ ((forall flow x, In flow flows ->
         flow_call flow (flow_call flow x x_mask g true) x_mask g false = x) ->
      forall x,
        ResidualCouplingBlock_forward flow_call flows
          (ResidualCouplingBlock_forward flow_call flows x x_mask g true) x_mask g false = x).
Proof.
  unfold ResidualCouplingBlock_forward. split.
  - induction flows as [|a l IH] using rev_ind; intros Hinv x; [reflexivity|].
    rewrite rev_app_distr. cbn [rev app fold_left].
    rewrite fold_left_app. cbn [fold_left].
    rewrite Hinv by (apply in_or_app; right; now left).
    apply IH. intros flow y Hin. apply Hinv. apply in_or_app. now left.
  - induction flows as [|a l IH]; intros Hinv x; [reflexivity|].
    cbn [rev]. rewrite fold_left_app. cbn [fold_left].
    rewrite Hinv by (now left).
    apply IH. intros flow y Hin. apply Hinv. now right.
Qed.

End FlowRoundTrip.

(** X9, an instance: steps that add a number, undone by subtracting it. *)
Lemma flow_round_trip_example :
  let call := fun (a x : Z) (_ : Tensor3) (_ : option Tensor3) (reverse : bool) =>
                if reverse then (x - a)%Z else (x + a)%Z in
  ResidualCouplingBlock_forward call [1; 20; 300]%Z 5%Z [] None false = 326%Z
  /\ ResidualCouplingBlock_forward call [1; 20; 300]%Z 326%Z [] None true = 5%Z.
Proof.
  intros call. split; [reflexivity|].
  change 326%Z with (ResidualCouplingBlock_forward call [1; 20; 300]%Z 5%Z [] None false).
  apply (proj1 (flow_reverse_inverts_forward call [1; 20; 300]%Z [] None)).
  intros flow x _. unfold call. lia.
Defined.

(** *** [remove_weight_norm] on the block of flows *)

Section RemoveWeightNormFacts.
Context {Layer : Type}.
Variable rm : Layer -> result Layer.

Lemma every_second_init {A} (a b : A) (n : nat) :
  every_second (ResidualCouplingBlock_init a b n) = repeat a n.
Proof.
  unfold ResidualCouplingBlock_init. induction n as [|n IH]; [reflexivity|].
  cbn [repeat concat app every_second]. now rewrite IH.
Qed.

Lemma removal_raised (l : list step_ref) (e : exn) (layer : Layer) :
  fold_left
    (fun (acc : result unit * Layer) flow =>
       match acc.1 with
       | Raise _ => acc
       | Ok _ =>
           match step_remove_weight_norm rm flow acc.2 with
           | Ok layer' => (Ok tt, layer')
           | Raise e => (Raise e, acc.2)
           end
       end) l (Raise e, layer) = (Raise e, layer).
Proof. induction l as [|a l IH]; [reflexivity|exact IH]. Qed.

Lemma removal_of_layer (n : nat) (layer : Layer) :
  ResidualCouplingBlock_remove_weight_norm rm
    (ResidualCouplingBlock_init TheLayer TheFlip n) layer
  = repeated_removal rm n layer.
Proof.
  unfold ResidualCouplingBlock_remove_weight_norm. rewrite every_second_init.
  revert layer. induction n as [|n IH]; intros layer; [reflexivity|].
  cbn [repeat fold_left repeated_removal fst snd step_remove_weight_norm].
  destruct (rm layer) as [layer'|e]; [apply IH|apply removal_raised].
Qed.

(** X10.  [ResidualCouplingBlock.remove_weight_norm] walks over
    [self.flows[::2]], which holds [n_flows] references to the one coupling
    layer that [__init__] made: the method of that layer is called
    [n_flows] times on the same object (up to the first call that raises),
    and the flip, which has no such method, is never asked.  So when the
    method cannot be called twice on an object, the call on a block with
    two or more repetitions raises, with the layer left as the first call
    left it. *)
Theorem remove_weight_norm_repeats_on_one_layer (n_flows : nat) (layer : Layer) :
  ResidualCouplingBlock_remove_weight_norm rm
    (ResidualCouplingBlock_init TheLayer TheFlip n_flows) layer
  = repeated_removal rm n_flows layer
  /\ (forall layer1 e,
        rm layer = Ok layer1 -> rm layer1 = Raise e -> (2 <= n_flows)%nat ->
        ResidualCouplingBlock_remove_weight_norm rm
          (ResidualCouplingBlock_init TheLayer TheFlip n_flows) layer
        = (Raise e, layer1)).
Proof.
  split; [apply removal_of_layer|].
  intros layer1 e H1 H2 Hn. rewrite removal_of_layer.
  destruct n_flows as [|[|n]]; [lia|lia|].
  cbn [repeated_removal]. now rewrite H1, H2.
Qed.

End RemoveWeightNormFacts.

(** X10, an instance: a layer whose weight norm can be removed once, in a
    block with the default four repetitions. *)
Lemma remove_weight_norm_example :
  let rm := fun normed : bool =>
              if normed then Ok false
              else Raise (ValueError "weight_norm of 'weight' not found") in
  ResidualCouplingBlock_remove_weight_norm rm
    (ResidualCouplingBlock_init TheLayer TheFlip 4) true
  = (Raise (ValueError "weight_norm of 'weight' not found"), false).
Proof.
  intros rm.
  apply (proj2 (remove_weight_norm_repeats_on_one_layer rm 4 true) false _ eq_refl eq_refl).
  repeat constructor.
Defined.

(** *** The constructors *)

Lemma load_name_i (args : GeneratorNSF_args) :
  load_name (GeneratorNSF_init_scope args) "i" = Raise (NameError "i").
Proof. reflexivity. Qed.

Lemma noise_conv_strides_raises (args : GeneratorNSF_args) :
  noise_conv_strides (GeneratorNSF_init_scope args) = Raise (NameError "i").
Proof. reflexivity. Qed.

Section Constructors.
Context {Args Enc Dec Obj : Type}.
Variable generator_args : Args -> GeneratorNSF_args.
Variable new_TextEncoder : Args -> bool -> result Enc.
Variable finish_GeneratorNSF : GeneratorNSF_args -> sample_rate -> bool -> list Z -> result Dec.
Variable finish_Synthesizer : Args -> Enc -> Dec -> result Obj.

(** X11.  No call of [GeneratorNSF.__init__] returns: line 191 reads the
    name [i] in the iterable of its comprehension, where no [i] is bound,
    so every call raises [NameError].  Hence no call of
    [SynthesizerTrnMsNSFsid.__init__] or of
    [SynthesizerTrnMsNSFsid_nono.__init__] returns either: a string [sr]
    that is no key of [sr2sr] raises [KeyError], otherwise the text
    encoder is built and, unless that raises, the vocoder raises the
    [NameError]. *)
Theorem constructors_never_return (args : Args) (sr : sample_rate) (is_half f0 : bool) :
  let init := SynthesizerTrnMsNSFsid_init generator_args new_TextEncoder
                finish_GeneratorNSF finish_Synthesizer in
  (forall gargs, GeneratorNSF_init finish_GeneratorNSF gargs sr is_half
                 = Raise (NameError "i"))
  /\ is_ok (init args sr is_half f0) = false
  /\ is_ok (SynthesizerTrnMsNSFsid_nono_init init args sr) = false
  /\ (forall s, sr = SrStr s -> is_ok (dict_get sr2sr s) = false ->
        init args sr is_half f0 = Raise (KeyError s))
  /\ (forall enc, (forall s, sr = SrStr s -> is_ok (dict_get sr2sr s) = true) ->
        new_TextEncoder args f0 = Ok enc ->
        init args sr is_half f0 = Raise (NameError "i")).
Proof.
  intros init.
  assert (Hgen : forall gargs sr', GeneratorNSF_init finish_GeneratorNSF gargs sr' is_half
                                   = Raise (NameError "i")).
  { intros gargs sr'. unfold GeneratorNSF_init. now rewrite noise_conv_strides_raises. }
  assert (Hinit : forall f0', is_ok (init args sr is_half f0') = false).
  { intros f0'. unfold init, SynthesizerTrnMsNSFsid_init.
    destruct sr as [n|s|]; cbn [mbind result_bind];
      try (destruct (dict_get sr2sr s); cbn [mbind result_bind]; [|reflexivity]);
      (destruct (new_TextEncoder args f0'); cbn [mbind result_bind];
       [now rewrite Hgen|reflexivity]). }
  split; [intros gargs; apply Hgen|]. split; [apply Hinit|].
  split; [apply Hinit|]. split.
  - intros s -> Hs. unfold init, SynthesizerTrnMsNSFsid_init.
    destruct (dict_get sr2sr s) as [n|e] eqn:Hd; [discriminate|].
    cbn [mbind result_bind]. f_equal. clear -Hd.
    induction sr2sr as [|[k v] d IH]; cbn [dict_get] in Hd; [now injection Hd as <-|].
    destruct (String.eqb k s); [discriminate|auto].
  - intros enc Hsr Henc. unfold init, SynthesizerTrnMsNSFsid_init.
    destruct sr as [n|s|]; cbn [mbind result_bind];
      try (specialize (Hsr s eq_refl); destruct (dict_get sr2sr s);
           [cbn [mbind result_bind]|discriminate]);
      rewrite Henc; cbn [mbind result_bind]; now rewrite Hgen.
Qed.

End Constructors.

(** X11, an instance: the configuration of a 40k model. *)
Lemma constructors_example :
  let gargs := {| a_initial_channel := 192; a_resblock_kernel_sizes := [3; 7; 11];
                  a_upsample_rates := [10; 10; 2; 2]; a_upsample_initial_channel := 512;
                  a_upsample_kernel_sizes := [16; 16; 4; 4]; a_gin_channels := 256 |}%Z in
  @SynthesizerTrnMsNSFsid_init unit unit unit unit
    (fun _ => gargs) (fun _ _ => Ok tt) (fun _ _ _ _ => Ok tt) (fun _ _ _ => Ok tt)
    tt (SrStr "40k") false true
  = Raise (NameError "i")
  /\ @SynthesizerTrnMsNSFsid_init unit unit unit unit
       (fun _ => gargs) (fun _ _ => Ok tt) (fun _ _ _ _ => Ok tt) (fun _ _ _ => Ok tt)
       tt (SrStr "44k") false true
     = Raise (KeyError "44k").
Proof.
  intros gargs. split.
  - apply (proj2 (proj2 (proj2 (proj2
             (@constructors_never_return unit unit unit unit
                (fun _ => gargs) (fun _ _ => Ok tt) (fun _ _ _ _ => Ok tt)
                (fun _ _ _ => Ok tt) tt (SrStr "40k") false true)))) tt).
    + now intros s [= <-].
    + reflexivity.
  - apply (proj1 (proj2 (proj2 (proj2
             (@constructors_never_return unit unit unit unit
                (fun _ => gargs) (fun _ _ => Ok tt) (fun _ _ _ _ => Ok tt)
                (fun _ _ _ => Ok tt) tt (SrStr "44k") false true)))) "44k");
      reflexivity.
Defined.

(** *** A generator as its constructor makes it *)

Lemma skipn_flat_map_blocks {A B} (f : A -> list B) (n : nat) (l : list A) (i : nat) :
  (forall a, length (f a) = n) ->
  skipn (i * n) (flat_map f l) = flat_map f (skipn i l).
Proof.
  intros Hlen. revert l. induction i as [|i IH]; intros l; [reflexivity|].
  destruct l as [|a l]; [now rewrite skipn_nil|].
  assert (Hs : skipn n (f a ++ flat_map f l) = flat_map f l).
  { rewrite <- (Hlen a). rewrite skipn_app, skipn_all, Nat.sub_diag. reflexivity. }
  cbn [flat_map skipn Nat.mul]. rewrite Nat.add_comm, <- skipn_skipn, Hs. apply IH.
Qed.

Lemma firstn_flat_map_block {A B} (f : A -> list B) (n : nat) (a : A) (l : list A) :
  length (f a) = n -> firstn n (flat_map f (a :: l)) = f a.
Proof.
  intros Hlen. cbn [flat_map]. rewrite <- Hlen.
  rewrite firstn_app, Nat.sub_diag, firstn_all. cbn [firstn]. apply app_nil_r.
Qed.

Lemma length_flat_map_blocks {A B} (f : A -> list B) (n : nat) (l : list A) :
  (forall a, length (f a) = n) -> length (flat_map f l) = (length l * n)%nat.
Proof.
  intros Hlen. induction l as [|a l IH]; [reflexivity|].
  cbn [flat_map length]. rewrite length_app, Hlen, IH. lia.
Qed.

Section GeneratorInitFacts.
Context `{InferPack}.
Variable Conv1d : Z -> Z -> Z -> Z -> Z -> bool -> Tensor3 -> Tensor3.
Variable ConvTranspose1d : Z -> Z -> Z -> Z -> Z -> Tensor3 -> Tensor3.
Variable resblock : Z -> Z -> list Z -> Tensor3 -> Tensor3.

(** X12.  A generator built by [Generator.__init__] from lists of fitting
    lengths (a kernel size for every upsampling rate, a list of dilations
    for every kernel size of the residual blocks, and at least one such
    kernel size when there is a rate) has one upsampling layer per rate;
    the blocks that [forward] reads at the indices
    [i * num_kernels + j] of stage [i] are the blocks built for the width
    of that stage, one per kernel size, in their order; and [forward]
    returns a waveform within [-1, 1] (with a speaker embedding only when
    [gin_channels] is not 0). *)
Theorem Generator_init_fits (initial_channel : Z)
    (resblock_kernel_sizes : list Z) (resblock_dilation_sizes : list (list Z))
    (upsample_rates : list Z) (upsample_initial_channel : Z)
    (upsample_kernel_sizes : list Z) (gin_channels : Z) :
  (length upsample_rates <= length upsample_kernel_sizes)%nat ->
  (length resblock_kernel_sizes <= length resblock_dilation_sizes)%nat ->
  (upsample_rates = [] \/ resblock_kernel_sizes <> []) ->
  let self := Generator_init Conv1d ConvTranspose1d resblock initial_channel
                resblock_kernel_sizes resblock_dilation_sizes upsample_rates
                upsample_initial_channel upsample_kernel_sizes gin_channels in
  length (gn_ups self) = length upsample_rates
  /\ (forall i, (i < length upsample_rates)%nat ->
        stage_blocks (gn_resblocks self) (gn_num_kernels self) i
        = map (fun '(k, d) =>
                 resblock (channels_at upsample_initial_channel (i + 1)) k d)
              (zip resblock_kernel_sizes resblock_dilation_sizes))
  /\ Generator_fits self
  /\ forall x g, (g = None \/ gin_channels <> 0%Z) ->
       exists y, Generator_forward self x g = Ok y /\ in_unit_range y.
Proof.
  intros Hk Hd Hne self.
  set (block := fun i : nat =>
                  map (fun '(k, d) =>
                         resblock (channels_at upsample_initial_channel (i + 1)) k d)
                      (zip resblock_kernel_sizes resblock_dilation_sizes)).
  assert (Hblock : forall i, length (block i) = length resblock_kernel_sizes).
  { intros i. unfold block. rewrite length_map, length_zip_with. lia. }
  assert (Hlen_ups : length (Generator_init_ups ConvTranspose1d upsample_rates
                                upsample_kernel_sizes upsample_initial_channel)
                      = length upsample_rates).
  { unfold Generator_init_ups, enumerate.
    rewrite length_map, !length_zip_with, length_seq. lia. }
  assert (Hups : length (gn_ups self) = length upsample_rates) by exact Hlen_ups.
  assert (Hres : gn_resblocks self = flat_map block (seq 0 (length upsample_rates))).
  { unfold self, Generator_init. cbn [gn_resblocks]. now rewrite Hlen_ups. }
  assert (Hfits : Generator_fits self).
  { unfold Generator_fits. rewrite Hups, Hres.
    rewrite (length_flat_map_blocks block _ _ Hblock), length_seq.
    unfold self, Generator_init. cbn [gn_num_upsamples gn_num_kernels].
    split; [lia|]. split; [lia|].
    destruct Hne as [->|Hne]; [now left|right].
    destruct resblock_kernel_sizes; [contradiction|cbn; lia]. }
  split; [exact Hups|]. split; [|split; [exact Hfits|]].
  - intros i Hi. unfold stage_blocks. rewrite Hres.
    unfold self, Generator_init. cbn [gn_num_kernels].
    rewrite (skipn_flat_map_blocks block _ _ _ Hblock).
    rewrite skipn_seq.
    destruct (length upsample_rates - i)%nat as [|m] eqn:Hm; [lia|].
    cbn [seq Nat.add]. exact (firstn_flat_map_block block _ i _ (Hblock i)).
  - intros x g Hg.
    destruct (Generator_forward_returns self x g Hfits) as (y & Hy).
    { destruct Hg as [->|Hg]; [now left|right].
      unfold self, Generator_init. cbn [gn_cond].
      destruct (Z.eqb_spec gin_channels 0); [contradiction|eauto]. }
    exists y. split; [exact Hy|].
    unfold Generator_forward in Hy. apply bind_Ok in Hy as (x_last & _ & [= <-]).
    apply map3_tanh_in_unit_range.
Qed.

End GeneratorInitFacts.

(** X12, an instance: two upsampling stages with two residual blocks
    each. *)
Lemma Generator_init_example :
  let self := Generator_init (fun _ _ _ _ _ _ x => x) (fun _ _ _ _ _ x => x)
                (fun _ _ _ x => x) 192 [3; 7]%Z [[1; 3; 5]; [1; 3; 5]]%Z [10; 2]%Z
                512 [16; 4]%Z 0 in
  length (gn_ups self) = 2%nat
  /\ length (gn_resblocks self) = 4%nat
  /\ exists y, @Generator_forward Example.pack self [[[1; -2]]] None = Ok y
               /\ in_unit_range y.
Proof.
  intros self.
  assert (Hne : [10; 2]%Z = [] \/ [3; 7]%Z <> []) by (right; discriminate).
  destruct (@Generator_init_fits Example.pack (fun _ _ _ _ _ _ x => x)
              (fun _ _ _ _ _ x => x) (fun _ _ _ x => x) 192 [3; 7]%Z
              [[1; 3; 5]; [1; 3; 5]]%Z [10; 2]%Z 512 [16; 4]%Z 0
              (le_n 2) (le_n 2) Hne)
    as (Hups & _ & _ & Hrun).
  split; [exact Hups|]. split; [reflexivity|].
  apply Hrun. now left.
Defined.

(** *** The discriminators *)

Section DiscriminatorFacts.
Context `{InferPack}.

(** A comprehension that passes the same input to two convolutions built
    for different numbers of channels raises. *)
Lemma comprehension_of_convs_raises {A} (act : list (list A) -> list (list A))
    (c1 c2 : Conv (list (list A))) (convs : list (Conv (list (list A))))
    (x : list (list A)) :
  conv_in_channels c1 <> conv_in_channels c2 ->
  comprehension (fun conv => y ← conv_call conv x; Ok (act y)) (c1 :: c2 :: convs)
  = Raise (RuntimeError "expected input to have in_channels channels").
Proof.
  intros Hne. cbn [comprehension]. unfold conv_call.
  destruct (Nat.eqb_spec (size1 x) (conv_in_channels c1)) as [H1|H1]; [|reflexivity].
  destruct (Nat.eqb_spec (size1 x) (conv_in_channels c2)) as [H2|H2]; [|reflexivity].
  congruence.
Qed.

Lemma DiscriminatorS_forward_raises (fn : nat -> Tensor3 -> Tensor3) (x : Tensor3) :
  DiscriminatorS_forward (DiscriminatorS_init fn) x
  = Raise (RuntimeError "expected input to have in_channels channels").
Proof.
  unfold DiscriminatorS_forward, DiscriminatorS_init. cbn [ds_convs].
  rewrite comprehension_of_convs_raises; [reflexivity|].
  cbn [conv_in_channels]. lia.
Qed.

Lemma DiscriminatorP_forward_raises (period : positive) (fn : nat -> Tensor4 -> Tensor4)
    (x : Tensor3) :
  exists msg, DiscriminatorP_forward (DiscriminatorP_init period fn) x
              = Raise (RuntimeError msg).
Proof.
  unfold DiscriminatorP_forward, DiscriminatorP_init. cbn [dp_convs dp_period].
  destruct (DiscriminatorP_fold period x) as [x4|e] eqn:Hfold; cbn [mbind result_bind].
  - rewrite comprehension_of_convs_raises; [eexists; reflexivity|].
    cbn [conv_in_channels]. lia.
  - unfold DiscriminatorP_fold in Hfold.
    destruct (negb _); [|discriminate].
    unfold pad_reflect in Hfold. destruct (Nat.ltb _ _); [discriminate|].
    injection Hfold as <-. eauto.
Qed.

(** X13.  No forward pass of a discriminator returns.  The comprehension
    of [DiscriminatorS.forward] (line 319) applies every convolution of
    [self.convs] to the input [x] itself, not to the output of the
    convolution before it; the first convolution is built for 1 channel
    and the second for 16 (1 and 32 in [DiscriminatorP]), so for every
    input one of the two raises [RuntimeError].
    [MultiPeriodDiscriminator.forward] calls its first discriminator first,
    so it raises as well, for every list of periods. *)
Theorem discriminators_never_return :
  (forall fn x, exists msg,
     DiscriminatorS_forward (DiscriminatorS_init fn) x = Raise (RuntimeError msg))
  /\ (forall period fn x, exists msg,
        DiscriminatorP_forward (DiscriminatorP_init period fn) x
        = Raise (RuntimeError msg))
  /\ (forall periods fn_s fn_p y y_hat, exists msg,
        MultiPeriodDiscriminator_forward
          (MultiPeriodDiscriminator_init periods fn_s fn_p) y y_hat
        = Raise (RuntimeError msg)).
Proof.
  split; [|split].
  - intros fn x. rewrite DiscriminatorS_forward_raises. eexists. reflexivity.
  - apply DiscriminatorP_forward_raises.
  - intros periods fn_s fn_p y y_hat.
    unfold MultiPeriodDiscriminator_forward, MultiPeriodDiscriminator_init.
    cbn [app comprehension discriminator_call].
    rewrite (DiscriminatorS_forward_raises fn_s y). eexists. reflexivity.
Qed.

End DiscriminatorFacts.

(** *** The folding of a signal by its period *)

Lemma nth_map_in {A B} (f : A -> B) (l : list A) (n : nat) (da : A) (db : B) :
  (n < length l)%nat -> nth n (map f l) db = f (nth n l da).
Proof.
  intros Hn. rewrite (nth_indep _ db (f da)) by (now rewrite length_map).
  apply map_nth.
Qed.

Lemma reflect_row_length (n_pad : nat) (row : list R) :
  (n_pad < length row)%nat -> length (reflect_row n_pad row) = (length row + n_pad)%nat.
Proof.
  intros Hn. unfold reflect_row. rewrite length_app, length_firstn.
  assert (Hl : length (tl (rev row)) = (length row - 1)%nat).
  { pose proof (length_rev row) as Hr. destruct (rev row); cbn in *; lia. }
  rewrite Hl. lia.
Qed.

Lemma reflect_row_nth (n_pad : nat) (row : list R) (k : nat) :
  (n_pad < length row)%nat -> (k < length row + n_pad)%nat ->
  nth k (reflect_row n_pad row) 0
  = nth (if Nat.ltb k (length row) then k else 2 * length row - 2 - k)%nat row 0.
Proof.
  intros Hn Hk. unfold reflect_row.
  destruct (Nat.ltb_spec k (length row)) as [Hlt|Hge].
  - now rewrite app_nth1.
  - rewrite app_nth2 by lia.
    assert (Htl : forall (l : list R) m, nth m (tl l) 0 = nth (S m) l 0).
    { intros l m. destruct l; [now destruct m|reflexivity]. }
    rewrite nth_firstn.
    destruct (Nat.ltb_spec (k - length row) n_pad) as [_|Hbad]; [|lia].
    rewrite Htl, rev_nth by lia. f_equal. lia.
Qed.

Lemma view_row_nth (p n : nat) (row : list R) (i j : nat) :
  (i < n)%nat -> (j < p)%nat ->
  nth j (nth i (map (fun i => firstn p (skipn (i * p) row)) (seq 0 n)) []) 0
  = nth (i * p + j) row 0.
Proof.
  intros Hi Hj. rewrite (nth_map_in _ _ _ 0%nat) by (now rewrite length_seq).
  rewrite seq_nth by exact Hi. cbn [Nat.add].
  rewrite nth_firstn. destruct (Nat.ltb_spec j p) as [_|Hbad]; [|lia].
  apply nth_skipn.
Qed.

Lemma view_periods_shape (x : Tensor3) (B C T p : nat) :
  (1 <= p)%nat -> Nat.modulo T p = 0%nat ->
  has_shape3 x B C T -> has_shape4 (view_periods T p x) B C (Nat.div T p) p.
Proof.
  intros Hp Hmod [Hb Hx]. unfold view_periods. split; [now rewrite length_map|].
  apply Forall_map. eapply Forall_impl; [exact Hx|]. intros xb [Hc Hxb]. cbn beta.
  split; [now rewrite length_map|].
  apply Forall_map. eapply Forall_impl; [exact Hxb|]. intros row Ht. cbn beta.
  split; [now rewrite length_map, length_seq|].
  apply Forall_map, List.Forall_forall. intros i Hi. apply in_seq in Hi.
  rewrite length_firstn, length_skipn, Ht.
  pose proof (Nat.div_mod_eq T p) as Hdm. rewrite Hmod in Hdm. nia.
Qed.

Lemma at4_view_periods (x : Tensor3) (B C T p b c i j : nat) :
  length x = B -> Forall (fun xb => length xb = C) x ->
  (b < B)%nat -> (c < C)%nat -> (i < Nat.div T p)%nat -> (j < p)%nat ->
  at4 (view_periods T p x) b c i j = at3 x b c (i * p + j).
Proof.
  intros Hb Hx Hlb Hlc Hi Hj. unfold at4, at3, view_periods.
  rewrite (nth_map_in _ _ _ []) by lia.
  assert (Hc : length (nth b x []) = C).
  { rewrite List.Forall_forall in Hx. apply Hx, nth_In. lia. }
  rewrite (nth_map_in _ _ _ []) by lia.
  now apply view_row_nth.
Qed.

Lemma at3_reflect (x : Tensor3) (B C T n_pad b c k : nat) :
  has_shape3 x B C T -> (b < B)%nat -> (c < C)%nat ->
  (n_pad < T)%nat -> (k < T + n_pad)%nat ->
  at3 (map (map (reflect_row n_pad)) x) b c k
  = at3 x b c (if Nat.ltb k T then k else 2 * T - 2 - k)%nat.
Proof.
  intros [Hb Hx] Hlb Hlc Hn Hk. unfold at3.
  rewrite (nth_map_in _ _ _ []) by lia.
  assert (Hxb : length (nth b x []) = C
                /\ Forall (fun xc => length xc = T) (nth b x [])).
  { rewrite List.Forall_forall in Hx. apply Hx, nth_In. lia. }
  destruct Hxb as [Hc Hxb].
  rewrite (nth_map_in _ _ _ []) by lia.
  assert (Ht : length (nth c (nth b x []) []) = T).
  { rewrite List.Forall_forall in Hxb. apply Hxb, nth_In. lia. }
  rewrite reflect_row_nth by lia. now rewrite Ht.
Qed.

Lemma reflect_shape (x : Tensor3) (B C T n_pad : nat) :
  has_shape3 x B C T -> (n_pad < T)%nat ->
  has_shape3 (map (map (reflect_row n_pad)) x) B C (T + n_pad).
Proof.
  intros [Hb Hx] Hn. split; [now rewrite length_map|].
  apply Forall_map. eapply Forall_impl; [exact Hx|]. intros xb [Hc Hxb]. cbn beta.
  split; [now rewrite length_map|].
  apply Forall_map. eapply Forall_impl; [exact Hxb|]. intros row Ht. cbn beta in *.
  rewrite reflect_row_length by lia. now rewrite Ht.
Qed.

(** X14.  Lines 339-344 of [DiscriminatorP.forward] on a signal of [T]
    frames and a period [p]: when [T] is no multiple of [p], the signal is
    extended by [n_pad = p - T % p] frames, which mirror the frames before
    the last one, and the extended length is a multiple of [p]; the signal
    is then folded into rows of [p] frames, frame [i * p + j] becoming
    entry [j] of row [i].  The padding needs [n_pad < T]: a signal with
    [n_pad >= T] frames (one frame, for every period above 1) makes the
    call raise [RuntimeError]. *)
Theorem DiscriminatorP_fold_pads_and_folds (period : positive) (x : Tensor3)
    (B C T : nat) :
  has_shape3 x B C T -> (1 <= B)%nat -> (1 <= C)%nat ->
  let p := Pos.to_nat period in
  let n_pad := if Nat.eqb (Nat.modulo T p) 0 then 0%nat else (p - Nat.modulo T p)%nat in
  (n_pad = 0%nat \/ (n_pad < T)%nat ->
   Nat.modulo (T + n_pad) p = 0%nat
   /\ exists x4,
        DiscriminatorP_fold period x = Ok x4
        /\ has_shape4 x4 B C (Nat.div (T + n_pad) p) p
        /\ forall b c i j,
             (b < B)%nat -> (c < C)%nat -> (i < Nat.div (T + n_pad) p)%nat -> (j < p)%nat ->
             at4 x4 b c i j
             = at3 x b c (if Nat.ltb (i * p + j) T then i * p + j
                          else 2 * T - 2 - (i * p + j))%nat)
  /\ (n_pad <> 0%nat -> (T <= n_pad)%nat ->
      exists msg, DiscriminatorP_fold period x = Raise (RuntimeError msg)).
Proof.
  intros Hx HB HC p n_pad.
  assert (Hp : (1 <= p)%nat) by (unfold p; lia).
  pose proof (has_shape3_size2 _ _ _ _ Hx HB HC) as Hsize.
  unfold DiscriminatorP_fold. rewrite Hsize. fold p.
  subst n_pad. destruct (Nat.eqb_spec (Nat.modulo T p) 0) as [Hmod|Hmod]; cbn [negb].
  - split; [|intros Hn; contradiction].
    intros _. rewrite Nat.add_0_r. split; [exact Hmod|].
    eexists. split; [reflexivity|]. split; [now apply view_periods_shape|].
    intros b c i j Hb Hc Hi Hj. destruct Hx as [Hlen Hall].
    assert (Hall' : Forall (fun xb => length xb = C) x)
      by (eapply Forall_impl; [exact Hall|]; now intros xb [Hxb _]).
    rewrite (at4_view_periods x B C T p b c i j Hlen Hall' Hb Hc Hi Hj).
    assert (Hlt : (i * p + j < T)%nat).
    { pose proof (Nat.div_mod_eq T p) as Hdm. rewrite Hmod in Hdm. nia. }
    destruct (Nat.ltb_spec (i * p + j) T); [reflexivity|lia].
  - set (n_pad := (p - Nat.modulo T p)%nat).
    assert (Hmod' : Nat.modulo (T + n_pad) p = 0%nat).
    { pose proof (Nat.mod_upper_bound T p ltac:(lia)) as Hub.
      pose proof (Nat.div_mod_eq T p) as Hdm.
      replace (T + n_pad)%nat with ((Nat.div T p + 1) * p)%nat by (unfold n_pad; nia).
      apply Nat.Div0.mod_mul. }
    unfold pad_reflect. split.
    + intros [Hzero|Hlt].
      { pose proof (Nat.mod_upper_bound T p ltac:(lia)). unfold n_pad in Hzero. lia. }
      split; [exact Hmod'|].
      destruct (Nat.ltb_spec n_pad T) as [_|Hbad]; [|lia]. cbn [mbind result_bind].
      eexists. split; [reflexivity|].
      pose proof (reflect_shape x B C T n_pad Hx Hlt) as Hx'.
      split; [now apply view_periods_shape|].
      intros b c i j Hb Hc Hi Hj. destruct Hx' as [Hlen Hall].
      assert (Hall' : Forall (fun xb => length xb = C) (map (map (reflect_row n_pad)) x))
        by (eapply Forall_impl; [exact Hall|]; now intros xb [Hxb _]).
      rewrite (at4_view_periods _ B C (T + n_pad) p b c i j Hlen Hall' Hb Hc Hi Hj).
      apply (at3_reflect x B C T n_pad); auto.
      pose proof (Nat.div_mod_eq (T + n_pad) p) as Hdm. rewrite Hmod' in Hdm. nia.
    + intros _ Hge. destruct (Nat.ltb_spec n_pad T) as [Hbad|_]; [lia|].
      cbn [mbind result_bind]. eexists. reflexivity.
Qed.

(** X14, an instance: five frames folded by the period 3. *)
Lemma DiscriminatorP_fold_example :
  DiscriminatorP_fold 3 [[[1; 2; 3; 4; 5]]] = Ok [[[[1; 2; 3]; [4; 5; 4]]]]
  /\ exists msg, DiscriminatorP_fold 2 [[[7]]] = Raise (RuntimeError msg).
Proof.
  assert (H5 : has_shape3 [[[1; 2; 3; 4; 5]]] 1 1 5)
    by (split; [reflexivity|repeat constructor]).
  assert (H1 : has_shape3 [[[7]]] 1 1 1) by (split; [reflexivity|repeat constructor]).
  split; [reflexivity|].
  apply (proj2 (DiscriminatorP_fold_pads_and_folds 2 [[[7]]] 1 1 1 H1 (le_n 1) (le_n 1)));
    [discriminate|apply le_n].
Defined.

(** *** The training pass *)

Section TrainingFacts.
Context `{TorchRuntime} `{InferPack} `{!Commons}.

(** X15.  [SynthesizerTrnMsNSFsid.forward] ends, on every input, as
    [infer] does: line 262 unpacks the two-item tuple of the text encoder
    into three names, so the call raises (the [ValueError] of the
    unpacking whenever the text encoder returns) before the posterior
    encoder, the flow, the random segments and the vocoder are reached;
    no random number is drawn and the module is left as it was. *)
Theorem forward_raises_before_the_posterior_encoder
    (self : SynthesizerTrnMsNSFsid) (phone : Tensor3) (phone_lengths : list Z)
    (pitch : option (list (list Z))) (pitchf : FloatTensor2) (y : Tensor3)
    (y_lengths ds : list Z) (gen : Gen) :
  SynthesizerTrnMsNSFsid_forward self phone phone_lengths pitch pitchf y y_lengths ds gen
  = (Raise (infer_exception self phone phone_lengths pitch), self, gen)
  /\ (forall nsff0 sid rate,
        (SynthesizerTrnMsNSFsid_forward self phone phone_lengths pitch pitchf y
           y_lengths ds gen).1.1
        = Raise (infer_exception self phone phone_lengths pitch)
        /\ (infer self phone phone_lengths pitch nsff0 sid rate gen).1.1
           = Raise (infer_exception self phone phone_lengths pitch))
  /\ (forall items,
        TextEncoder_forward (enc_p self) phone pitch phone_lengths = Ok items ->
        infer_exception self phone phone_lengths pitch
        = ValueError "not enough values to unpack (expected 3, got 2)").
Proof.
  assert (Hfwd : SynthesizerTrnMsNSFsid_forward self phone phone_lengths pitch pitchf y
                   y_lengths ds gen
                 = (Raise (infer_exception self phone phone_lengths pitch), self, gen)).
  { unfold SynthesizerTrnMsNSFsid_forward, infer_exception.
    destruct (TextEncoder_forward (enc_p self) phone pitch phone_lengths)
      as [items|e] eqn:Henc; [|reflexivity].
    destruct (TextEncoder_forward_two_items _ _ _ _ _ Henc) as (chunks & x_mask & ->).
    reflexivity. }
  split; [exact Hfwd|]. split.
  - intros nsff0 sid rate. rewrite Hfwd, infer_raises. split; reflexivity.
  - intros items Hret. unfold infer_exception. now rewrite Hret.
Qed.

End TrainingFacts.

(** X15, an instance: the training pass on the utterance of [Example]. *)
Lemma forward_example :
  @SynthesizerTrnMsNSFsid_forward Example.runtime Example.pack ExampleTraining.commons
    (Example.synthesizer true None) Example.phone Example.phone_lengths None
    ExampleTraining.pitchf ExampleTraining.y [3%Z] Example.sid 0%nat
  = (Raise (ValueError "not enough values to unpack (expected 3, got 2)"),
     Example.synthesizer true None, 0%nat).
Proof.
  destruct (@forward_raises_before_the_posterior_encoder Example.runtime Example.pack
              ExampleTraining.commons (Example.synthesizer true None) Example.phone
              Example.phone_lengths None ExampleTraining.pitchf ExampleTraining.y
              [3%Z] Example.sid 0%nat) as (Hraise & _ & Hexn).
  rewrite Hraise. now rewrite (Hexn _ eq_refl).
Defined.

(** *** The posterior encoder *)

Lemma half_of_table (B n T k r : nat) (F : nat -> nat -> nat -> R) :
  map (fun xb => firstn n (skipn k xb)) (tab3 B (k + (n + r)) T F)
  = tab3 B n T (fun b c t => F b (k + c)%nat t).
Proof.
  unfold tab3. rewrite tab1_map. apply tab1_ext. intros b _.
  unfold tab2. rewrite tab1_app, skipn_app, tab1_length, Nat.sub_diag.
  rewrite skipn_all2 by (rewrite tab1_length; lia). cbn [app]. rewrite skipn_O.
  rewrite tab1_app, firstn_app, tab1_length, Nat.sub_diag, firstn_O.
  rewrite app_nil_r, firstn_all2 by (rewrite tab1_length; lia). reflexivity.
Qed.

Lemma unpack2_raises {A} (items : list A) :
  length items <> 2%nat -> exists msg, unpack2 items = Raise (ValueError msg).
Proof.
  destruct items as [|a [|b [|c items]]]; cbn; intros Hl; try (eexists; reflexivity).
  contradiction.
Qed.

Lemma split_dim1_chunks (n : nat) (x : Tensor3) :
  (1 <= n)%nat ->
  split_dim1 n x
  = Ok (map (fun i => map (fun xb => firstn n (skipn (i * n) xb)) x)
          (seq 0 (Nat.div (size1 x + n - 1) n))).
Proof. intros Hn. destruct n; [lia|reflexivity]. Qed.

Section PosteriorFacts.
Context `{TorchRuntime} `{InferPack}.

(** X16.  [PosteriorEncoder.forward] on a projection with
    [2 * out_channels] channels: the mean [m] is the first half of the
    masked statistics and [logs] the second half, and the latent is
    [z = (m + noise * exp(logs)) * x_mask], entry by entry, for the noise
    that [torch.randn_like(m)] draws.  On a projection with at most
    [out_channels] channels, or with more than twice as many, the
    unpacking of line 70 raises [ValueError], and no noise is drawn. *)
Theorem PosteriorEncoder_forward_samples (self : PosteriorEncoder) (x : Tensor3)
    (x_lengths : list Z) (g : option Tensor3) (gen : Gen) (B n T : nat) :
  (1 <= B)%nat -> (1 <= n)%nat -> pe_out_channels self = n ->
  let stats := (PosteriorEncoder_stats self x x_lengths g).1 in
  let x_mask := (PosteriorEncoder_stats self x x_lengths g).2 in
  (has_shape3 stats B (2 * n) T -> has_shape3 x_mask B 1 T ->
   exists z m logs,
     PosteriorEncoder_forward self x x_lengths g gen
     = (Ok (z, m, logs, x_mask), (randn_like m gen).2)
     /\ has_shape3 m B n T /\ has_shape3 logs B n T
     /\ forall b c t, (b < B)%nat -> (c < n)%nat -> (t < T)%nat ->
          at3 m b c t = at3 stats b c t
          /\ at3 logs b c t = at3 stats b (n + c) t
          /\ at3 z b c t
             = (at3 m b c t + at3 (randn_like m gen).1 b c t * exp (at3 logs b c t))
               * at3 x_mask b 0 t)
  /\ ((size1 stats <= n)%nat \/ (2 * n < size1 stats)%nat ->
      exists msg,
        PosteriorEncoder_forward self x x_lengths g gen = (Raise (ValueError msg), gen)).
Proof.
  intros HB Hn Hout stats x_mask. unfold PosteriorEncoder_forward.
  destruct (PosteriorEncoder_stats self x x_lengths g) as [stats' x_mask'] eqn:Hstats.
  cbn [fst snd] in stats, x_mask. subst stats x_mask.
  rewrite Hout, (split_dim1_chunks _ _ Hn). split.
  - intros Hs Hm.
    assert (Hsize : size1 stats' = (2 * n)%nat).
    { destruct Hs as [Hb Hall]. destruct stats' as [|xb rest]; [cbn in Hb; lia|].
      now apply Forall_cons in Hall as [[Hc _] _]. }
    rewrite Hsize.
    replace (Nat.div (2 * n + n - 1) n) with 2%nat
      by (apply Nat.div_unique with (n - 1)%nat; lia).
    cbn [seq map mbind result_bind unpack2 Nat.mul Nat.add].
    pose proof (has_shape3_tab _ _ _ _ 0 Hs) as Es.
    pose proof (has_shape3_tab _ _ _ _ 0 Hm) as Ek.
    set (Fs := fun b c t => nth t (nth c (nth b stats' []) []) 0) in Es.
    set (Fk := fun b c t => nth t (nth c (nth b x_mask' []) []) 0) in Ek.
    assert (Em : map (fun xb => firstn n (skipn 0 xb)) stats'
                 = tab3 B n T (fun b c t => Fs b c t)).
    { rewrite Es at 1. replace (2 * n)%nat with (0 + (n + n))%nat by lia.
      now rewrite half_of_table. }
    assert (El : map (fun xb => firstn n (skipn (n + 0) xb)) stats'
                 = tab3 B n T (fun b c t => Fs b (n + c)%nat t)).
    { rewrite Es at 1. replace (2 * n)%nat with ((n + 0) + (n + 0))%nat by lia.
      rewrite half_of_table. apply tab3_ext. intros b c t _ _ _. f_equal. lia. }
    rewrite Em, El.
    set (m := tab3 B n T (fun b c t => Fs b c t)).
    set (logs := tab3 B n T (fun b c t => Fs b (n + c)%nat t)).
    assert (Hsm : has_shape3 m B n T) by apply tab3_has_shape.
    assert (Hsl : has_shape3 logs B n T) by apply tab3_has_shape.
    pose proof (randn_like_shape m B n T gen Hsm) as Hsn.
    destruct (randn_like m gen) as [noise gen'] eqn:Hnoise. cbn [fst snd] in *.
    eexists _, m, logs. rewrite Hnoise. cbn [fst snd].
    split; [reflexivity|]. split; [exact Hsm|]. split; [exact Hsl|].
    intros b c t Hb Hc Ht.
    pose proof (has_shape3_tab _ _ _ _ 0 Hsn) as En.
    set (Fn := fun b c t => nth t (nth c (nth b noise []) []) 0) in En.
    split; [unfold m; rewrite at3_tab3 by assumption; reflexivity|].
    split; [unfold logs; rewrite at3_tab3 by assumption; reflexivity|].
    rewrite En at 1. rewrite Ek at 1. unfold m at 1, logs at 1, tmul3, tadd3.
    rewrite map3_tab3, bcast3_tab3, bcast3_tab3, bcast3_tab3_mid_r.
    rewrite at3_tab3 by assumption.
    unfold m, logs. rewrite !at3_tab3 by assumption.
    change (at3 noise b c t) with (Fn b c t). change (at3 x_mask' b 0 t) with (Fk b 0%nat t).
    reflexivity.
  - intros Hsize. cbn [mbind result_bind].
    destruct (unpack2_raises
                (map (fun i => map (fun xb => firstn n (skipn (i * n) xb)) stats')
                   (seq 0 (Nat.div (size1 stats' + n - 1) n)))) as (msg & Hmsg).
    + rewrite length_map, length_seq. intros Hk.
      pose proof (Nat.div_mod_eq (size1 stats' + n - 1) n) as Hdm.
      pose proof (Nat.mod_upper_bound (size1 stats' + n - 1) n ltac:(lia)) as Hub.
      rewrite Hk in Hdm. lia.
    + rewrite Hmsg. eauto.
Qed.

End PosteriorFacts.

(** X16, an instance: the posterior encoder of [Example] on three
    frames. *)
Lemma PosteriorEncoder_example :
  exists z m logs,
    @PosteriorEncoder_forward Example.runtime Example.pack Example.posterior
      ExampleTraining.y [3%Z] None 0%nat
    = (Ok (z, m, logs,
           (@PosteriorEncoder_stats Example.pack Example.posterior ExampleTraining.y
              [3%Z] None).2),
       (@randn_like Example.runtime m 0%nat).2)
    /\ has_shape3 m 1 1 3.
Proof.
  destruct (@PosteriorEncoder_forward_samples Example.runtime Example.pack
              Example.posterior ExampleTraining.y [3%Z] None 0%nat 1 1 3
              (le_n 1) (le_n 1) eq_refl) as [Hok _].
  destruct Hok as (z & m & logs & Hfw & Hm & _).
  - split; [reflexivity|repeat constructor].
  - split; [reflexivity|repeat constructor].
  - exists z, m, logs. split; [exact Hfw|exact Hm].
Defined.

(** *** A text encoder without pitch embedding, called with a pitch *)

Section NoPitchFacts.
Context `{TorchRuntime} `{InferPack} `{!Commons}.

(** X17.  A text encoder built with [f0=False] (as the constructor of
    [SynthesizerTrnMsNSFsid_nono] builds it) has no attribute
    [emb_pitch]: called with a pitch, [TextEncoder.forward] raises
    [AttributeError] at line 30, and [infer] and [forward] of a
    synthesizer with such an encoder end with that exception (not with
    the [ValueError] of the unpacking), whatever the other inputs; without
    a pitch the encoder returns whenever its [out_channels] is not 0. *)
Theorem pitch_without_embedding_is_an_attribute_error
    (self : SynthesizerTrnMsNSFsid) (phone : Tensor3) (phone_lengths : list Z)
    (pitch : list (list Z)) :
  te_emb_pitch (enc_p self) = None ->
  TextEncoder_forward (enc_p self) phone (Some pitch) phone_lengths
  = Raise (AttributeError "emb_pitch")
  /\ (forall nsff0 sid rate gen,
        infer self phone phone_lengths (Some pitch) nsff0 sid rate gen
        = (Raise (AttributeError "emb_pitch"), self, gen))
  /\ (forall pitchf y y_lengths ds gen,
        SynthesizerTrnMsNSFsid_forward self phone phone_lengths (Some pitch) pitchf y
          y_lengths ds gen
        = (Raise (AttributeError "emb_pitch"), self, gen))
  /\ ((1 <= te_out_channels (enc_p self))%nat ->
      is_ok (TextEncoder_forward (enc_p self) phone None phone_lengths) = true).
Proof.
  intros Hemb.
  assert (Henc : TextEncoder_forward (enc_p self) phone (Some pitch) phone_lengths
                 = Raise (AttributeError "emb_pitch")).
  { unfold TextEncoder_forward, TextEncoder_embed. now rewrite Hemb. }
  split; [exact Henc|]. split; [|split].
  - intros nsff0 sid rate gen. rewrite infer_raises. unfold infer_exception.
    now rewrite Henc.
  - intros pitchf y y_lengths ds gen. unfold SynthesizerTrnMsNSFsid_forward.
    now rewrite Henc.
  - intros Hout. unfold TextEncoder_forward, TextEncoder_embed. cbn [mbind result_bind].
    destruct (TextEncoder_encode _ _ _) as [stats x_mask].
    now rewrite (split_dim1_chunks _ _ Hout).
Qed.

End NoPitchFacts.

(** X17, an instance: the encoder of [Example] built with [f0=False]. *)
Lemma no_pitch_example :
  @infer Example.runtime Example.pack (Example.synthesizer false None)
    Example.phone Example.phone_lengths (Some [[1; 2; 3]%Z]) Example.nsff0 Example.sid
    None 0%nat
  = (Raise (AttributeError "emb_pitch"), Example.synthesizer false None, 0%nat).
Proof.
  apply (proj1 (proj2 (@pitch_without_embedding_is_an_attribute_error
                         Example.runtime Example.pack ExampleTraining.commons
                         (Example.synthesizer false None) Example.phone
                         Example.phone_lengths [[1; 2; 3]%Z] eq_refl))).
Defined.

(** *** The format of the source module *)

Section SourceFormat.
Context `{TorchRuntime}.





End SourceFormat.


End ModelsFacts.

(** ** More on the replacement of the HuBERT checkpoint *)

Module HubertFacts.
Import Fs DownloadHubert DownloadHubertFacts.

Lemma download_installs (urlopen : string -> response) (model_desc model_name data : string)
    (fs : gmap (list string) node) :
  models !! model_desc = Some model_name ->
  urlopen (String.append base_url model_name) = Body data None ->
  isdir fs rvc_models_dir = true ->
  isdir fs tmp_model_path = false ->
  fs !! hubert_base_path <> Some Dir ->
  download_and_replace_model urlopen model_desc fs
  = (Ok (String.append "Модель " (String.append model_desc " успешно установлена.")),
     <[hubert_base_path := File data]>
       (delete tmp_model_path
          (delete hubert_base_path (<[tmp_model_path := File data]> fs)))).
Proof.
  intros Hname Hnet Hdir Htmp Hbase. unfold download_and_replace_model.
  rewrite Hname, Hnet. unfold write_file. rewrite Htmp.
  change (dirname tmp_model_path) with rvc_models_dir. rewrite Hdir.
  pose proof (install_downloaded_spec (<[tmp_model_path := File data]> fs) data
                (lookup_insert_eq _ _ _)) as Hinst.
  rewrite isdir_insert_file_ne in Hinst by discriminate. specialize (Hinst Hdir).
  destruct (install_downloaded _) as [fs2|e].
  - destruct Hinst as [_ ->]. reflexivity.
  - rewrite lookup_insert_ne in Hinst by (apply not_eq_sym, paths_differ). contradiction.
Qed.

Lemma download_returned (urlopen : string -> response) (model_desc msg : string)
    (fs : gmap (list string) node) :
  (download_and_replace_model urlopen model_desc fs).1 = Ok msg ->
  exists model_name data,
    models !! model_desc = Some model_name
    /\ urlopen (String.append base_url model_name) = Body data None
    /\ isdir fs rvc_models_dir = true
    /\ isdir fs tmp_model_path = false
    /\ fs !! hubert_base_path <> Some Dir.
Proof.
  unfold download_and_replace_model.
  destruct (models !! model_desc) as [model_name|]; [|discriminate].
  destruct (urlopen _) as [e|data [e|]] eqn:Hnet; try discriminate.
  - destruct (write_file _ _ _); discriminate.
  - destruct (write_file tmp_model_path data fs) as [fs1|e] eqn:Hw; [|discriminate].
    apply write_file_Ok in Hw as (-> & Htmp & Hdir).
    change (dirname tmp_model_path) with rvc_models_dir in Hdir.
    pose proof (install_downloaded_spec (<[tmp_model_path := File data]> fs) data
                  (lookup_insert_eq _ _ _)) as Hinst.
    rewrite isdir_insert_file_ne in Hinst by discriminate. specialize (Hinst Hdir).
    destruct (install_downloaded _) as [fs2|e]; [|discriminate].
    destruct Hinst as [Hbase _].
    rewrite lookup_insert_ne in Hbase by (apply not_eq_sym, paths_differ).
    intros _. exists model_name, data. auto.
Qed.

(** X19.  A description that is no key of [models] raises [KeyError]
    before any request, with nothing changed.  And installations can be
    repeated: after a call that returned, every later call whose download
    is complete returns as well, and leaves the bytes of the latest
    download in [hubert_base.pt] (whatever file of the server was chosen),
    no [tmp_model.pt], and every other path as it was before the first
    call. *)
Theorem hubert_installations_repeat (urlopen1 urlopen2 : string -> response)
    (desc1 desc2 : string) (fs : gmap (list string) node) :
  (models !! desc1 = None ->
   download_and_replace_model urlopen1 desc1 fs = (Raise (KeyError desc1), fs))
  /\ (forall msg1 name2 data2,
        (download_and_replace_model urlopen1 desc1 fs).1 = Ok msg1 ->
        models !! desc2 = Some name2 ->
        urlopen2 (String.append base_url name2) = Body data2 None ->
        let out2 := download_and_replace_model urlopen2 desc2
                      (download_and_replace_model urlopen1 desc1 fs).2 in
        is_ok out2.1 = true
        /\ out2.2 !! hubert_base_path = Some (File data2)
        /\ out2.2 !! tmp_model_path = None
        /\ forall p, p <> hubert_base_path -> p <> tmp_model_path ->
                     out2.2 !! p = fs !! p).
Proof.
  split.
  - intros Hnone. unfold download_and_replace_model. now rewrite Hnone.
  - intros msg1 name2 data2 Hret Hname2 Hnet2.
    destruct (download_returned _ _ _ _ Hret)
      as (name1 & data1 & Hname1 & Hnet1 & Hdir & Htmp & Hbase).
    rewrite (download_installs _ _ _ _ _ Hname1 Hnet1 Hdir Htmp Hbase). cbn [fst snd].
    set (fs1 := <[hubert_base_path := File data1]> _).
    assert (Hdir1 : isdir fs1 rvc_models_dir = true).
    { unfold fs1. rewrite isdir_insert_file_ne by discriminate.
      rewrite !isdir_delete_ne by discriminate.
      now rewrite isdir_insert_file_ne by discriminate. }
    assert (Htmp1 : isdir fs1 tmp_model_path = false).
    { unfold fs1. rewrite isdir_insert_file_ne by apply paths_differ.
      apply bool_decide_eq_false_2. now rewrite lookup_delete_eq. }
    assert (Hbase1 : fs1 !! hubert_base_path <> Some Dir).
    { unfold fs1. now rewrite lookup_insert_eq. }
    cbn zeta.
    rewrite (download_installs _ _ _ _ _ Hname2 Hnet2 Hdir1 Htmp1 Hbase1). cbn [fst snd].
    split; [reflexivity|]. split; [apply lookup_insert_eq|]. split.
    + rewrite lookup_insert_ne by apply paths_differ. apply lookup_delete_eq.
    + intros p Hp1 Hp2. unfold fs1.
      repeat (rewrite ?lookup_insert_ne, ?lookup_delete_ne by congruence). reflexivity.
Qed.

(** X19, an instance: the standard model, then the Korean one. *)
Lemma hubert_example :
  let fs : gmap (list string) node := list_to_map [(rvc_models_dir, Dir)] in
  let first := fun _ : string => Body "standard" None in
  let second := fun _ : string => Body "korean" None in
  let out2 := download_and_replace_model second "Корейский базовый"
                (download_and_replace_model first "Стандарт" fs).2 in
  out2.2 !! hubert_base_path = Some (File "korean")
  /\ out2.2 !! tmp_model_path = None.
Proof.
  intros fs first second out2.
  destruct (proj2 (hubert_installations_repeat first second "Стандарт"
                     "Корейский базовый" fs)
              (String.append "Модель " (String.append "Стандарт" " успешно установлена."))
              "korean_hubert_base.pt" "korean")
    as (_ & Hbase & Htmp & _); try (vm_compute; reflexivity).
  split; [exact Hbase|exact Htmp].
Defined.

End HubertFacts.
